(** * openwillis: video face-frame cropping utilities

    A shallow embedding of [openwillis/measures/video/util/crop_utils.py]:
    bounding-box padding, aspect-preserving resize, centring on a canvas,
    masking outside a bounding box, and the per-frame loop over a video.

    Python values are modelled as follows.
    - [int] is [Z]; [float] is an IEEE-754 binary64 value, [spec_float]
      with precision 53 and maximal exponent 1024, and its operations are
      the correctly rounded ones of [SpecFloat].
    - a [dict] with string keys is a [gmap string Z]; a missing key raises
      [KeyError].
    - an image ([numpy.ndarray] of shape [(h, w, 3)]) is a list of rows of
      pixels together with its number of columns.  The frames of a video
      are arrays of [np.uint8]; a colour given as a Python tuple is cast to
      [np.uint8] where the source builds an array of that type from it
      ([np.full]).
    - exceptions are values of [exn], computations that may raise live in
      [result].
    - the calls into OpenCV ([cv2.resize], [cv2.VideoCapture]) are
      parameters of the functions that make them; a video source is the
      list of the frames it still has to deliver.

    The first part gives the definitions, in the order of the source; the
    second part proves their properties: the exact value and the accuracy
    of the float operations, then [calculate_padding], [resize_to_fit],
    [blacken_outside_bounding_box], [center_in_frame], [create_face_frame]
    and [create_cropped_video]. *)

From Stdlib Require Import ZArith QArith Qround Qpower Lqa SpecFloat.
From stdpp Require Import base option list sorting gmap strings.

Local Open Scope Z_scope.

(** ** Exceptions and the error monad *)

(** The exceptions that can occur.  [IOError] is Python's alias of
    [OSError]; it is no [ValueError]. *)
Inductive exn : Type :=
  | ValueError
  | IOError
  | KeyError (key : string)
  | IndexError
  | ZeroDivisionError
  | OverflowError
  | CvError.

Inductive result (A : Type) : Type :=
  | Ok (a : A)
  | Raise (e : exn).
Arguments Ok {A} a.
Arguments Raise {A} e.

Definition bind {A B : Type} (r : result A) (k : A -> result B) : result B :=
  match r with
  | Ok a => k a
  | Raise e => Raise e
  end.

Notation "x <- r ;; k" := (bind r (fun x => k))
  (at level 100, r at next level, right associativity).

Definition is_ok {A : Type} (r : result A) : bool :=
  match r with Ok _ => true | Raise _ => false end.

(** ** Python floats: IEEE-754 binary64 *)

Module Float.

Definition prec : Z := 53.
Definition emax : Z := 1024.

Abbreviation float := spec_float.

Definition mul : float -> float -> float := SFmul prec emax.
Definition div : float -> float -> float := SFdiv prec emax.
Definition ltb : float -> float -> bool := SFltb.
Definition leb : float -> float -> bool := SFleb.

Definition zero : float := S754_zero false.

Definition is_finite (f : float) : bool :=
  match f with
  | S754_zero _ | S754_finite _ _ _ => true
  | S754_infinity _ | S754_nan => false
  end.

Definition is_zero (f : float) : bool :=
  match f with
  | S754_zero _ => true
  | _ => false
  end.

(** [float(n)] for a Python int: the nearest binary64 value, ties to even;
    [OverflowError] when [n] is too large. *)
Definition of_int (n : Z) : result float :=
  match binary_normalize prec emax n 0 false with
  | S754_infinity _ => Raise OverflowError
  | f => Ok f
  end.

(** [int(f)]: truncation towards zero; [ValueError] on NaN,
    [OverflowError] on an infinity. *)
Definition to_int (f : float) : result Z :=
  match f with
  | S754_nan => Raise ValueError
  | S754_infinity _ => Raise OverflowError
  | S754_zero _ => Ok 0
  | S754_finite s m e => Ok (cond_Zopp s (Z.shiftl (Z.pos m) e))
  end.

(** [a / b] on two Python ints: the correctly rounded quotient. *)
Definition int_truediv (a b : Z) : result float :=
  match a, b with
  | _, Z0 => Raise ZeroDivisionError
  | Z0, Zpos _ => Ok (S754_zero false)
  | Z0, Zneg _ => Ok (S754_zero true)
  | _, _ =>
      match div (S754_finite (a <? 0) (Z.to_pos (Z.abs a)) 0)
                (S754_finite (b <? 0) (Z.to_pos (Z.abs b)) 0) with
      | S754_infinity _ => Raise OverflowError
      | f => Ok f
      end
  end.

(** [x / y] on two Python floats. *)
Definition truediv (x y : float) : result float :=
  if is_zero y then Raise ZeroDivisionError else Ok (div x y).

(** [n * x] and [n / x] with [n] a Python int and [x] a float: the int
    is converted first. *)
Definition int_mul (n : Z) (x : float) : result float :=
  nf <- of_int n ;; Ok (mul nf x).

Definition int_div (n : Z) (x : float) : result float :=
  nf <- of_int n ;; truediv nf x.

(** The exact rational value of a finite float. *)
Definition to_Q (f : float) : Q :=
  match f with
  | S754_finite s m e => inject_Z (cond_Zopp s (Z.pos m)) * Qpower 2 e
  | _ => 0
  end.

(** A positive normal float whose exponent lies in [[lo, hi]]. *)
Definition normal_pos (lo hi : Z) (f : float) : Prop :=
  match f with
  | S754_finite false m e =>
      2 ^ (prec - 1) <= Z.pos m < 2 ^ prec /\ lo <= e <= hi
  | _ => False
  end.

(** The relative error of one correctly rounded operation is at most
    [2^-53]; [u] is twice that, [tol] bounds the error of two operations
    in a row. *)
Definition u : Q := 1 # 4503599627370496.
Definition tol : Q := 3 # 4503599627370496.

(** The value of [f] is within relative distance [tol] of [t]. *)
Definition near (f : float) (t : Q) : Prop :=
  (t * (1 - tol) <= to_Q f)%Q /\ (to_Q f <= t * (1 + tol))%Q.

(** The literals that occur in the source and in the examples: [0.1],
    [0.19]. *)
Definition lit_0_1 : float := S754_finite false 7205759403792794 (-56).
Definition lit_0_19 : float := S754_finite false 6845471433603154 (-55).

(** The literals of further examples: [0.3], [0.29]. *)
Definition lit_0_3 : float := S754_finite false 5404319552844595 (-54).
Definition lit_0_29 : float := S754_finite false 5224175567749775 (-54).

End Float.

Abbreviation float := Float.float.

(** ** Rounding a rational to an integer, as the specification words it *)

(** Truncation towards zero. *)
Definition Qtrunc (q : Q) : Z :=
  if Qle_bool 0 q then Qfloor q else Qceiling q.

(** Round to nearest, ties to even (Python's [round]). *)
Definition Qround_nearest (q : Q) : Z :=
  let f := Qfloor q in
  match Qcompare (q - inject_Z f) (1 # 2) with
  | Lt => f
  | Gt => f + 1
  | Eq => if Z.even f then f else f + 1
  end.

(** ** Dictionaries *)

Definition getitem_dict (d : gmap string Z) (k : string) : result Z :=
  match d !! k with
  | Some v => Ok v
  | None => Raise (KeyError k)
  end.

Definition bounding_box (x y w h : Z) : gmap string Z :=
  <["bb_x" := x]> (<["bb_y" := y]> (<["bb_w" := w]> (<["bb_h" := h]> ∅))).

(** ** calculate_padding *)

Definition calculate_padding (bb_dict : gmap string Z) (padding_percent : float)
  : result (gmap string Z) :=
  x <- getitem_dict bb_dict "bb_x" ;;
  y <- getitem_dict bb_dict "bb_y" ;;
  w <- getitem_dict bb_dict "bb_w" ;;
  h <- getitem_dict bb_dict "bb_h" ;;
  wp <- Float.int_mul w padding_percent ;;
  padding_x <- Float.to_int wp ;;
  hp <- Float.int_mul h padding_percent ;;
  padding_y <- Float.to_int hp ;;
  Ok (bounding_box (Z.max 0 (x - padding_x)) (Z.max 0 (y - padding_y))
                   (w + 2 * padding_x) (h + 2 * padding_y)).

(** ** Images: numpy arrays of shape (h, w, 3) *)

Definition pixel : Type := Z * Z * Z.

Definition zero_pixel : pixel := (0, 0, 0).

(** An array of shape [(length rows, ncols, 3)].  The number of columns is
    kept apart from the rows, since an array may have no row and still a
    width. *)
Record ndarray : Type := {
  ncols : nat;
  rows : list (list pixel)
}.

Definition nrows (a : ndarray) : nat := length (rows a).

(** Every row has [ncols] pixels. *)
Definition rectangular (a : ndarray) : Prop :=
  Forall (fun row => length row = ncols a) (rows a).

(** [a.shape[:2]], as [(h, w)]. *)
Definition shape (a : ndarray) : nat * nat := (nrows a, ncols a).

(** [a.size]. *)
Definition size (a : ndarray) : nat := (nrows a * ncols a * 3)%nat.

(** [a[r, c]] for indices in range. *)
Definition pixel_at (a : ndarray) (r c : nat) : option pixel :=
  rows a !! r ≫= fun row => row !! c.

(** The cast of an int to [np.uint8]: its value modulo 256. *)
Definition uint8 (c : Z) : Z := c mod 256.

Definition as_uint8 (p : pixel) : pixel :=
  let '(r, g, b) := p in (uint8 r, uint8 g, uint8 b).

(** A colour whose three components are 8-bit values. *)
Definition is_uint8 (p : pixel) : Prop :=
  let '(r, g, b) := p in 0 <= r <= 255 /\ 0 <= g <= 255 /\ 0 <= b <= 255.

(** [np.full((h, w, 3), color, dtype=np.uint8)]: every pixel is the colour
    cast to [np.uint8]; negative dimensions are refused. *)
Definition np_full (h w : Z) (color : pixel) : result ndarray :=
  if (h <? 0) || (w <? 0) then Raise ValueError
  else Ok {| ncols := Z.to_nat w;
             rows := replicate (Z.to_nat h)
                       (replicate (Z.to_nat w) (as_uint8 color)) |}.

(** [np.zeros((h, w, 3), dtype=np.uint8)]. *)
Definition np_zeros (h w : Z) : result ndarray := np_full h w zero_pixel.

(** [np.zeros_like(a)]. *)
Definition np_zeros_like (a : ndarray) : ndarray :=
  {| ncols := ncols a; rows := map (map (fun _ => zero_pixel)) (rows a) |}.

(** [np.array([])]: the empty array; only its [size] is ever looked at. *)
Definition np_array_empty : ndarray := {| ncols := 0; rows := [] |}.

(** A slice bound [i] on an axis of length [n]: a negative bound counts
    from the end, and every bound is clipped to the axis. *)
Definition slice_index (n : nat) (i : Z) : nat :=
  Z.to_nat (if i <? 0 then Z.max (i + Z.of_nat n) 0 else Z.min i (Z.of_nat n)).

(** [l[lo:hi]] once the bounds are normalised. *)
Definition list_slice {A : Type} (l : list A) (lo hi : nat) : list A :=
  take (hi - lo) (drop lo l).

(** [a[y0:y1, x0:x1]]. *)
Definition getslice (a : ndarray) (y0 y1 x0 x1 : Z) : ndarray :=
  let r0 := slice_index (nrows a) y0 in
  let r1 := slice_index (nrows a) y1 in
  let c0 := slice_index (ncols a) x0 in
  let c1 := slice_index (ncols a) x1 in
  {| ncols := c1 - c0;
     rows := map (fun row => list_slice row c0 c1) (list_slice (rows a) r0 r1) |}.

(** An axis of length [n] broadcasts to length [m] when [n = m] or [n = 1]. *)
Definition broadcastable (n m : nat) : bool :=
  Nat.eqb n m || Nat.eqb n 1.

(** The source index that lands on offset [k] of the target axis. *)
Definition broadcast_index (n m k : nat) : nat :=
  if Nat.eqb n m then k else 0%nat.

(** [dst[y0:y1, x0:x1] = src]: the target region keeps the shape of [dst];
    [src] must have the shape of the region, up to broadcasting. *)
Definition setslice (dst : ndarray) (y0 y1 x0 x1 : Z) (src : ndarray)
  : result ndarray :=
  let r0 := slice_index (nrows dst) y0 in
  let r1 := slice_index (nrows dst) y1 in
  let c0 := slice_index (ncols dst) x0 in
  let c1 := slice_index (ncols dst) x1 in
  let th := (r1 - r0)%nat in
  let tw := (c1 - c0)%nat in
  if broadcastable (nrows src) th && broadcastable (ncols src) tw then
    Ok {| ncols := ncols dst;
          rows :=
            imap (fun r row =>
              if Nat.leb r0 r && Nat.ltb r r1 then
                imap (fun c p =>
                  if Nat.leb c0 c && Nat.ltb c c1 then
                    default p
                      (pixel_at src (broadcast_index (nrows src) th (r - r0))
                                    (broadcast_index (ncols src) tw (c - c0)))
                  else p) row
              else row) (rows dst) |}
  else Raise ValueError.

(** The pixel that a slice assignment leaves at [(r, c)]. *)
Definition assigned (dst src : ndarray) (y0 y1 x0 x1 : Z) (r c : nat) (p : pixel)
  : pixel :=
  let r0 := slice_index (nrows dst) y0 in
  let r1 := slice_index (nrows dst) y1 in
  let c0 := slice_index (ncols dst) x0 in
  let c1 := slice_index (ncols dst) x1 in
  if Nat.leb r0 r && Nat.ltb r r1 && (Nat.leb c0 c && Nat.ltb c c1) then
    default p (pixel_at src (broadcast_index (nrows src) (r1 - r0) (r - r0))
                            (broadcast_index (ncols src) (c1 - c0) (c - c0)))
  else p.

(** ** crop_img *)

Definition crop_img (img : ndarray) (bb_dict : gmap string Z) : result ndarray :=
  x <- getitem_dict bb_dict "bb_x" ;;
  y <- getitem_dict bb_dict "bb_y" ;;
  w <- getitem_dict bb_dict "bb_w" ;;
  h <- getitem_dict bb_dict "bb_h" ;;
  Ok (getslice img y (y + h) x (x + w)).

(** ** blacken_outside_bounding_box *)

Definition blacken_outside_bounding_box (frame : ndarray) (bb_dict : gmap string Z)
  : result ndarray :=
  x <- getitem_dict bb_dict "bb_x" ;;
  y <- getitem_dict bb_dict "bb_y" ;;
  w <- getitem_dict bb_dict "bb_w" ;;
  h <- getitem_dict bb_dict "bb_h" ;;
  let mask := np_zeros_like frame in
  setslice mask y (y + h) x (x + w) (getslice frame y (y + h) x (x + w)).

(** The region [[x, x+w) × [y, y+h)] of the specification. *)
Definition in_box (x y w h : Z) (r c : nat) : bool :=
  ((x <=? Z.of_nat c) && (Z.of_nat c <? x + w)) &&
  ((y <=? Z.of_nat r) && (Z.of_nat r <? y + h)).

(** Index [k] of an axis of length [n] is selected by the slice [lo:hi]. *)
Definition in_slice (n : nat) (lo hi : Z) (k : nat) : bool :=
  Nat.leb (slice_index n lo) k && Nat.ltb k (slice_index n hi).

(** Two small frames used in the examples. *)
Definition frame_1x2 : ndarray :=
  {| ncols := 2; rows := [[(1, 1, 1); (2, 2, 2)]] |}.

Definition frame_2x3 : ndarray :=
  {| ncols := 3;
     rows := [[(1, 1, 1); (2, 2, 2); (3, 3, 3)];
              [(4, 4, 4); (5, 5, 5); (6, 6, 6)]] |}.

(** ** The video source *)

Record VideoCapture : Type := {
  isOpened : bool;
  pending : list ndarray;   (* the frames not read yet *)
  fps : float;
  released : bool
}.

Definition release (cap : VideoCapture) (rest : list ndarray) : VideoCapture :=
  {| isOpened := false; pending := rest; fps := fps cap; released := true |}.

Definition advance (cap : VideoCapture) (rest : list ndarray) : VideoCapture :=
  {| isOpened := isOpened cap; pending := rest; fps := fps cap;
     released := released cap |}.

Section CropUtils.

(** The two calls into OpenCV that the module makes. *)
Variable cv2_resize : ndarray -> Z -> Z -> result ndarray.
Variable cv2_VideoCapture : string -> VideoCapture.

(** *** resize_to_fit *)

(** The dimensions [(new_w, new_h)] that [resize_to_fit] asks for. *)
Definition fit_size (w h : Z) (frame_size : Z * Z) : result (Z * Z) :=
  let '(frame_w, frame_h) := frame_size in
  aspect_ratio <- Float.int_truediv w h ;;
  frame_aspect_ratio <- Float.int_truediv frame_w frame_h ;;
  if Float.ltb frame_aspect_ratio aspect_ratio then
    let new_w := frame_w in
    q <- Float.int_div new_w aspect_ratio ;;
    new_h <- Float.to_int q ;;
    Ok (new_w, new_h)
  else
    let new_h := frame_h in
    q <- Float.int_mul new_h aspect_ratio ;;
    new_w <- Float.to_int q ;;
    Ok (new_w, new_h).

Definition resize_to_fit (img : ndarray) (frame_size : Z * Z) : result ndarray :=
  let '(h, w) := shape img in
  dims <- fit_size (Z.of_nat w) (Z.of_nat h) frame_size ;;
  cv2_resize img (fst dims) (snd dims).

(** *** center_in_frame *)

Definition center_in_frame (cropped_img : ndarray) (frame_size : Z * Z)
    (background_color : pixel) : result ndarray :=
  let '(h_padded, w_padded) := shape cropped_img in
  cropped_img <-
    (if (fst frame_size <? Z.of_nat w_padded) || (snd frame_size <? Z.of_nat h_padded)
     then resize_to_fit cropped_img frame_size
     else Ok cropped_img) ;;
  let '(h_padded, w_padded) := shape cropped_img in
  frame <- np_full (snd frame_size) (fst frame_size) background_color ;;
  let x_offset := (fst frame_size - Z.of_nat w_padded) `div` 2 in
  let y_offset := (snd frame_size - Z.of_nat h_padded) `div` 2 in
  setslice frame y_offset (y_offset + Z.of_nat h_padded)
                 x_offset (x_offset + Z.of_nat w_padded) cropped_img.

(** *** crop_with_padding_and_center *)

Definition crop_with_padding_and_center (img : ndarray) (bb_dict : gmap string Z)
    (padding_percent : float) (frame_size : Z * Z) (background_color : pixel)
  : result ndarray :=
  padded_bb_dict <- calculate_padding bb_dict padding_percent ;;
  padded_crop <- crop_img img padded_bb_dict ;;
  center_in_frame padded_crop frame_size background_color.

(** *** create_cropped_frame *)

Definition create_cropped_frame (frame : ndarray) (frame_dict : gmap string Z)
    (darken : bool) (default_size : Z * Z) : result ndarray :=
  if darken then blacken_outside_bounding_box frame frame_dict
  else crop_with_padding_and_center frame frame_dict Float.lit_0_1
         default_size zero_pixel.

(** *** create_face_frame *)

Definition create_face_frame (frame_dict : gmap string Z) (frame : ndarray)
    (default_size : Z * Z) (keep_original_timing darken : bool)
  : result ndarray :=
  if negb (Nat.eqb (base.size (dom frame_dict)) 0) then
    create_cropped_frame frame frame_dict darken default_size
  else if keep_original_timing then
    if darken then Ok (np_zeros_like frame)
    else np_zeros (fst default_size) (snd default_size)
  else Ok np_array_empty.

(** *** create_cropped_video *)

(** The [while True] loop.  Each turn reads one frame; the loop ends when
    the stream is exhausted or the frame index reaches the number of
    detections.  It returns the frames left unread as well. *)
Fixpoint read_loop (detections : list (gmap string Z)) (darken keep : bool)
    (default_size : Z * Z) (stream : list ndarray) (frame_index : nat)
    (out_frames : list ndarray) {struct stream}
  : result (list ndarray) * list ndarray :=
  match stream with
  | [] => (Ok out_frames, [])
  | frame :: rest =>
      if Nat.leb (length detections) frame_index then (Ok out_frames, rest)
      else
        match detections !! frame_index with
        | None => (Raise IndexError, rest)
        | Some frame_dict =>
            match create_face_frame frame_dict frame default_size keep darken with
            | Raise e => (Raise e, rest)
            | Ok face_frame =>
                read_loop detections darken keep default_size rest (S frame_index)
                  (if Nat.eqb (size face_frame) 0 then out_frames
                   else out_frames ++ [face_frame])
            end
        end
  end.

(** The value returned (or the exception raised), and the state in which
    the video source is left. *)
Definition create_cropped_video (video_path : string)
    (detections : list (gmap string Z)) (darken keep_original_timing : bool)
    (default_size_for_cropped : Z * Z)
  : result (list ndarray) * VideoCapture :=
  let cap := cv2_VideoCapture video_path in
  if negb (isOpened cap) then (Raise ValueError, cap)
  else
    match read_loop detections darken keep_original_timing
            default_size_for_cropped (pending cap) 0 [] with
    | (Ok out_frames, rest) => (Ok out_frames, release cap rest)
    | (Raise e, rest) => (Raise e, advance cap rest)
    end.

(** What the loop computes for frame [i]: the face frame built from the
    [i]-th detection and the [i]-th frame of the stream. *)
Definition processed (detections : list (gmap string Z))
    (darken keep : bool) (default_size : Z * Z) (stream : list ndarray)
    (i : nat) (r : result ndarray) : Prop :=
  exists (frame_dict : gmap string Z) (frame : ndarray),
    detections !! i = Some frame_dict /\ stream !! i = Some frame /\
    create_face_frame frame_dict frame default_size keep darken = r.

(** No frame that has a detection makes [create_face_frame] raise. *)
Definition frames_processable (detections : list (gmap string Z))
    (darken keep : bool) (default_size : Z * Z) (stream : list ndarray) : bool :=
  forallb (fun df : gmap string Z * ndarray =>
             is_ok (create_face_frame (fst df) (snd df) default_size keep darken))
          (zip detections stream).

End CropUtils.

(** ** Stand-ins for the external calls, used in the examples *)

(** A nearest-neighbour resize: it has the shape contract of [cv2.resize]
    (an empty source or an empty target size is an error, the result has
    [new_h] rows and [new_w] columns), not its interpolation. *)
Definition nearest_resize (img : ndarray) (new_w new_h : Z) : result ndarray :=
  if (new_w <=? 0) || (new_h <=? 0) || Nat.eqb (size img) 0 then Raise CvError
  else
    Ok {| ncols := Z.to_nat new_w;
          rows :=
            map (fun r =>
                   map (fun c =>
                          default zero_pixel
                            (pixel_at img (r * nrows img / Z.to_nat new_h)
                                          (c * ncols img / Z.to_nat new_w)))
                       (seq 0 (Z.to_nat new_w)))
                (seq 0 (Z.to_nat new_h)) |}.

(** A source that failed to open, and an open one with three frames. *)
Definition closed_source : VideoCapture :=
  {| isOpened := false; pending := []; fps := Float.zero; released := false |}.

Definition fps_30 : float := S754_finite false 8444249301319680 (-48).

Definition three_frames : VideoCapture :=
  {| isOpened := true; pending := [frame_1x2; frame_2x3; frame_1x2];
     fps := fps_30; released := false |}.

Definition with_fps (cap : VideoCapture) (rate : float) : VideoCapture :=
  {| isOpened := isOpened cap; pending := pending cap; fps := rate;
     released := released cap |}.

(** ** whisperx_util: get_transcribe_summary *)

(** A transcription response is a JSON object; the field read here,
    [segments], holds a list of segments, each a JSON object whose field
    [text] is a string.  [TypeError] and [AttributeError] cannot arise on
    values of these types; [KeyError] can, and is modelled. *)
Definition segment : Type := gmap string string.

(** [item['text']]. *)
Definition getitem_str (item : gmap string string) (k : string) : result string :=
  match item !! k with
  | Some v => Ok v
  | None => Raise (KeyError k)
  end.

(** [item.get('text', '')]. *)
Definition get_str (item : gmap string string) (k dflt : string) : string :=
  default dflt (item !! k).

(** The truth value of a string: it is not empty. *)
Definition truthy (s : string) : bool :=
  match s with
  | EmptyString => false
  | String _ _ => true
  end.

(** [[f(item) for item in items if c(item)]], where [f] may raise. *)
Fixpoint comprehension {A B : Type} (f : A -> result B) (c : A -> bool)
    (items : list A) : result (list B) :=
  match items with
  | [] => Ok []
  | item :: rest =>
      if c item then
        v <- f item ;;
        vs <- comprehension f c rest ;;
        Ok (v :: vs)
      else comprehension f c rest
  end.

(** ["".join(parts)]. *)
Definition join_empty (parts : list string) : string :=
  fold_right String.append EmptyString parts.

Definition get_transcribe_summary (json_response : gmap string (list segment))
  : result string :=
  let summary := EmptyString in
  match json_response !! "segments" with
  | Some segments =>
      parts <- comprehension (fun item => getitem_str item "text")
                 (fun item => truthy (get_str item "text" EmptyString)) segments ;;
      Ok (join_empty parts)
  | None => Ok summary
  end.

(** ** geolocation_processing *)

(** [[f(x) for x in xs]], where [f] may raise: the items are evaluated
    from left to right. *)
Fixpoint mapM {A B : Type} (f : A -> result B) (xs : list A) : result (list B) :=
  match xs with
  | [] => Ok []
  | x :: rest =>
      v <- f x ;;
      vs <- mapM f rest ;;
      Ok (v :: vs)
  end.

Module geolocation_processing.

(** The exceptions of this module: the built-in ones of [exn], and
    [NameError], raised by the use of a name that is bound nowhere. *)
Inductive exception : Type :=
  | Builtin (e : exn)
  | NameError (name : string).

Inductive outcome (A : Type) : Type :=
  | Return (a : A)
  | Throw (e : exception).

Arguments Return {A} a.
Arguments Throw {A} e.

Definition obind {A B : Type} (r : outcome A) (k : A -> outcome B) : outcome B :=
  match r with
  | Return a => k a
  | Throw e => Throw e
  end.

Notation "x <~ r ;; k" := (obind r (fun x => k))
  (at level 100, r at next level, right associativity).

Definition lift {A : Type} (r : result A) : outcome A :=
  match r with
  | Ok a => Return a
  | Raise e => Throw (Builtin e)
  end.

(** A name that neither the module nor the builtins bind. *)
Definition unbound_name {A : Type} (name : string) : outcome A :=
  Throw (NameError name).

(** A cell of a data frame: [pd.NA] or a number. *)
Inductive cell : Type :=
  | NA
  | Value (v : float).

(** A data frame: its column labels and its rows, each with its index
    label. *)
Record DataFrame : Type := {
  columns : list string;
  records : list (Z * list cell)
}.

(** [pd.DataFrame(columns=cols)]. *)
Definition pd_DataFrame (cols : list string) : DataFrame :=
  {| columns := cols; records := [] |}.

(** [df.shape[0]]. *)
Definition shape0 (df : DataFrame) : nat := length (records df).

(** [df.loc[label] = pd.NA]: the row of that label is set to [pd.NA] in
    every column; a label that the index lacks is appended. *)
Definition loc_set_NA (df : DataFrame) (label : Z) : DataFrame :=
  let blank := replicate (length (columns df)) NA in
  {| columns := columns df;
     records :=
       if existsb (fun row => Z.eqb (fst row) label) (records df) then
         map (fun row => if Z.eqb (fst row) label then (fst row, blank) else row)
           (records df)
       else records df ++ [(label, blank)] |}.

(** The keys of the configuration that name the columns of the three
    frames, in the order in which they are read. *)
Definition hourly_keys : list string :=
  ["year"; "month"; "day"; "hour"; "observed_time"; "dist_travelled";
   "home_time"; "home_max_dist"; "home_mean_dist"].

Definition daily_keys : list string :=
  ["year"; "month"; "day"; "observed_time"; "observed_time_day";
   "observed_time_night"; "dist_travelled"; "home_time"; "home_max_dist";
   "home_mean_dist"].

Definition summary_keys : list string :=
  ["no_days"; "total_observed_time"; "mean_dist_travelled";
   "sd_dist_travelled"; "mean_home_time"; "sd_home_time";
   "mean_home_max_dist"; "sd_home_max_dist"; "mean_home_mean_dist";
   "sd_home_mean_dist"].

Definition create_empty_dataframes (config : gmap string string)
  : result (list DataFrame) :=
  hourly_columns <- mapM (getitem_str config) hourly_keys ;;
  let hourly := pd_DataFrame hourly_columns in
  daily_columns <- mapM (getitem_str config) daily_keys ;;
  let daily := pd_DataFrame daily_columns in
  summary_columns <- mapM (getitem_str config) summary_keys ;;
  let summary := pd_DataFrame summary_columns in
  Ok [hourly; daily; summary].

(** A number in a list of hyperparameters. *)
Inductive number : Type :=
  | Int (n : Z)
  | Flt (f : float).

(** The float literals of the module. *)
Definition lit_0_01 : float := S754_finite false 5764607523034235 (-59).
Definition lit_0_05 : float := S754_finite false 7205759403792794 (-57).
Definition lit_0_002 : float := S754_finite false 4611686018427388 (-61).
Definition lit_0_3 : float := S754_finite false 5404319552844595 (-54).
Definition lit_0_2 : float := S754_finite false 7205759403792794 (-55).
Definition lit_0_5 : float := S754_finite false 4503599627370496 (-53).
Definition float_90 : float := S754_finite false 6333186975989760 (-46).
Definition float_180 : float := S754_finite false 6333186975989760 (-45).
Definition float_minus_90 : float := S754_finite true 6333186975989760 (-46).
Definition float_minus_180 : float := S754_finite true 6333186975989760 (-45).

Section Analysis.

(** The values that the libraries hand around. *)
Variables file data mobmat bv_dict bv_sets imp_table traj : Type.

(** The path of the module, [__file__], and the calls into [os.path],
    [open] and [json]. *)
Variable module_file : string.
Variable os_path_dirname : string -> string.
Variable os_path_join : string -> string -> string.
Variable os_path_abspath : string -> string.
Variable open_file : string -> outcome file.
Variable json_load : file -> outcome (gmap string string).

(** The calls into pandas, numpy, forest and [util.gps_util]. *)
Variable pd_read_csv : string -> outcome data.
Variable data_shape : data -> Z * Z.
Variable gps_quality : data -> outcome unit.
Variable np_mean_accuracy : data -> outcome float.
Variable gps_to_mobmat : data -> Z -> Z -> Z -> float -> Z -> outcome mobmat.
Variable infer_mobmat : mobmat -> Z -> Z -> outcome mobmat.
Variable bv_select :
  mobmat -> float -> float -> Z -> list number -> option unit -> option unit ->
  outcome bv_dict.
Variable impute_gps :
  mobmat -> bv_sets -> string -> Z -> Z -> Z -> string -> list number ->
  outcome imp_table.
Variable imp_to_traj : imp_table -> mobmat -> float -> outcome traj.
Variable traj_shape0 : traj -> Z.
Variable np_max_column : traj -> Z -> float.
Variable np_min_column : traj -> Z -> float.
Variable trajectory_statistics :
  traj -> list DataFrame -> string -> outcome (list DataFrame).

Definition get_config (filepath json_file : string)
  : outcome (gmap string string) :=
  let dir_name := os_path_dirname filepath in
  let measure_path :=
    os_path_abspath (os_path_join dir_name (String.append "config/" json_file)) in
  file <~ open_file measure_path ;;
  measures <~ json_load file ;;
  Return measures.

(** The body of the [try] statement; it returns the new [df_list]. *)
Definition try_body (filepath timezone : string) (df_list : list DataFrame)
  : outcome (list DataFrame) :=
  data <~ pd_read_csv filepath ;;
  if (fst (data_shape data) =? 0) && (snd (data_shape data) =? 0) then
    Throw (Builtin ValueError)
  else
    _ <~ gps_quality data ;;
    mean_acc <~ np_mean_accuracy data ;;
    mobmat1 <~ gps_to_mobmat data 10 51 51 mean_acc 51 ;;
    mobmat2 <~ infer_mobmat mobmat1 10 51 ;;
    out_dict <~ bv_select mobmat2 lit_0_01 lit_0_05 100
                  [Int (60 * 60 * 24 * 10); Int (60 * 60 * 24 * 30); Flt lit_0_002;
                   Int 5; Int 1; Flt lit_0_3; Flt lit_0_2; Flt lit_0_5]
                  None None ;;
    bv_set <~ unbound_name "bv_set" ;;
    imp_table <~ impute_gps mobmat2 bv_set "GLC" 3 10 2 timezone
                   [Int (60 * 60 * 24 * 10); Int (60 * 60 * 24 * 30); Int 5; Int 1;
                    Flt lit_0_3; Flt lit_0_2; Flt lit_0_5; Int 200] ;;
    traj <~ imp_to_traj imp_table mobmat2 mean_acc ;;
    _ <~ (if 0 <? traj_shape0 traj then
            if Float.ltb float_90 (np_max_column traj 1)
               || Float.ltb (np_min_column traj 1) float_minus_90
               || Float.ltb float_180 (np_max_column traj 2)
               || Float.ltb (np_min_column traj 2) float_minus_180
               || Float.ltb float_90 (np_max_column traj 4)
               || Float.ltb (np_min_column traj 4) float_minus_90
               || Float.ltb float_180 (np_max_column traj 5)
               || Float.ltb (np_min_column traj 5) float_minus_180
            then Throw (Builtin ValueError)
            else Return tt
          else Return tt) ;;
    trajectory_statistics traj df_list timezone.

(** The [finally] clause and the [return]. *)
Definition finally_block (df_list : list DataFrame)
  : outcome (DataFrame * DataFrame * DataFrame) :=
  match df_list with
  | [hourly; daily; summary] =>
      let hourly := if Nat.eqb (shape0 hourly) 0 then loc_set_NA hourly 0 else hourly in
      let daily := if Nat.eqb (shape0 daily) 0 then loc_set_NA daily 0 else daily in
      let summary :=
        if Nat.eqb (shape0 summary) 0 then loc_set_NA summary 0 else summary in
      Return (hourly, daily, summary)
  | _ => Throw (Builtin ValueError)
  end.

(** The value returned (or the exception raised), and the errors logged,
    each with the path of the file. *)
Definition gps_analysis (filepath timezone : string)
  : outcome (DataFrame * DataFrame * DataFrame) * list (string * exception) :=
  match get_config (os_path_abspath module_file) "gps.json" with
  | Throw e => (Throw e, [])
  | Return measures =>
      match lift (create_empty_dataframes measures) with
      | Throw e => (Throw e, [])
      | Return df_list =>
          match try_body filepath timezone df_list with
          | Return df_list => (finally_block df_list, [])
          | Throw e => (finally_block df_list, [(filepath, e)])
          end
      end
  end.

End Analysis.

End geolocation_processing.

(** Stand-ins for the external calls of [gps_analysis], used in the
    examples: a configuration that names each column after its key, and
    libraries that succeed on every input. *)
Definition identity_config : gmap string string :=
  list_to_map
    (map (fun k => (k, k))
       (geolocation_processing.hourly_keys ++ geolocation_processing.daily_keys
        ++ geolocation_processing.summary_keys)).

Definition gps_analysis_stub (filepath timezone : string) :=
  geolocation_processing.gps_analysis
    unit unit unit unit unit unit unit
    "geolocation_processing.py" (fun path => path)
    (fun dir name => String.append dir name) (fun path => path)
    (fun _ => geolocation_processing.Return tt)
    (fun _ => geolocation_processing.Return identity_config)
    (fun _ => geolocation_processing.Return tt) (fun _ => (3, 4))
    (fun _ => geolocation_processing.Return tt)
    (fun _ => geolocation_processing.Return Float.lit_0_1)
    (fun _ _ _ _ _ _ => geolocation_processing.Return tt)
    (fun _ _ _ => geolocation_processing.Return tt)
    (fun _ _ _ _ _ _ _ => geolocation_processing.Return tt)
    (fun _ _ _ _ _ _ _ _ => geolocation_processing.Return tt)
    (fun _ _ _ => geolocation_processing.Return tt)
    (fun _ => 0) (fun _ _ => Float.zero) (fun _ _ => Float.zero)
    (fun _ df_list _ => geolocation_processing.Return df_list)
    filepath timezone.

(** * Properties *)

(** The float literals are valid binary64 values. *)
Example literals_valid :
  valid_binary Float.prec Float.emax Float.lit_0_1 = true
  /\ valid_binary Float.prec Float.emax Float.lit_0_19 = true
  /\ valid_binary Float.prec Float.emax fps_30 = true.
Proof. repeat split; reflexivity. Qed.

(** ** Floats and their exact values *)

Lemma Qtrunc_comp (q q' : Q) : (q == q')%Q -> Qtrunc q = Qtrunc q'.
Proof.
  intros E. unfold Qtrunc.
  rewrite (Qleb_comp 0%Q 0%Q (Qeq_refl 0%Q) q q' E).
  destruct (Qle_bool 0 q'); [apply Qfloor_comp | apply Qceiling_comp]; exact E.
Qed.

Lemma Qtrunc_Z (z : Z) : Qtrunc (inject_Z z) = z.
Proof.
  unfold Qtrunc. destruct (Qle_bool 0 (inject_Z z));
    [apply Qfloor_Z | apply Qceiling_Z].
Qed.

Lemma Qtrunc_nonneg (q : Q) : (0 <= q)%Q -> Qtrunc q = Qfloor q.
Proof.
  intros H. unfold Qtrunc.
  apply Qle_bool_iff in H. rewrite H. reflexivity.
Qed.

Lemma Qtrunc_neg (q : Q) : (q < 0)%Q -> Qtrunc q = Qceiling q.
Proof.
  intros H. unfold Qtrunc.
  destruct (Qle_bool 0 q) eqn:E; [|reflexivity].
  apply Qle_bool_iff in E. exfalso. exact (Qlt_not_le _ _ H E).
Qed.

Lemma Qpower_2_nonneg (e : Z) :
  0 <= e -> (Qpower 2 e == inject_Z (2 ^ e))%Q.
Proof. intros H. rewrite Zpower_Qpower by exact H. reflexivity. Qed.

Lemma Qpower_2_neg (e : Z) :
  e < 0 -> (Qpower 2 e == / inject_Z (2 ^ (- e)))%Q.
Proof.
  intros H. replace e with (- (- e)) at 1 by lia.
  rewrite Qpower_opp. rewrite Zpower_Qpower by lia. reflexivity.
Qed.

Lemma Qpower_2_pos (e : Z) : (0 < Qpower 2 e)%Q.
Proof. apply Qpower_0_lt. reflexivity. Qed.

Lemma to_Q_finite_nonneg_exp (s : bool) (m : positive) (e : Z) :
  0 <= e ->
  (Float.to_Q (S754_finite s m e) == inject_Z (cond_Zopp s (Z.pos m) * 2 ^ e))%Q.
Proof.
  intros H. unfold Float.to_Q.
  rewrite Qpower_2_nonneg by exact H. rewrite inject_Z_mult. reflexivity.
Qed.

Lemma to_Q_finite_neg_exp (s : bool) (m : positive) (e : Z) :
  e < 0 ->
  (Float.to_Q (S754_finite s m e)
   == inject_Z (cond_Zopp s (Z.pos m)) / inject_Z (2 ^ (- e)))%Q.
Proof.
  intros H. unfold Float.to_Q. rewrite Qpower_2_neg by exact H. reflexivity.
Qed.

Lemma to_Q_sign (s : bool) (m : positive) (e : Z) :
  (0 <= Float.to_Q (S754_finite s m e))%Q <-> s = false.
Proof.
  unfold Float.to_Q. pose proof (Qpower_2_pos e) as P. split.
  - intros H. destruct s; [|reflexivity]. exfalso.
    assert (inject_Z (cond_Zopp true (Z.pos m)) * Qpower 2 e < 0)%Q as L.
    { assert (inject_Z (Z.neg m) < 0)%Q as N by reflexivity.
      pose proof (Qmult_lt_compat_r _ _ _ P N) as L.
      rewrite Qmult_0_l in L. exact L. }
    exact (Qlt_not_le _ _ L H).
  - intros ->. apply Qmult_le_0_compat; [discriminate | apply Qlt_le_weak, P].
Qed.

(** [int(f)] is the truncation of the exact value of [f]. *)
Lemma to_int_trunc (f : float) :
  Float.is_finite f = true -> Float.to_int f = Ok (Qtrunc (Float.to_Q f)).
Proof.
  destruct f as [s|s| |s m e]; try discriminate; intros _.
  - reflexivity.
  - simpl Float.to_int. f_equal.
    destruct (Z_lt_le_dec e 0) as [Hneg|Hpos].
    + assert (0 < 2 ^ (- e)) as Hp by (apply Z.pow_pos_nonneg; lia).
      rewrite (Qtrunc_comp _ _ (to_Q_finite_neg_exp s m e Hneg)).
      replace (Z.shiftl (Z.pos m) e) with (Z.pos m / 2 ^ (- e)).
      2:{ rewrite <- Z.shiftr_div_pow2 by lia. rewrite <- Z.shiftl_opp_r.
          f_equal. lia. }
      destruct s; cbn [cond_Zopp].
      * rewrite Qtrunc_neg.
        2:{ apply Qnot_le_lt. intros H.
            rewrite <- (to_Q_finite_neg_exp true m e Hneg) in H.
            apply to_Q_sign in H. discriminate. }
        unfold Qceiling. f_equal.
        rewrite (Zdiv_Qdiv (Z.pos m) (2 ^ (- e))).
        apply Qfloor_comp. change (Z.neg m) with (- Z.pos m).
        rewrite inject_Z_opp. field.
        intros E. assert (2 ^ (- e) = 0) by (apply inject_Z_injective; exact E).
        lia.
      * rewrite Qtrunc_nonneg.
        -- rewrite <- Zdiv_Qdiv. reflexivity.
        -- rewrite <- (to_Q_finite_neg_exp false m e Hneg).
           apply to_Q_sign. reflexivity.
    + rewrite (Qtrunc_comp _ _ (to_Q_finite_nonneg_exp s m e Hpos)).
      rewrite Qtrunc_Z. rewrite Z.shiftl_mul_pow2 by exact Hpos.
      destruct s; simpl; lia.
Qed.

(** ** Signs of float results *)

(** Rounding keeps the sign it is given. *)
Lemma binary_round_aux_sign (s : bool) (m e : Z) (l : location) :
  match binary_round_aux Float.prec Float.emax s m e l with
  | S754_zero s' | S754_infinity s' | S754_finite s' _ _ => s' = s
  | S754_nan => True
  end.
Proof.
  unfold binary_round_aux.
  destruct (shr_fexp _ _ m e l) as [mrs' e'].
  destruct (shr_fexp _ _ _ e' loc_Exact) as [mrs'' e''].
  destruct (shr_m mrs''); [reflexivity| |exact I].
  destruct (e'' <=? _); reflexivity.
Qed.

Lemma leb_zero_cases (f : float) :
  Float.leb Float.zero f = true <->
  match f with
  | S754_zero _ => True
  | S754_infinity s | S754_finite s _ _ => s = false
  | S754_nan => False
  end.
Proof.
  destruct f as [s|s| |s m e]; cbn; try destruct s; cbn; intuition discriminate.
Qed.

Lemma iter_pos_invariant {A : Type} (P : A -> Prop) (f : A -> A) :
  (forall x, P x -> P (f x)) -> forall (n : positive) (x : A), P x -> P (SpecFloat.iter_pos f n x).
Proof.
  intros Hf. induction n as [n IH|n IH|]; intros x Hx; cbn; auto.
Qed.

Lemma shr_1_nonneg (mrs : shr_record) : 0 <= shr_m mrs -> 0 <= shr_m (shr_1 mrs).
Proof.
  destruct mrs as [m r s]. cbn. destruct m as [|[q|q|]|q]; cbn; lia.
Qed.

Lemma shr_fexp_nonneg (m e : Z) (l : location) :
  0 <= m -> 0 <= shr_m (fst (shr_fexp Float.prec Float.emax m e l)).
Proof.
  intros Hm. unfold shr_fexp, shr.
  assert (0 <= shr_m (shr_record_of_loc m l)) as H0
    by (destruct l as [|[]]; exact Hm).
  destruct (_ - e) as [|k|k]; cbn [fst]; try exact H0.
  apply (iter_pos_invariant (fun x => 0 <= shr_m x)); [apply shr_1_nonneg | exact H0].
Qed.

Lemma round_nearest_even_nonneg (m : Z) (l : location) :
  0 <= m -> 0 <= round_nearest_even m l.
Proof.
  intros Hm. destruct l as [|[]]; cbn; try destruct (Z.even m); lia.
Qed.

(** On a non-negative mantissa, rounding yields a zero, a finite float or
    an infinity of the given sign, never NaN. *)
Lemma binary_round_aux_nonneg (s : bool) (m e : Z) (l : location) :
  0 <= m ->
  match binary_round_aux Float.prec Float.emax s m e l with
  | S754_zero s' | S754_infinity s' | S754_finite s' _ _ => s' = s
  | S754_nan => False
  end.
Proof.
  intros Hm. unfold binary_round_aux.
  pose proof (shr_fexp_nonneg m e l Hm) as H1.
  destruct (shr_fexp _ _ m e l) as [mrs' e']. cbn [fst] in H1.
  pose proof (shr_fexp_nonneg _ e' loc_Exact
                (round_nearest_even_nonneg _ (loc_of_shr_record mrs') H1)) as H2.
  destruct (shr_fexp _ _ _ e' loc_Exact) as [mrs'' e'']. cbn [fst] in H2.
  destruct (shr_m mrs''); [reflexivity| |lia].
  destruct (e'' <=? _); reflexivity.
Qed.

Lemma of_int_nonneg (n : Z) (f : float) :
  0 <= n -> Float.of_int n = Ok f -> Float.leb Float.zero f = true.
Proof.
  intros Hn. unfold Float.of_int, binary_normalize.
  destruct n as [|m|m]; [intros [= <-]; reflexivity | | lia].
  unfold binary_round.
  destruct (shl_align m 0 _) as [mz ez].
  pose proof (binary_round_aux_nonneg false (Z.pos mz) ez loc_Exact
                (Pos2Z.is_nonneg mz)) as S.
  destruct (binary_round_aux _ _ false (Z.pos mz) ez loc_Exact) as [s|s| |s k e];
    try discriminate; intros [= <-]; apply leb_zero_cases; cbn;
    first [exact I | exact S].
Qed.

Lemma mul_nonneg (a b : float) :
  Float.leb Float.zero a = true -> Float.leb Float.zero b = true ->
  Float.is_finite (Float.mul a b) = true ->
  Float.leb Float.zero (Float.mul a b) = true.
Proof.
  intros Ha Hb. apply leb_zero_cases in Ha, Hb. rewrite leb_zero_cases.
  destruct a as [sa|sa| |sa ma ea], b as [sb|sb| |sb mb eb];
    try contradiction; subst; cbn; try discriminate; auto.
  unfold Float.mul, SFmul.
  pose proof (binary_round_aux_sign (xorb false false)
                (Z.pos (ma * mb)) (ea + eb) loc_Exact) as S.
  destruct (binary_round_aux _ _ _ _ _ _); cbn; auto; discriminate.
Qed.

Lemma leb_zero_to_Q (f : float) :
  Float.leb Float.zero f = true -> (0 <= Float.to_Q f)%Q.
Proof.
  intros H. apply leb_zero_cases in H.
  destruct f as [s|s| |s m e]; try discriminate.
  apply to_Q_sign. exact H.
Qed.

(** On a non-negative int and a non-negative float, [int(n * x)] is the
    floor of the product. *)
Lemma to_int_int_mul_floor (n : Z) (x p : float) :
  0 <= n -> Float.leb Float.zero x = true ->
  Float.int_mul n x = Ok p -> Float.is_finite p = true ->
  Float.to_int p = Ok (Qfloor (Float.to_Q p)).
Proof.
  intros Hn Hx Hp Hfin. rewrite (to_int_trunc p Hfin). f_equal.
  apply Qtrunc_nonneg, leb_zero_to_Q.
  unfold Float.int_mul in Hp.
  destruct (Float.of_int n) as [nf|] eqn:E; [|discriminate].
  injection Hp as <-.
  apply mul_nonneg; [eapply of_int_nonneg; eassumption | exact Hx | exact Hfin].
Qed.

(** ** The accuracy of float operations *)

(** *** Digits *)

Lemma digits2_pos_size (p : positive) : digits2_pos p = Pos.size p.
Proof. induction p as [p IH|p IH|]; cbn; congruence. Qed.

Lemma Zdigits2_log2 (p : positive) : Zdigits2 (Z.pos p) = Z.log2 (Z.pos p) + 1.
Proof.
  cbn [Zdigits2]. rewrite digits2_pos_size.
  destruct p as [p|p|]; cbn [Pos.size Z.log2]; lia.
Qed.

Lemma Zdigits2_bounds (p : positive) :
  2 ^ (Zdigits2 (Z.pos p) - 1) <= Z.pos p < 2 ^ Zdigits2 (Z.pos p).
Proof.
  rewrite Zdigits2_log2. pose proof (Z.log2_spec (Z.pos p) ltac:(lia)) as H.
  replace (Z.log2 (Z.pos p) + 1 - 1) with (Z.log2 (Z.pos p)) by lia.
  exact H.
Qed.

Lemma Zdigits2_unique (p : positive) (d : Z) :
  2 ^ (d - 1) <= Z.pos p < 2 ^ d -> Zdigits2 (Z.pos p) = d.
Proof.
  intros H. rewrite Zdigits2_log2.
  assert (0 < d).
  { destruct (Z_lt_le_dec 0 d) as [|L]; [assumption|].
    destruct H as [_ H]. destruct d as [|d|d]; [|lia|].
    - rewrite Z.pow_0_r in H. lia.
    - rewrite Z.pow_neg_r in H by lia. lia. }
  rewrite (Z.log2_unique (Z.pos p) (d - 1)); [lia | lia |].
  replace (Z.succ (d - 1)) with d by lia. exact H.
Qed.

Lemma Zdigits2_pos (p : positive) : 0 < Zdigits2 (Z.pos p).
Proof. cbn. lia. Qed.

(** *** Shifting right *)

Lemma shr_1_div2 (mrs : shr_record) :
  0 <= shr_m mrs -> shr_m (shr_1 mrs) = shr_m mrs / 2.
Proof.
  destruct mrs as [m r s]. cbn [shr_m]. intros H.
  rewrite <- Z.div2_div. destruct m as [|[q|q|]|q]; cbn; try reflexivity; lia.
Qed.

Lemma iter_shr_1_div (p : positive) :
  forall mrs : shr_record,
    0 <= shr_m mrs ->
    shr_m (SpecFloat.iter_pos shr_1 p mrs) = shr_m mrs / 2 ^ Z.pos p.
Proof.
  assert (forall q mrs, 0 <= shr_m mrs -> 0 <= shr_m (SpecFloat.iter_pos shr_1 q mrs)) as N.
  { intros q mrs. apply (iter_pos_invariant (fun x => 0 <= shr_m x)), shr_1_nonneg. }
  induction p as [p IH|p IH|]; intros mrs H; cbn [SpecFloat.iter_pos].
  - rewrite IH, IH, shr_1_div2 by auto using shr_1_nonneg.
    rewrite !Z.div_div by lia. f_equal.
    replace (Z.pos p~1) with (Z.pos p + Z.pos p + 1) by lia.
    rewrite !Z.pow_add_r by lia. ring.
  - rewrite IH, IH by auto.
    rewrite !Z.div_div by lia. f_equal.
    replace (Z.pos p~0) with (Z.pos p + Z.pos p) by lia.
    rewrite !Z.pow_add_r by lia. ring.
  - apply shr_1_div2, H.
Qed.

Lemma shr_div (mrs : shr_record) (e n : Z) :
  0 <= shr_m mrs -> 0 <= n ->
  shr_m (fst (shr mrs e n)) = shr_m mrs / 2 ^ n /\ snd (shr mrs e n) = e + n.
Proof.
  intros H Hn. unfold shr. destruct n as [|p|p]; cbn [fst snd]; try lia.
  - rewrite Z.div_1_r. lia.
  - split; [apply iter_shr_1_div, H | reflexivity].
Qed.

Lemma shr_m_of_loc (m : Z) (l : location) : shr_m (shr_record_of_loc m l) = m.
Proof. destruct l as [|[]]; reflexivity. Qed.

Lemma round_nearest_even_range (m : Z) (l : location) :
  m <= round_nearest_even m l <= m + 1.
Proof. destruct l as [|[]]; cbn; try destruct (Z.even m); lia. Qed.

Lemma fexp_normal (x : Z) :
  emin Float.prec Float.emax <= x - Float.prec ->
  fexp Float.prec Float.emax x = x - Float.prec.
Proof. intros H. unfold fexp. lia. Qed.

(** Rounding a mantissa of at least [prec] digits, away from underflow and
    overflow: the result is a normal float whose mantissa is the given one
    cut to [prec] digits, or the next one. *)
Lemma binary_round_aux_normal (s : bool) (m : positive) (e : Z) (l : location) :
  let n := Zdigits2 (Z.pos m) - Float.prec in
  let q := Z.pos m / 2 ^ n in
  0 <= n -> emin Float.prec Float.emax <= e + n -> e + n < Float.emax - Float.prec ->
  exists (m' : positive) (e' k : Z),
    binary_round_aux Float.prec Float.emax s (Z.pos m) e l = S754_finite s m' e'
    /\ 2 ^ (Float.prec - 1) <= Z.pos m' < 2 ^ Float.prec
    /\ q <= k <= q + 1
    /\ (l = loc_Exact -> n = 0 -> k = q)
    /\ ((Z.pos m' = k /\ e' = e + n)
        \/ (k = 2 ^ Float.prec /\ Z.pos m' = 2 ^ (Float.prec - 1) /\ e' = e + n + 1)).
Proof.
  intros n q Hn Hmin Hmax.
  pose proof (Zdigits2_bounds m) as Hd.
  assert (2 ^ (Float.prec - 1) <= q < 2 ^ Float.prec) as Hq.
  { unfold q. replace (Zdigits2 (Z.pos m)) with (n + Float.prec) in Hd by (unfold n; lia).
    replace (n + Float.prec - 1) with (n + (Float.prec - 1)) in Hd by lia.
    rewrite !Z.pow_add_r in Hd by (unfold Float.prec; lia).
    assert (0 < 2 ^ n) by (apply Z.pow_pos_nonneg; lia).
    split.
    - apply Z.div_le_lower_bound; lia.
    - apply Z.div_lt_upper_bound; lia. }
  unfold binary_round_aux, shr_fexp.
  rewrite fexp_normal by (fold n; lia).
  replace (Zdigits2 (Z.pos m) + e - Float.prec - e) with n by (unfold n; lia).
  pose proof (shr_div (shr_record_of_loc (Z.pos m) l) e n) as S1.
  rewrite shr_m_of_loc in S1. fold q in S1.
  specialize (S1 ltac:(lia) Hn).
  assert (l = loc_Exact -> n = 0 ->
          loc_of_shr_record (fst (shr (shr_record_of_loc (Z.pos m) l) e n)) = loc_Exact)
    as Hex by (intros -> ->; reflexivity).
  destruct (shr (shr_record_of_loc (Z.pos m) l) e n) as [mrs1 e1].
  cbn [fst snd] in S1, Hex. destruct S1 as [S1m S1e]. subst e1.
  pose proof (round_nearest_even_range (shr_m mrs1) (loc_of_shr_record mrs1)) as Hr.
  set (k := round_nearest_even (shr_m mrs1) (loc_of_shr_record mrs1)) in *.
  rewrite S1m in Hr.
  assert (l = loc_Exact -> n = 0 -> k = q) as Hkq.
  { intros E1 E2. unfold k. rewrite (Hex E1 E2). cbn. exact S1m. }
  assert (2 ^ Float.prec = 9007199254740992) as P53 by reflexivity.
  assert (2 ^ (Float.prec - 1) = 4503599627370496) as P52 by reflexivity.
  destruct k as [|kp|kp] eqn:Ek; try lia.
  destruct (Z_lt_le_dec (Z.pos kp) (2 ^ Float.prec)) as [Lt|Ge].
  - (* no carry *)
    rewrite (Zdigits2_unique kp Float.prec) by lia.
    rewrite fexp_normal by lia.
    replace (Float.prec + (e + n) - Float.prec - (e + n)) with 0 by lia.
    cbn [shr shr_record_of_loc shr_m].
    destruct (Z.leb_spec (e + n) (Float.emax - Float.prec)) as [_|]; [|lia].
    exists kp, (e + n), (Z.pos kp). repeat split; try lia; auto.
  - (* the mantissa reached 2^prec *)
    assert (Z.pos kp = 2 ^ Float.prec) as Ekp by lia.
    rewrite (Zdigits2_unique kp (Float.prec + 1)).
    2:{ replace (Float.prec + 1 - 1) with Float.prec by lia.
        rewrite Ekp. change (2 ^ (Float.prec + 1)) with 18014398509481984. lia. }
    rewrite fexp_normal by lia.
    replace (Float.prec + 1 + (e + n) - Float.prec - (e + n)) with 1 by lia.
    pose proof (shr_div (shr_record_of_loc (Z.pos kp) loc_Exact) (e + n) 1
                  ltac:(cbn; lia) ltac:(lia)) as [S2m S2e].
    destruct (shr (shr_record_of_loc (Z.pos kp) loc_Exact) (e + n) 1) as [mrs2 e2].
    cbn [fst snd shr_record_of_loc shr_m] in S2m, S2e. subst e2.
    rewrite S2m, Ekp. change (2 ^ Float.prec / 2 ^ 1) with 4503599627370496.
    destruct (Z.leb_spec (e + n + 1) (Float.emax - Float.prec)) as [_|]; [|lia].
    exists 4503599627370496%positive, (e + n + 1), (Z.pos kp).
    repeat split; try lia; auto.
Qed.

(** *** The value of a rounded mantissa *)

Lemma Qpower_2_add (a b : Z) : (Qpower 2 (a + b) == Qpower 2 a * Qpower 2 b)%Q.
Proof. apply Qpower_plus. discriminate. Qed.

Lemma scale_le (x y b : Q) : (0 < b)%Q -> (x <= y)%Q -> (x * b <= y * b)%Q.
Proof. intros Hb H. apply Qmult_le_compat_r; [exact H | apply Qlt_le_weak, Hb]. Qed.

Lemma inject_Z_pow2 (n : Z) : 0 <= n -> (inject_Z (2 ^ n) == Qpower 2 n)%Q.
Proof. intros H. rewrite Zpower_Qpower by exact H. reflexivity. Qed.

(** The float obtained from a mantissa [m] of at least [prec] digits and an
    exponent [e] is normal and within relative distance [u] of any value
    between [m * 2^e] and [(m + 1) * 2^e]. *)
Lemma binary_round_aux_value (m : positive) (e : Z) (l : location) (y : Q) :
  let n := Zdigits2 (Z.pos m) - Float.prec in
  0 <= n -> emin Float.prec Float.emax <= e + n -> e + n < Float.emax - Float.prec ->
  (inject_Z (Z.pos m) * Qpower 2 e <= y)%Q ->
  (y <= inject_Z (Z.pos m + 1) * Qpower 2 e)%Q ->
  let f := binary_round_aux Float.prec Float.emax false (Z.pos m) e l in
  Float.normal_pos (e + n) (e + n + 1) f
  /\ (y * (1 - Float.u) <= Float.to_Q f)%Q
  /\ (Float.to_Q f <= y * (1 + Float.u))%Q
  /\ (l = loc_Exact -> n = 0 -> (Float.to_Q f == inject_Z (Z.pos m) * Qpower 2 e)%Q).
Proof.
  intros n Hn Hmin Hmax Hlo Hhi f.
  destruct (binary_round_aux_normal false m e l Hn Hmin Hmax)
    as (m' & e' & k & Hf & Hm' & Hk & Hexact & Hcase).
  fold n in Hk, Hexact, Hcase. unfold f. rewrite Hf. clear f Hf.
  set (q := Z.pos m / 2 ^ n) in *.
  pose proof (Zdigits2_bounds m) as Hd.
  replace (Zdigits2 (Z.pos m) - 1) with (n + 52) in Hd by (unfold n, Float.prec; lia).
  rewrite Z.pow_add_r in Hd by lia.
  assert (0 < 2 ^ n) as HN by (apply Z.pow_pos_nonneg; lia).
  assert (q * 2 ^ n <= Z.pos m < (q + 1) * 2 ^ n) as Hdiv.
  { unfold q. pose proof (Z.div_mod (Z.pos m) (2 ^ n) ltac:(lia)).
    pose proof (Z.mod_pos_bound (Z.pos m) (2 ^ n) HN). lia. }
  assert (Z.pos m + 1 - 2 ^ n <= k * 2 ^ n <= Z.pos m + 2 ^ n) as HK by nia.
  (* the value of the result is k * 2^n * 2^e *)
  assert (Float.to_Q (S754_finite false m' e')
          == inject_Z (k * 2 ^ n) * Qpower 2 e)%Q as Hval.
  { unfold Float.to_Q. cbn [cond_Zopp].
    rewrite inject_Z_mult, inject_Z_pow2 by lia.
    destruct Hcase as [[-> ->]|(Ek & Em & ->)].
    - rewrite Qpower_2_add. ring.
    - rewrite Em, Ek. replace (e + n + 1) with (e + (n + 1)) by lia.
      rewrite !Qpower_2_add.
      change (inject_Z (2 ^ (Float.prec - 1))) with (4503599627370496 # 1)%Q.
      change (inject_Z (2 ^ Float.prec)) with (9007199254740992 # 1)%Q.
      change (Qpower 2 1) with 2%Q.
      ring. }
  split.
  { unfold Float.normal_pos. split; [exact Hm'|].
    destruct Hcase as [[_ ->]|(_ & _ & ->)]; lia. }
  set (B := Qpower 2 e) in *.
  pose proof (Qpower_2_pos e) as HB. fold B in HB.
  assert (inject_Z (k * 2 ^ n) * B <= (inject_Z (Z.pos m) + inject_Z (2 ^ n)) * B)%Q as U1.
  { apply scale_le; [exact HB|]. rewrite <- inject_Z_plus. rewrite <- Zle_Qle. lia. }
  assert ((inject_Z (Z.pos m + 1) - inject_Z (2 ^ n)) * B <= inject_Z (k * 2 ^ n) * B)%Q as L1.
  { apply scale_le; [exact HB|]. unfold Qminus. rewrite <- inject_Z_opp, <- inject_Z_plus.
    rewrite <- Zle_Qle. lia. }
  assert (inject_Z (2 ^ n) * 4503599627370496 * B <= inject_Z (Z.pos m) * B)%Q as N1.
  { apply scale_le; [exact HB|].
    change 4503599627370496%Q with (inject_Z 4503599627370496).
    rewrite <- inject_Z_mult. rewrite <- Zle_Qle. lia. }
  rewrite inject_Z_plus in Hhi, L1.
  rewrite Hval. unfold Float.u.
  set (KB := (inject_Z (k * 2 ^ n) * B)%Q) in *.
  split; [|split].
  - lra.
  - lra.
  - intros E1 E2. specialize (Hexact E1 E2). unfold KB. rewrite Hexact, E2.
    unfold q. rewrite E2. rewrite Z.pow_0_r, Z.div_1_r, Z.mul_1_r. reflexivity.
Qed.

(** *** Conversion of an int *)

Lemma Zpos_iter_xO (m k : positive) :
  Z.pos (Pos.iter xO m k) = Z.pos m * 2 ^ Z.pos k.
Proof.
  rewrite <- Z.shiftl_mul_pow2 by lia. cbn [Z.shiftl].
  apply (Pos.iter_swap_gen _ _ Z.pos xO (Z.mul 2)). reflexivity.
Qed.

(** [float(n)] is exact for [0 < n < 2^53]. *)
Lemma of_int_exact (n : Z) :
  0 < n < 2 ^ Float.prec ->
  exists f : Float.float,
    Float.of_int n = Ok f /\ Float.normal_pos (- 52) 1 f
    /\ (Float.to_Q f == inject_Z n)%Q.
Proof.
  intros Hn. destruct n as [|m|m]; try lia.
  unfold Float.of_int, binary_normalize, binary_round.
  pose proof (Zdigits2_bounds m) as Hd. pose proof (Zdigits2_pos m) as Hd0.
  assert (Zdigits2 (Z.pos m) <= Float.prec) as Hd1.
  { destruct (Z_le_gt_dec (Zdigits2 (Z.pos m)) Float.prec) as [|G]; [assumption|].
    assert (2 ^ Float.prec <= 2 ^ (Zdigits2 (Z.pos m) - 1))
      by (apply Z.pow_le_mono_r; lia).
    exfalso. apply (Z.lt_irrefl (Z.pos m)).
    eapply Z.lt_le_trans; [apply Hn|]. etransitivity; [eassumption | apply Hd]. }
  change (Z.pos (digits2_pos m)) with (Zdigits2 (Z.pos m)).
  rewrite Z.add_0_r. rewrite fexp_normal by (unfold emin, Float.prec, Float.emax; lia).
  set (d := Zdigits2 (Z.pos m)) in *. clearbody d.
  assert (exists mz : positive,
            shl_align m 0 (d - Float.prec) = (mz, d - Float.prec)
            /\ Z.pos mz = Z.pos m * 2 ^ (Float.prec - d)) as (mz & -> & Hmz).
  { unfold shl_align. rewrite Z.sub_0_r.
    destruct (d - Float.prec) as [|k|k] eqn:Ek; try lia.
    - exists m. split; [reflexivity|].
      replace (Float.prec - d) with 0 by lia. lia.
    - exists (Pos.iter xO m k). split; [reflexivity|].
      rewrite Zpos_iter_xO. f_equal. f_equal. lia. }
  assert (Zdigits2 (Z.pos mz) = Float.prec) as Dz.
  { apply Zdigits2_unique. rewrite Hmz.
    assert (2 ^ (Float.prec - 1) = 2 ^ (d - 1) * 2 ^ (Float.prec - d)) as ->
      by (rewrite <- Z.pow_add_r by lia; f_equal; lia).
    assert (2 ^ Float.prec = 2 ^ d * 2 ^ (Float.prec - d)) as ->
      by (rewrite <- Z.pow_add_r by lia; f_equal; lia).
    assert (0 < 2 ^ (Float.prec - d)) by (apply Z.pow_pos_nonneg; lia).
    split; [apply Z.mul_le_mono_nonneg_r | apply Z.mul_lt_mono_pos_r]; lia. }
  pose proof (binary_round_aux_value mz (d - Float.prec) loc_Exact
                (inject_Z (Z.pos mz) * Qpower 2 (d - Float.prec))) as V.
  rewrite Dz in V. cbn zeta in V.
  replace (Float.prec - Float.prec) with 0 in V by lia.
  specialize (V ltac:(lia) ltac:(unfold emin, Float.prec, Float.emax in *; lia)
                ltac:(unfold Float.prec, Float.emax in *; lia)
                ltac:(apply Qle_refl)).
  assert (inject_Z (Z.pos mz) * Qpower 2 (d - Float.prec)
          <= inject_Z (Z.pos mz + 1) * Qpower 2 (d - Float.prec))%Q as Hup.
  { apply scale_le; [apply Qpower_2_pos|]. rewrite <- Zle_Qle. lia. }
  destruct (V Hup) as (Hnorm & _ & _ & Hex). clear V Hup.
  specialize (Hex eq_refl eq_refl).
  destruct (binary_round_aux _ _ false (Z.pos mz) (d - Float.prec) loc_Exact)
    as [s|s| |s mf ef] eqn:E; try contradiction.
  exists (S754_finite s mf ef). split; [reflexivity|].
  split.
  - destruct s; [contradiction|]. unfold Float.normal_pos in *.
    unfold Float.prec in *. lia.
  - rewrite Hex, Hmz, inject_Z_mult, inject_Z_pow2 by lia.
    rewrite <- Qmult_assoc, <- Qpower_2_add.
    replace (Float.prec - d + (d - Float.prec)) with 0 by lia.
    change (Qpower 2 0) with 1%Q. ring.
Qed.

(** *** Division *)

Lemma to_Q_pos (m : positive) (e : Z) : (0 < Float.to_Q (S754_finite false m e))%Q.
Proof.
  unfold Float.to_Q. cbn [cond_Zopp].
  apply Qmult_lt_0_compat; [reflexivity | apply Qpower_2_pos].
Qed.

Lemma Qle_scale_inv (x y c : Q) : (0 < c)%Q -> (x * c <= y * c)%Q -> (x <= y)%Q.
Proof. intros Hc H. exact (proj1 (Qmult_le_r x y c Hc) H). Qed.

(** The quotient of two positive floats whose mantissas have at most
    [prec] digits is a normal float within relative distance [u] of the
    exact quotient. *)
Lemma div_value (m1 m2 : positive) (e1 e2 : Z) :
  let d1 := Zdigits2 (Z.pos m1) in
  let d2 := Zdigits2 (Z.pos m2) in
  let e := d1 + e1 - d2 - e2 - Float.prec in
  let f := Float.div (S754_finite false m1 e1) (S754_finite false m2 e2) in
  let y := (Float.to_Q (S754_finite false m1 e1)
            / Float.to_Q (S754_finite false m2 e2))%Q in
  d1 <= Float.prec -> d2 <= Float.prec ->
  - 400 <= e1 <= 400 -> - 400 <= e2 <= 400 ->
  Float.normal_pos e (e + 2) f
  /\ (y * (1 - Float.u) <= Float.to_Q f)%Q
  /\ (Float.to_Q f <= y * (1 + Float.u))%Q.
Proof.
  intros d1 d2 e f y Hd1 Hd2 He1 He2.
  pose proof (Zdigits2_bounds m1) as B1. pose proof (Zdigits2_bounds m2) as B2.
  pose proof (Zdigits2_pos m1) as P1. pose proof (Zdigits2_pos m2) as P2.
  fold d1 in B1, P1. fold d2 in B2, P2. clearbody d1 d2.
  assert (Float.prec = 53) as Eprec by reflexivity.
  assert (emin Float.prec Float.emax = - 1074) as Eemin by reflexivity.
  assert (Float.emax = 1024) as Eemax by reflexivity.
  set (s := Float.prec + d2 - d1).
  assert (0 < s) as Hs by (unfold s; lia).
  assert (0 < 2 ^ s) as Hs2 by (apply Z.pow_pos_nonneg; lia).
  (* the integer quotient and its size *)
  pose proof (Z_div_mod (Z.pos m1 * 2 ^ s) (Z.pos m2) ltac:(lia)) as DM.
  destruct (Z.div_eucl (Z.pos m1 * 2 ^ s) (Z.pos m2)) as [q r] eqn:Ediv.
  destruct DM as [DM Hr].
  assert (2 ^ (d1 - 1) * 2 ^ s = 2 ^ (Float.prec - 1) * 2 ^ d2) as X1
    by (rewrite <- !Z.pow_add_r by lia; f_equal; unfold s; lia).
  assert (2 ^ d1 * 2 ^ s = 2 ^ (Float.prec + 1) * 2 ^ (d2 - 1)) as X2
    by (rewrite <- !Z.pow_add_r by lia; f_equal; unfold s; lia).
  assert (2 ^ (Float.prec - 1) = 4503599627370496) as P52 by reflexivity.
  assert (2 ^ (Float.prec + 1) = 18014398509481984) as P54 by reflexivity.
  assert (2 ^ Float.prec = 9007199254740992) as P53 by reflexivity.
  assert (2 ^ (Float.prec - 1) <= q < 2 ^ (Float.prec + 1)) as Hq.
  { assert (2 ^ (Float.prec - 1) * 2 ^ d2 <= Z.pos m1 * 2 ^ s)
      by (rewrite <- X1; apply Z.mul_le_mono_nonneg_r; lia).
    assert (Z.pos m1 * 2 ^ s < 2 ^ (Float.prec + 1) * 2 ^ (d2 - 1))
      by (rewrite <- X2; apply Z.mul_lt_mono_pos_r; lia).
    rewrite P52, P54 in *. split; nia. }
  destruct q as [|qp|qp]; try lia.
  set (n := Zdigits2 (Z.pos qp) - Float.prec).
  assert (0 <= n <= 1) as Hn.
  { unfold n. destruct (Z_lt_le_dec (Z.pos qp) (2 ^ Float.prec)).
    - rewrite (Zdigits2_unique qp Float.prec); lia.
    - rewrite (Zdigits2_unique qp (Float.prec + 1)); [lia|].
      replace (Float.prec + 1 - 1) with Float.prec by lia. lia. }
  (* the result is the rounding of q * 2^e *)
  assert (f = binary_round_aux Float.prec Float.emax false (Z.pos qp) e
                (new_location (Z.pos m2) r)) as Ef.
  { unfold f, Float.div, SFdiv, SFdiv_core_binary. cbn [xorb].
    assert (Zdigits2 (Z.pos m1) = d1 /\ Zdigits2 (Z.pos m2) = d2) as [-> ->].
    { split; apply Zdigits2_unique; assumption. }
    rewrite fexp_normal by lia.
    replace (Z.min (d1 + e1 - (d2 + e2) - Float.prec) (e1 - e2)) with e
      by (unfold e; lia).
    replace (e1 - e2 - e) with s by (unfold e, s; lia).
    destruct s as [|sp|sp] eqn:Es; try lia.
    rewrite Z.shiftl_mul_pow2 by lia. rewrite Ediv. reflexivity. }
  pose proof (binary_round_aux_value qp e (new_location (Z.pos m2) r) y) as V.
  fold n in V. cbn zeta in V. rewrite <- Ef in V.
  (* the exact quotient lies between q * 2^e and (q + 1) * 2^e *)
  assert (y * inject_Z (Z.pos m2)
          == inject_Z (Z.pos m1 * 2 ^ s) * Qpower 2 e)%Q as Hy.
  { unfold y, Float.to_Q. cbn [cond_Zopp].
    replace e1 with (s + e + e2) by (unfold s, e; lia).
    rewrite !Qpower_2_add, inject_Z_mult, inject_Z_pow2 by lia.
    pose proof (Qpower_2_pos e2). field. split.
    - intros E. rewrite E in H. apply (Qlt_irrefl 0), H.
    - discriminate. }
  assert (0 < inject_Z (Z.pos m2))%Q as Hm2 by reflexivity.
  pose proof (Qpower_2_pos e) as He.
  assert (inject_Z (Z.pos qp) * Qpower 2 e <= y)%Q as Hlo.
  { apply (Qle_scale_inv _ _ _ Hm2). rewrite Hy.
    setoid_replace (inject_Z (Z.pos qp) * Qpower 2 e * inject_Z (Z.pos m2))%Q
      with (inject_Z (Z.pos qp * Z.pos m2) * Qpower 2 e)%Q using relation Qeq
      by (rewrite inject_Z_mult; ring).
    apply scale_le; [exact He|]. rewrite <- Zle_Qle. lia. }
  assert (y <= inject_Z (Z.pos qp + 1) * Qpower 2 e)%Q as Hhi.
  { apply (Qle_scale_inv _ _ _ Hm2). rewrite Hy.
    setoid_replace (inject_Z (Z.pos qp + 1) * Qpower 2 e * inject_Z (Z.pos m2))%Q
      with (inject_Z ((Z.pos qp + 1) * Z.pos m2) * Qpower 2 e)%Q using relation Qeq
      by (rewrite inject_Z_mult; ring).
    apply scale_le; [exact He|]. rewrite <- Zle_Qle. lia. }
  destruct (V ltac:(lia) ltac:(unfold e; lia) ltac:(unfold e; lia) Hlo Hhi)
    as (Hnorm & Hl & Hu & _).
  split; [|split; assumption].
  destruct f as [| | |[] mf ef]; try contradiction.
  unfold Float.normal_pos in *. lia.
Qed.

(** *** Multiplication *)

Lemma mul_value (m1 m2 : positive) (e1 e2 : Z) :
  let f := Float.mul (S754_finite false m1 e1) (S754_finite false m2 e2) in
  let y := (Float.to_Q (S754_finite false m1 e1)
            * Float.to_Q (S754_finite false m2 e2))%Q in
  2 ^ (Float.prec - 1) <= Z.pos m1 < 2 ^ Float.prec ->
  2 ^ (Float.prec - 1) <= Z.pos m2 < 2 ^ Float.prec ->
  - 400 <= e1 <= 400 -> - 400 <= e2 <= 400 ->
  Float.normal_pos (e1 + e2 + 52) (e1 + e2 + 54) f
  /\ (y * (1 - Float.u) <= Float.to_Q f)%Q
  /\ (Float.to_Q f <= y * (1 + Float.u))%Q.
Proof.
  intros f y H1 H2 He1 He2.
  assert (Float.prec = 53) as Eprec by reflexivity.
  assert (emin Float.prec Float.emax = - 1074) as Eemin by reflexivity.
  assert (Float.emax = 1024) as Eemax by reflexivity.
  change (2 ^ (Float.prec - 1)) with 4503599627370496 in *.
  change (2 ^ Float.prec) with 9007199254740992 in *.
  set (n := Zdigits2 (Z.pos (m1 * m2)) - Float.prec).
  assert (52 <= n <= 53) as Hn.
  { unfold n. rewrite Pos2Z.inj_mul.
    destruct (Z_lt_le_dec (Z.pos m1 * Z.pos m2) (2 ^ 105)) as [L|G].
    - rewrite <- Pos2Z.inj_mul. rewrite (Zdigits2_unique (m1 * m2) 105); [lia|].
      rewrite Pos2Z.inj_mul. change (2 ^ (105 - 1)) with (4503599627370496 * 4503599627370496).
      split; [nia | exact L].
    - rewrite <- Pos2Z.inj_mul. rewrite (Zdigits2_unique (m1 * m2) 106); [lia|].
      rewrite Pos2Z.inj_mul. change (2 ^ (106 - 1)) with (2 ^ 105).
      change (2 ^ 106) with (9007199254740992 * 9007199254740992).
      split; [exact G | nia]. }
  pose proof (binary_round_aux_value (m1 * m2) (e1 + e2) loc_Exact y) as V.
  fold n in V. cbn zeta in V.
  assert (y == inject_Z (Z.pos (m1 * m2)) * Qpower 2 (e1 + e2))%Q as Hy.
  { unfold y, Float.to_Q. cbn [cond_Zopp].
    rewrite Pos2Z.inj_mul, inject_Z_mult, Qpower_2_add. ring. }
  assert (inject_Z (Z.pos (m1 * m2)) * Qpower 2 (e1 + e2) <= y)%Q as Hlo
    by (rewrite Hy; apply Qle_refl).
  assert (y <= inject_Z (Z.pos (m1 * m2) + 1) * Qpower 2 (e1 + e2))%Q as Hhi.
  { rewrite Hy. apply scale_le; [apply Qpower_2_pos|]. rewrite <- Zle_Qle. lia. }
  destruct (V ltac:(lia) ltac:(lia) ltac:(lia) Hlo Hhi) as (Hnorm & Hl & Hu & _).
  change (binary_round_aux Float.prec Float.emax false (Z.pos (m1 * m2))
            (e1 + e2) loc_Exact) with f in *.
  split; [|split; assumption].
  destruct f as [| | |[] mf ef]; try contradiction.
  unfold Float.normal_pos in *. lia.
Qed.

(** *** Comparison *)

Lemma to_Q_lt_exp (m1 m2 : positive) (e1 e2 : Z) :
  Z.pos m1 < 2 ^ Float.prec -> 2 ^ (Float.prec - 1) <= Z.pos m2 -> e1 < e2 ->
  (Float.to_Q (S754_finite false m1 e1) < Float.to_Q (S754_finite false m2 e2))%Q.
Proof.
  intros H1 H2 He. unfold Float.to_Q. cbn [cond_Zopp].
  replace e2 with ((e2 - e1) + e1) by lia. rewrite Qpower_2_add.
  rewrite <- (inject_Z_pow2 (e2 - e1)) by lia.
  rewrite Qmult_assoc, <- inject_Z_mult.
  apply Qmult_lt_compat_r; [apply Qpower_2_pos|]. rewrite <- Zlt_Qlt.
  change (2 ^ (Float.prec - 1)) with 4503599627370496 in *.
  change (2 ^ Float.prec) with 9007199254740992 in *.
  assert (2 ^ 1 <= 2 ^ (e2 - e1)) by (apply Z.pow_le_mono_r; lia).
  change (2 ^ 1) with 2 in *. nia.
Qed.

Lemma ltb_normal (lo1 hi1 lo2 hi2 : Z) (f1 f2 : Float.float) :
  Float.normal_pos lo1 hi1 f1 -> Float.normal_pos lo2 hi2 f2 ->
  if Float.ltb f1 f2 then (Float.to_Q f1 < Float.to_Q f2)%Q
  else (Float.to_Q f2 <= Float.to_Q f1)%Q.
Proof.
  destruct f1 as [| | |[] m1 e1]; try contradiction.
  destruct f2 as [| | |[] m2 e2]; try contradiction.
  intros [C1 _] [C2 _]. unfold Float.ltb, SFltb, SFcompare.
  destruct (Z.compare_spec e1 e2) as [->|L|G].
  - change (Pos.compare_cont Eq m1 m2) with (Pos.compare m1 m2).
    destruct (Pos.compare_spec m1 m2) as [->|L|G].
    + apply Qle_refl.
    + unfold Float.to_Q. cbn [cond_Zopp].
      apply Qmult_lt_compat_r; [apply Qpower_2_pos|]. rewrite <- Zlt_Qlt. lia.
    + unfold Float.to_Q. cbn [cond_Zopp]. apply Qlt_le_weak.
      apply Qmult_lt_compat_r; [apply Qpower_2_pos|]. rewrite <- Zlt_Qlt. lia.
  - apply to_Q_lt_exp; lia.
  - apply Qlt_le_weak, to_Q_lt_exp; lia.
Qed.

(** ** The operations of fit_size on image dimensions *)

Lemma Zdigits2_le_prec (p : positive) :
  Z.pos p < 2 ^ Float.prec -> Zdigits2 (Z.pos p) <= Float.prec.
Proof.
  intros H. pose proof (Zdigits2_bounds p) as B.
  destruct (Z_le_gt_dec (Zdigits2 (Z.pos p)) Float.prec) as [|G]; [assumption|].
  assert (2 ^ Float.prec <= 2 ^ (Zdigits2 (Z.pos p) - 1))
    by (apply Z.pow_le_mono_r; lia).
  exfalso. apply (Z.lt_irrefl (Z.pos p)).
  eapply Z.lt_le_trans; [apply H|]. etransitivity; [eassumption | apply B].
Qed.

Lemma normal_pos_weaken (lo hi lo' hi' : Z) (f : float) :
  lo' <= lo -> hi <= hi' -> Float.normal_pos lo hi f -> Float.normal_pos lo' hi' f.
Proof.
  intros Hlo Hhi. destruct f as [| | |[] m e]; try contradiction.
  unfold Float.normal_pos. lia.
Qed.

Lemma normal_pos_to_Q (lo hi : Z) (f : float) :
  Float.normal_pos lo hi f -> (0 < Float.to_Q f)%Q.
Proof.
  destruct f as [| | |[] m e]; try contradiction. intros _. apply to_Q_pos.
Qed.

(** [a / b] on two positive ints below [2^53] is a normal float within
    relative distance [u] of the exact quotient. *)
Lemma int_truediv_value (a b : Z) :
  0 < a < 2 ^ Float.prec -> 0 < b < 2 ^ Float.prec ->
  exists f : float,
    Float.int_truediv a b = Ok f /\ Float.normal_pos (- 200) 200 f
    /\ (inject_Z a / inject_Z b * (1 - Float.u) <= Float.to_Q f)%Q
    /\ (Float.to_Q f <= inject_Z a / inject_Z b * (1 + Float.u))%Q.
Proof.
  intros Ha Hb. destruct a as [|pa|pa]; try lia. destruct b as [|pb|pb]; try lia.
  pose proof (Zdigits2_le_prec pa ltac:(lia)) as Da.
  pose proof (Zdigits2_le_prec pb ltac:(lia)) as Db.
  pose proof (Zdigits2_pos pa) as Pa. pose proof (Zdigits2_pos pb) as Pb.
  destruct (div_value pa pb 0 0 Da Db ltac:(lia) ltac:(lia)) as (Hn & Hl & Hu).
  unfold Float.int_truediv.
  change (Z.pos pa <? 0) with false. change (Z.pos pb <? 0) with false.
  change (Z.to_pos (Z.abs (Z.pos pa))) with pa.
  change (Z.to_pos (Z.abs (Z.pos pb))) with pb.
  assert (Float.to_Q (S754_finite false pa 0) / Float.to_Q (S754_finite false pb 0)
          == inject_Z (Z.pos pa) / inject_Z (Z.pos pb))%Q as E.
  { unfold Float.to_Q. cbn [cond_Zopp]. change (Qpower 2 0) with 1%Q.
    rewrite !Qmult_1_r. reflexivity. }
  rewrite E in Hl, Hu.
  destruct (Float.div (S754_finite false pa 0) (S754_finite false pb 0))
    as [| | |[] m e] eqn:Ed; try contradiction.
  exists (S754_finite false m e). split; [reflexivity|]. split; [|split; assumption].
  eapply normal_pos_weaken; [| |exact Hn]; unfold Float.prec in *; lia.
Qed.

(** [int(f)] on a positive float is the floor of its value. *)
Lemma to_int_floor (lo hi : Z) (f : float) :
  Float.normal_pos lo hi f -> Float.to_int f = Ok (Qfloor (Float.to_Q f)).
Proof.
  intros H. pose proof (normal_pos_to_Q _ _ _ H) as P.
  destruct f as [| | |[] m e]; try contradiction.
  rewrite to_int_trunc by reflexivity. f_equal.
  apply Qtrunc_nonneg, Qlt_le_weak, P.
Qed.

Lemma Qfloor_bounds (q : Q) (n : Z) :
  (0 <= q)%Q -> (q < inject_Z n + 1)%Q -> 0 <= Qfloor q <= n.
Proof.
  intros H0 H1. split.
  - change 0 with (Qfloor 0). apply Qfloor_resp_le, H0.
  - pose proof (Qfloor_le q) as L.
    assert (inject_Z (Qfloor q) < inject_Z (n + 1))%Q as L'
      by (rewrite inject_Z_plus; eapply Qle_lt_trans; eassumption).
    rewrite <- Zlt_Qlt in L'. lia.
Qed.

(** ** Bounds on rationals used for fit_size *)

Lemma ratio_bounds_mul (n d c x : Q) :
  (0 < d)%Q ->
  ((n / d * c <= x)%Q -> (n * c <= x * d)%Q)
  /\ ((x <= n / d * c)%Q -> (x * d <= n * c)%Q).
Proof.
  intros Hd.
  assert (n / d * c * d == n * c)%Q as E
    by (field; intros E; rewrite E in Hd; apply (Qlt_irrefl 0), Hd).
  split; intros H; rewrite <- E; apply Qmult_le_r; assumption.
Qed.

Lemma ratio_bounds_div (n d c x : Q) :
  (0 < d)%Q ->
  ((n * c <= x * d)%Q -> (n / d * c <= x)%Q)
  /\ ((x * d <= n * c)%Q -> (x <= n / d * c)%Q).
Proof.
  intros Hd.
  assert (n / d * c * d == n * c)%Q as E
    by (field; intros E; rewrite E in Hd; apply (Qlt_irrefl 0), Hd).
  split; intros H; rewrite <- E in H; apply (Qmult_le_r _ _ d Hd); assumption.
Qed.

Lemma width_limited_bounds (Y A G F W H Fh : Q) :
  (0 < Y -> 0 < A -> 0 < G -> 0 < F -> 0 < W -> 0 < H -> 0 < Fh ->
   Fh <= 2147483648 ->
   F * (1 - Float.u) <= Y * A -> Y * A <= F * (1 + Float.u) ->
   W * (1 - Float.u) <= A * H -> A * H <= W * (1 + Float.u) ->
   F * (1 - Float.u) <= G * Fh -> G * Fh <= F * (1 + Float.u) ->
   G < A ->
   F * H * (1 - Float.tol) <= Y * W /\ Y * W <= F * H * (1 + Float.tol)
   /\ Y < Fh + 1)%Q.
Proof.
  intros. unfold Float.u, Float.tol in *.
  split; [nra|]. split; [nra|].
  assert (Y * G <= Y * A)%Q
    by (apply Qmult_le_l; [assumption | apply Qlt_le_weak; assumption]).
  assert (Y * (1 - (1 # 4503599627370496)) * G
          <= Fh * (1 + (1 # 4503599627370496)) * G)%Q by nra.
  assert (Y * (1 - (1 # 4503599627370496))
          <= Fh * (1 + (1 # 4503599627370496)))%Q
    by (apply (proj1 (Qmult_le_r _ _ G ltac:(assumption))); assumption).
  lra.
Qed.

Lemma height_limited_bounds (Y A G F W H Fh : Q) :
  (0 < Y -> 0 < A -> 0 < G -> 0 < F -> 0 < W -> 0 < H -> 0 < Fh ->
   F <= 2147483648 ->
   Fh * A * (1 - Float.u) <= Y -> Y <= Fh * A * (1 + Float.u) ->
   W * (1 - Float.u) <= A * H -> A * H <= W * (1 + Float.u) ->
   F * (1 - Float.u) <= G * Fh -> G * Fh <= F * (1 + Float.u) ->
   A <= G ->
   Fh * W * (1 - Float.tol) <= Y * H /\ Y * H <= Fh * W * (1 + Float.tol)
   /\ Y < F + 1)%Q.
Proof.
  intros. unfold Float.u, Float.tol in *.
  assert (Fh * (W * (1 - (1 # 4503599627370496))) <= Fh * (A * H))%Q
    by (apply Qmult_le_l; assumption).
  assert (Fh * (A * H) <= Fh * (W * (1 + (1 # 4503599627370496))))%Q
    by (apply Qmult_le_l; assumption).
  assert (Fh * A * (1 - (1 # 4503599627370496)) * H <= Y * H)%Q
    by (apply Qmult_le_r; assumption).
  assert (Y * H <= Fh * A * (1 + (1 # 4503599627370496)) * H)%Q
    by (apply Qmult_le_r; assumption).
  assert (0 <= Fh * W)%Q
    by (apply Qmult_le_0_compat; apply Qlt_le_weak; assumption).
  assert (0 <= Fh * (A * H))%Q
    by (repeat apply Qmult_le_0_compat; apply Qlt_le_weak; assumption).
  split; [nra|]. split; [nra|].
  assert (Fh * A <= Fh * G)%Q by (apply Qmult_le_l; assumption).
  nra.
Qed.

Lemma inject_Z_pos (n : Z) : 0 < n -> (0 < inject_Z n)%Q.
Proof. intros H. change 0%Q with (inject_Z 0). rewrite <- Zlt_Qlt. exact H. Qed.

Lemma inject_Z_le_2_31 (n : Z) : n < 2 ^ 31 -> (inject_Z n <= 2147483648)%Q.
Proof.
  intros H. change 2147483648%Q with (inject_Z 2147483648).
  rewrite <- Zle_Qle. change (2 ^ 31) with 2147483648 in H. lia.
Qed.

Lemma normal_pos_inv (lo hi : Z) (f : float) :
  Float.normal_pos lo hi f ->
  exists (m : positive) (e : Z),
    f = S754_finite false m e
    /\ Zdigits2 (Z.pos m) = Float.prec
    /\ 2 ^ (Float.prec - 1) <= Z.pos m < 2 ^ Float.prec /\ lo <= e <= hi.
Proof.
  destruct f as [| | |[] m e]; try contradiction. intros [C E].
  exists m, e. split; [reflexivity|]. split; [apply Zdigits2_unique, C|].
  split; assumption.
Qed.

(** [n / a] with a positive int [n] and a positive float [a]. *)
Lemma int_div_value (n : Z) (a : float) :
  0 < n < 2 ^ 31 -> Float.normal_pos (- 200) 200 a ->
  exists y : float,
    Float.int_div n a = Ok y /\ Float.normal_pos (- 1000) 1000 y
    /\ (inject_Z n / Float.to_Q a * (1 - Float.u) <= Float.to_Q y)%Q
    /\ (Float.to_Q y <= inject_Z n / Float.to_Q a * (1 + Float.u))%Q.
Proof.
  intros Hn Ha.
  assert (2 ^ 31 < 2 ^ Float.prec) as P by reflexivity.
  destruct (of_int_exact n ltac:(lia)) as (nf & En & Nn & Vn).
  destruct (normal_pos_inv _ _ _ Nn) as (mn & en & -> & Dn & _ & Rn).
  destruct (normal_pos_inv _ _ _ Ha) as (ma & ea & -> & Da & _ & Ra).
  destruct (div_value mn ma en ea ltac:(lia) ltac:(lia) ltac:(lia) ltac:(lia))
    as (Ny & Ly & Uy).
  unfold Float.int_div. rewrite En. cbn [bind Float.truediv Float.is_zero].
  eexists. split; [reflexivity|].
  split; [eapply normal_pos_weaken; [| |exact Ny]; unfold Float.prec in *; lia|].
  rewrite Vn in Ly, Uy. split; assumption.
Qed.

(** [n * a] with a positive int [n] and a positive float [a]. *)
Lemma int_mul_value (n : Z) (a : float) :
  0 < n < 2 ^ 31 -> Float.normal_pos (- 200) 200 a ->
  exists y : float,
    Float.int_mul n a = Ok y /\ Float.normal_pos (- 1000) 1000 y
    /\ (inject_Z n * Float.to_Q a * (1 - Float.u) <= Float.to_Q y)%Q
    /\ (Float.to_Q y <= inject_Z n * Float.to_Q a * (1 + Float.u))%Q.
Proof.
  intros Hn Ha.
  assert (2 ^ 31 < 2 ^ Float.prec) as P by reflexivity.
  destruct (of_int_exact n ltac:(lia)) as (nf & En & Nn & Vn).
  destruct (normal_pos_inv _ _ _ Nn) as (mn & en & -> & _ & Cn & Rn).
  destruct (normal_pos_inv _ _ _ Ha) as (ma & ea & -> & _ & Ca & Ra).
  destruct (mul_value mn ma en ea Cn Ca ltac:(lia) ltac:(lia)) as (Ny & Ly & Uy).
  unfold Float.int_mul. rewrite En. cbn [bind].
  eexists. split; [reflexivity|].
  split; [eapply normal_pos_weaken; [| |exact Ny]; lia|].
  rewrite Vn in Ly, Uy. split; assumption.
Qed.

(** ** calculate_padding *)

Lemma trunc_int_mul_floor (n : Z) (x p : float) :
  0 <= n -> Float.leb Float.zero x = true ->
  Float.int_mul n x = Ok p -> Float.is_finite p = true ->
  Qtrunc (Float.to_Q p) = Qfloor (Float.to_Q p).
Proof.
  intros Hn Hx Hp Hfin.
  pose proof (to_int_int_mul_floor n x p Hn Hx Hp Hfin) as E.
  rewrite (to_int_trunc p Hfin) in E. congruence.
Qed.

Lemma getitem_dict_Some (d : gmap string Z) (k : string) (v : Z) :
  d !! k = Some v -> getitem_dict d k = Ok v.
Proof. intros H. unfold getitem_dict. rewrite H. reflexivity. Qed.

(** Reads the four keys of a bounding box at the head of a function. *)
Ltac read_box Hx Hy Hw Hh :=
  rewrite (getitem_dict_Some _ _ _ Hx), (getitem_dict_Some _ _ _ Hy),
    (getitem_dict_Some _ _ _ Hw), (getitem_dict_Some _ _ _ Hh);
  cbn [bind].

(** The shape of a run of [calculate_padding] in which both products are
    finite floats: the paddings are the truncated products. *)
Lemma calculate_padding_trunc (bb_dict : gmap string Z) (p : float)
    (x y w h : Z) (wp hp : float) :
  bb_dict !! "bb_x" = Some x -> bb_dict !! "bb_y" = Some y ->
  bb_dict !! "bb_w" = Some w -> bb_dict !! "bb_h" = Some h ->
  Float.int_mul w p = Ok wp -> Float.is_finite wp = true ->
  Float.int_mul h p = Ok hp -> Float.is_finite hp = true ->
  calculate_padding bb_dict p
  = Ok (bounding_box (Z.max 0 (x - Qtrunc (Float.to_Q wp)))
                     (Z.max 0 (y - Qtrunc (Float.to_Q hp)))
                     (w + 2 * Qtrunc (Float.to_Q wp))
                     (h + 2 * Qtrunc (Float.to_Q hp))).
Proof.
  intros Hx Hy Hw Hh Hwp Fwp Hhp Fhp. unfold calculate_padding.
  read_box Hx Hy Hw Hh. rewrite Hwp. cbn [bind]. rewrite (to_int_trunc wp Fwp).
  cbn [bind]. rewrite Hhp. cbn [bind]. rewrite (to_int_trunc hp Fhp).
  reflexivity.
Qed.

(** The float product [n * p] of an int below [2^31] and a float that is
    zero or normal with a moderate exponent (between [2^-148] and [2^253]):
    it is finite, within relative distance [u] of the exact product, and
    [int()] of it is its floor, which is not negative. *)
Lemma int_mul_rounded (n : Z) (p : float) :
  0 <= n < 2 ^ 31 ->
  Float.is_zero p = true \/ Float.normal_pos (- 200) 200 p ->
  exists f : float,
    Float.int_mul n p = Ok f /\ Float.is_finite f = true
    /\ (inject_Z n * Float.to_Q p * (1 - Float.u) <= Float.to_Q f)%Q
    /\ (Float.to_Q f <= inject_Z n * Float.to_Q p * (1 + Float.u))%Q
    /\ Qtrunc (Float.to_Q f) = Qfloor (Float.to_Q f)
    /\ 0 <= Qfloor (Float.to_Q f).
Proof.
  intros Hn Hp.
  assert (forall (s : bool) (a b : Q),
            (a == 0)%Q ->
            (a * b <= Float.to_Q (S754_zero s))%Q
            /\ (Float.to_Q (S754_zero s) <= a * b)%Q) as Z0.
  { intros s a b E. cbn [Float.to_Q]. rewrite E, Qmult_0_l.
    split; apply Qle_refl. }
  assert (forall s : bool,
            Qtrunc (Float.to_Q (S754_zero s)) = Qfloor (Float.to_Q (S754_zero s))
            /\ 0 <= Qfloor (Float.to_Q (S754_zero s))) as Z1.
  { intros s. split; [reflexivity|].
    change (Qfloor (Float.to_Q (S754_zero s))) with 0. lia. }
  destruct (Z.eq_dec n 0) as [->|Nn].
  - (* float(0) * p is a zero *)
    assert (exists s : bool, Float.int_mul 0 p = Ok (S754_zero s)) as (s & E).
    { destruct Hp as [Hz|Hnorm].
      - destruct p as [sp| | |]; try discriminate. eexists. reflexivity.
      - destruct p as [| | |[] m e]; try contradiction. eexists. reflexivity. }
    exists (S754_zero s). split; [exact E|]. split; [reflexivity|].
    assert (inject_Z 0 * Float.to_Q p == 0)%Q as E0 by apply Qmult_0_l.
    destruct (Z0 s _ (1 - Float.u)%Q E0), (Z0 s _ (1 + Float.u)%Q E0),
      (Z1 s). auto.
  - assert (2 ^ 31 < 2 ^ Float.prec) as P by reflexivity.
    destruct Hp as [Hz|Hnorm].
    + (* n * 0.0 is a zero *)
      destruct (of_int_exact n ltac:(lia)) as (nf & En & Nn' & _).
      destruct (normal_pos_inv _ _ _ Nn') as (mn & en & -> & _).
      destruct p as [sp| | |]; try discriminate.
      exists (S754_zero (xorb false sp)).
      split; [unfold Float.int_mul; rewrite En; reflexivity|].
      split; [reflexivity|].
      assert (inject_Z n * Float.to_Q (S754_zero sp) == 0)%Q as E0
        by (cbn [Float.to_Q]; apply Qmult_0_r).
      destruct (Z0 (xorb false sp) _ (1 - Float.u)%Q E0),
        (Z0 (xorb false sp) _ (1 + Float.u)%Q E0), (Z1 (xorb false sp)). auto.
    + destruct (int_mul_value n p ltac:(lia) Hnorm) as (f & Ef & Nf & Lf & Uf).
      pose proof (normal_pos_to_Q _ _ _ Nf) as Pf.
      exists f. split; [exact Ef|].
      split; [destruct f as [| | |[] mf ef]; try contradiction; reflexivity|].
      split; [exact Lf|]. split; [exact Uf|].
      split; [apply Qtrunc_nonneg, Qlt_le_weak, Pf|].
      change 0 with (Qfloor 0). apply Qfloor_resp_le, Qlt_le_weak, Pf.
Qed.

(** C3, as amended: for a box whose width and height are non-negative
    and below [2^31], and a padding percentage [p] that is zero or a float
    between [2^-148] and [2^253], [calculate_padding] returns the box with
    [x' = max(0, x - floor(wp))], [y' = max(0, y - floor(hp))],
    [w' = w + 2*floor(wp)], [h' = h + 2*floor(hp)], where [wp] and [hp] are
    the float products of [w] and [h] with [p]: each lies within relative
    distance [u] of the exact product, so that its floor lies between the
    floors of the exact product scaled by [1 - u] and by [1 + u]; [x'] and
    [y'] are non-negative. *)
Theorem calculate_padding_floor (bb_dict : gmap string Z) (p : float)
    (x y w h : Z) :
  bb_dict !! "bb_x" = Some x -> bb_dict !! "bb_y" = Some y ->
  bb_dict !! "bb_w" = Some w -> bb_dict !! "bb_h" = Some h ->
  0 <= w < 2 ^ 31 -> 0 <= h < 2 ^ 31 ->
  Float.is_zero p = true \/ Float.normal_pos (- 200) 200 p ->
  exists (wp hp : float) (x' y' : Z),
    calculate_padding bb_dict p
    = Ok (bounding_box x' y' (w + 2 * Qfloor (Float.to_Q wp))
                             (h + 2 * Qfloor (Float.to_Q hp)))
    /\ x' = Z.max 0 (x - Qfloor (Float.to_Q wp))
    /\ y' = Z.max 0 (y - Qfloor (Float.to_Q hp))
    /\ 0 <= x' /\ 0 <= y'
    /\ (inject_Z w * Float.to_Q p * (1 - Float.u) <= Float.to_Q wp)%Q
    /\ (Float.to_Q wp <= inject_Z w * Float.to_Q p * (1 + Float.u))%Q
    /\ (inject_Z h * Float.to_Q p * (1 - Float.u) <= Float.to_Q hp)%Q
    /\ (Float.to_Q hp <= inject_Z h * Float.to_Q p * (1 + Float.u))%Q
    /\ Qfloor (inject_Z w * Float.to_Q p * (1 - Float.u))
       <= Qfloor (Float.to_Q wp)
       <= Qfloor (inject_Z w * Float.to_Q p * (1 + Float.u))
    /\ Qfloor (inject_Z h * Float.to_Q p * (1 - Float.u))
       <= Qfloor (Float.to_Q hp)
       <= Qfloor (inject_Z h * Float.to_Q p * (1 + Float.u)).
Proof.
  intros Hx Hy Hw Hh Nw Nh Np.
  destruct (int_mul_rounded w p Nw Np) as (wp & Hwp & Fwp & Lw & Uw & Tw & _).
  destruct (int_mul_rounded h p Nh Np) as (hp & Hhp & Fhp & Lh & Uh & Th & _).
  exists wp, hp, (Z.max 0 (x - Qfloor (Float.to_Q wp))),
    (Z.max 0 (y - Qfloor (Float.to_Q hp))).
  split.
  { rewrite (calculate_padding_trunc _ _ _ _ _ _ _ _ Hx Hy Hw Hh Hwp Fwp Hhp Fhp).
    rewrite Tw, Th. reflexivity. }
  split; [reflexivity|]. split; [reflexivity|].
  split; [lia|]. split; [lia|].
  split; [exact Lw|]. split; [exact Uw|]. split; [exact Lh|]. split; [exact Uh|].
  split; (split; apply Qfloor_resp_le; assumption).
Qed.

Lemma calculate_padding_floor_witness :
  exists (wp hp : float) (x' y' : Z),
    calculate_padding (bounding_box 10 10 10 10) Float.lit_0_3
    = Ok (bounding_box x' y' (10 + 2 * Qfloor (Float.to_Q wp))
                             (10 + 2 * Qfloor (Float.to_Q hp)))
    /\ x' = Z.max 0 (10 - Qfloor (Float.to_Q wp))
    /\ y' = Z.max 0 (10 - Qfloor (Float.to_Q hp))
    /\ 0 <= x' /\ 0 <= y'
    /\ (inject_Z 10 * Float.to_Q Float.lit_0_3 * (1 - Float.u) <= Float.to_Q wp)%Q
    /\ (Float.to_Q wp <= inject_Z 10 * Float.to_Q Float.lit_0_3 * (1 + Float.u))%Q
    /\ (inject_Z 10 * Float.to_Q Float.lit_0_3 * (1 - Float.u) <= Float.to_Q hp)%Q
    /\ (Float.to_Q hp <= inject_Z 10 * Float.to_Q Float.lit_0_3 * (1 + Float.u))%Q
    /\ Qfloor (inject_Z 10 * Float.to_Q Float.lit_0_3 * (1 - Float.u))
       <= Qfloor (Float.to_Q wp)
       <= Qfloor (inject_Z 10 * Float.to_Q Float.lit_0_3 * (1 + Float.u))
    /\ Qfloor (inject_Z 10 * Float.to_Q Float.lit_0_3 * (1 - Float.u))
       <= Qfloor (Float.to_Q hp)
       <= Qfloor (inject_Z 10 * Float.to_Q Float.lit_0_3 * (1 + Float.u)).
Proof.
  apply (calculate_padding_floor (bounding_box 10 10 10 10) Float.lit_0_3
           10 10 10 10);
    try solve [reflexivity | split; [vm_compute; discriminate | reflexivity]].
  right. unfold Float.normal_pos, Float.lit_0_3.
  repeat split; solve [reflexivity | vm_compute; discriminate].
Defined.

(** C3 as stated fails: the padding is the floor of the float product, not
    of the exact one.  The float [0.3] lies below three tenths, so that
    [10 * 0.3] is below 3 and its floor is 2, whereas the float product
    rounds to [3.0]: the code pads a 10x10 box to width 16, the formula to
    14.  Read with the decimal [0.29], the formula gives
    [floor(100 * 0.29) = 29] and width 158, whereas the float product is
    [28.999999999999996] and the code pads to width 156. *)
Lemma calculate_padding_floor_counterexample :
  calculate_padding (bounding_box 10 10 10 10) Float.lit_0_3
  = Ok (bounding_box 7 7 16 16)
  /\ Qfloor (inject_Z 10 * Float.to_Q Float.lit_0_3) = 2
  /\ bounding_box 7 7 16 16 !! "bb_w"
     <> Some (10 + 2 * Qfloor (inject_Z 10 * Float.to_Q Float.lit_0_3))
  /\ calculate_padding (bounding_box 0 0 100 100) Float.lit_0_29
     = Ok (bounding_box 0 0 156 156)
  /\ Qfloor (inject_Z 100 * (29 # 100)) = 29
  /\ bounding_box 0 0 156 156 !! "bb_w"
     <> Some (100 + 2 * Qfloor (inject_Z 100 * (29 # 100))).
Proof.
  repeat split; try (vm_compute; reflexivity); vm_compute; discriminate.
Qed.

(** With the padding of 10% that the module uses and dimensions below
    [2^31], both products are finite: the call always returns. *)
Lemma int_mul_finite (n : Z) (x : float) :
  0 <= n < 2 ^ 31 -> Float.normal_pos (- 200) 200 x ->
  exists p : float, Float.int_mul n x = Ok p /\ Float.is_finite p = true.
Proof.
  intros Hn Hx. destruct (Z.eq_dec n 0) as [->|Nn].
  - destruct (normal_pos_inv _ _ _ Hx) as (m & e & -> & _).
    exists (S754_zero false). split; reflexivity.
  - destruct (int_mul_value n x ltac:(lia) Hx) as (p & Ep & Np & _).
    exists p. split; [exact Ep|].
    destruct (normal_pos_inv _ _ _ Np) as (m & e & -> & _). reflexivity.
Qed.

Corollary calculate_padding_default (bb_dict : gmap string Z) (x y w h : Z) :
  bb_dict !! "bb_x" = Some x -> bb_dict !! "bb_y" = Some y ->
  bb_dict !! "bb_w" = Some w -> bb_dict !! "bb_h" = Some h ->
  0 <= w < 2 ^ 31 -> 0 <= h < 2 ^ 31 ->
  exists wp hp : float,
    Float.int_mul w Float.lit_0_1 = Ok wp
    /\ Float.int_mul h Float.lit_0_1 = Ok hp
    /\ calculate_padding bb_dict Float.lit_0_1
       = Ok (bounding_box (Z.max 0 (x - Qfloor (Float.to_Q wp)))
                          (Z.max 0 (y - Qfloor (Float.to_Q hp)))
                          (w + 2 * Qfloor (Float.to_Q wp))
                          (h + 2 * Qfloor (Float.to_Q hp))).
Proof.
  intros Hx Hy Hw Hh Nw Nh.
  assert (Float.normal_pos (- 200) 200 Float.lit_0_1) as N01
    by (unfold Float.normal_pos, Float.lit_0_1; repeat split;
        solve [reflexivity | vm_compute; discriminate]).
  destruct (int_mul_finite w _ Nw N01) as (wp & Ewp & Fwp).
  destruct (int_mul_finite h _ Nh N01) as (hp & Ehp & Fhp).
  exists wp, hp. split; [exact Ewp|]. split; [exact Ehp|].
  rewrite (calculate_padding_trunc _ _ _ _ _ _ _ _ Hx Hy Hw Hh Ewp Fwp Ehp Fhp).
  rewrite (trunc_int_mul_floor w Float.lit_0_1 wp ltac:(lia) eq_refl Ewp Fwp).
  rewrite (trunc_int_mul_floor h Float.lit_0_1 hp ltac:(lia) eq_refl Ehp Fhp).
  reflexivity.
Qed.

Lemma bounding_box_lookup (x y w h : Z) :
  bounding_box x y w h !! "bb_x" = Some x /\
  bounding_box x y w h !! "bb_y" = Some y /\
  bounding_box x y w h !! "bb_w" = Some w /\
  bounding_box x y w h !! "bb_h" = Some h.
Proof. unfold bounding_box. repeat split; by simplify_map_eq. Qed.

(** C4, as amended: whenever the products of the width and the height with
    the padding percentage are finite floats, the padded width and height
    grow by exactly twice the product truncated towards zero (not rounded
    to nearest), and the padded [x], [y] are non-negative. *)
Theorem calculate_padding_growth (bb_dict : gmap string Z) (p : float)
    (x y w h : Z) (wp hp : float) :
  bb_dict !! "bb_x" = Some x -> bb_dict !! "bb_y" = Some y ->
  bb_dict !! "bb_w" = Some w -> bb_dict !! "bb_h" = Some h ->
  Float.int_mul w p = Ok wp -> Float.is_finite wp = true ->
  Float.int_mul h p = Ok hp -> Float.is_finite hp = true ->
  exists (padded : gmap string Z) (x' y' : Z),
    calculate_padding bb_dict p = Ok padded
    /\ padded !! "bb_w" = Some (w + 2 * Qtrunc (Float.to_Q wp))
    /\ padded !! "bb_h" = Some (h + 2 * Qtrunc (Float.to_Q hp))
    /\ padded !! "bb_x" = Some x' /\ 0 <= x'
    /\ padded !! "bb_y" = Some y' /\ 0 <= y'.
Proof.
  intros Hx Hy Hw Hh Hwp Fwp Hhp Fhp.
  rewrite (calculate_padding_trunc _ _ _ _ _ _ _ _ Hx Hy Hw Hh Hwp Fwp Hhp Fhp).
  eexists _, _, _. split; [reflexivity|].
  destruct (bounding_box_lookup
              (Z.max 0 (x - Qtrunc (Float.to_Q wp)))
              (Z.max 0 (y - Qtrunc (Float.to_Q hp)))
              (w + 2 * Qtrunc (Float.to_Q wp))
              (h + 2 * Qtrunc (Float.to_Q hp))) as (Lx & Ly & Lw & Lh).
  repeat split; try eassumption; lia.
Qed.

Lemma calculate_padding_growth_witness :
  exists (padded : gmap string Z) (x' y' : Z),
    calculate_padding (bounding_box 10 10 10 10) Float.lit_0_19 = Ok padded
    /\ padded !! "bb_w"
       = Some (10 + 2 * Qtrunc (Float.to_Q (S754_finite false 8556839292003942 (-52))))
    /\ padded !! "bb_h"
       = Some (10 + 2 * Qtrunc (Float.to_Q (S754_finite false 8556839292003942 (-52))))
    /\ padded !! "bb_x" = Some x' /\ 0 <= x'
    /\ padded !! "bb_y" = Some y' /\ 0 <= y'.
Proof.
  apply (calculate_padding_growth (bounding_box 10 10 10 10) Float.lit_0_19
           10 10 10 10);
    solve [reflexivity | vm_compute; reflexivity].
Defined.

(** C4 as stated fails: a 10x10 box padded by 0.19 grows to width 12, that
    is by [2 * int(1.9) = 2], while [2 * round(1.9) = 4]. *)
Lemma calculate_padding_round_counterexample :
  calculate_padding (bounding_box 10 10 10 10) Float.lit_0_19
  = Ok (bounding_box 9 9 12 12)
  /\ Float.int_mul 10 Float.lit_0_19
     = Ok (S754_finite false 8556839292003942 (-52))
  /\ bounding_box 9 9 12 12 !! "bb_w"
     <> Some (10 + 2 * Qround_nearest
                        (Float.to_Q (S754_finite false 8556839292003942 (-52)))).
Proof.
  split; [vm_compute; reflexivity|]. split; [vm_compute; reflexivity|].
  vm_compute. discriminate.
Qed.

(** C5, as amended: the 100x50 box at (10, 10) padded by 10% is
    (0, 5, 120, 60). *)
Theorem calculate_padding_example :
  calculate_padding (bounding_box 10 10 100 50) Float.lit_0_1
  = Ok (bounding_box 0 5 120 60).
Proof. vm_compute. reflexivity. Qed.

(** C5 as stated fails: the result is not (9, 9, 120, 60). *)
Lemma calculate_padding_example_counterexample :
  calculate_padding (bounding_box 10 10 100 50) Float.lit_0_1
  <> Ok (bounding_box 9 9 120 60).
Proof.
  assert (calculate_padding (bounding_box 10 10 100 50) Float.lit_0_1
          = Ok (bounding_box 0 5 120 60)) as -> by (vm_compute; reflexivity).
  intros E.
  assert (bounding_box 0 5 120 60 !! "bb_x" = bounding_box 9 9 120 60 !! "bb_x")
    as L by congruence.
  vm_compute in L. discriminate.
Qed.

(** ** fit_size and resize_to_fit *)

Lemma near_zero (t : Q) : (t == 0)%Q -> Float.near (S754_zero false) t.
Proof.
  intros E. unfold Float.near. cbn [Float.to_Q]. rewrite E, !Qmult_0_l.
  split; apply Qle_refl.
Qed.

Lemma int_truediv_zero (b : Z) : 0 < b -> Float.int_truediv 0 b = Ok (S754_zero false).
Proof. intros H. destruct b; try lia. reflexivity. Qed.

(** The dimensions chosen by [resize_to_fit] for a [w]×[h] image and a
    [frame_w]×[frame_h] frame, all below [2^31]: the branch is chosen by
    comparing the two float ratios; the free dimension is the floor of a
    float within relative distance [tol] of the exact proportional value,
    and neither dimension exceeds the frame. *)
Lemma fit_size_spec (w h frame_w frame_h : Z) :
  0 <= w < 2 ^ 31 -> 0 < h < 2 ^ 31 ->
  0 <= frame_w < 2 ^ 31 -> 0 < frame_h < 2 ^ 31 ->
  exists aspect_ratio frame_aspect_ratio q : float,
    Float.int_truediv w h = Ok aspect_ratio
    /\ Float.int_truediv frame_w frame_h = Ok frame_aspect_ratio
    /\ if Float.ltb frame_aspect_ratio aspect_ratio then
         Float.int_div frame_w aspect_ratio = Ok q
         /\ fit_size w h (frame_w, frame_h) = Ok (frame_w, Qfloor (Float.to_Q q))
         /\ Float.near q (inject_Z frame_w * inject_Z h / inject_Z w)
         /\ 0 <= Qfloor (Float.to_Q q) <= frame_h
       else
         Float.int_mul frame_h aspect_ratio = Ok q
         /\ fit_size w h (frame_w, frame_h) = Ok (Qfloor (Float.to_Q q), frame_h)
         /\ Float.near q (inject_Z frame_h * inject_Z w / inject_Z h)
         /\ 0 <= Qfloor (Float.to_Q q) <= frame_w.
Proof.
  intros Hw Hh Hfw Hfh.
  assert (2 ^ 31 < 2 ^ Float.prec) as P by reflexivity.
  pose proof (inject_Z_pos h ltac:(lia)) as Qh.
  pose proof (inject_Z_pos frame_h ltac:(lia)) as Qfh.
  destruct (Z.eq_dec w 0) as [->|Nw].
  - (* an image without columns: the height is limiting *)
    assert (exists g, Float.int_truediv frame_w frame_h = Ok g
                      /\ Float.ltb g (S754_zero false) = false) as (g & Eg & Lg).
    { destruct (Z.eq_dec frame_w 0) as [->|Nfw].
      - exists (S754_zero false). split; [apply int_truediv_zero; lia | reflexivity].
      - destruct (int_truediv_value frame_w frame_h ltac:(lia) ltac:(lia))
          as (g & Eg & Ng & _).
        exists g. split; [exact Eg|].
        destruct g as [| | |[] m e]; try contradiction. reflexivity. }
    destruct (of_int_exact frame_h ltac:(lia)) as (fhf & Ef & Nf & _).
    destruct (normal_pos_inv _ _ _ Nf) as (mf & ef & -> & _).
    exists (S754_zero false), g, (S754_zero false).
    split; [apply int_truediv_zero; lia|]. split; [exact Eg|]. rewrite Lg.
    assert (Float.int_mul frame_h (S754_zero false) = Ok (S754_zero false)) as Em
      by (unfold Float.int_mul; rewrite Ef; reflexivity).
    split; [exact Em|]. split.
    + unfold fit_size. rewrite int_truediv_zero by lia. cbn [bind].
      rewrite Eg. cbn [bind]. rewrite Lg, Em. reflexivity.
    + split; [apply near_zero; change (inject_Z 0) with 0%Q; unfold Qdiv; ring|].
      change (Qfloor (Float.to_Q (S754_zero false))) with 0. lia.
  - destruct (int_truediv_value w h ltac:(lia) ltac:(lia)) as (a & Ea & Na & La & Ua).
    pose proof (inject_Z_pos w ltac:(lia)) as Qw.
    pose proof (normal_pos_to_Q _ _ _ Na) as Pa.
    apply (ratio_bounds_mul _ _ _ _ Qh) in La, Ua.
    destruct (Z.eq_dec frame_w 0) as [->|Nfw].
    + (* a frame without columns: the width is limiting *)
      destruct (normal_pos_inv _ _ _ Na) as (ma & ea & -> & _).
      exists (S754_finite false ma ea), (S754_zero false), (S754_zero false).
      split; [exact Ea|]. split; [apply int_truediv_zero; lia|].
      change (Float.ltb (S754_zero false) (S754_finite false ma ea)) with true.
      cbn iota.
      assert (Float.int_div 0 (S754_finite false ma ea) = Ok (S754_zero false))
        as Ed by reflexivity.
      split; [exact Ed|]. split.
      * unfold fit_size. rewrite Ea. cbn [bind].
        rewrite int_truediv_zero by lia. cbn [bind].
        change (Float.ltb (S754_zero false) (S754_finite false ma ea)) with true.
        cbn iota. rewrite Ed. reflexivity.
      * split; [apply near_zero; change (inject_Z 0) with 0%Q; unfold Qdiv; ring|].
        change (Qfloor (Float.to_Q (S754_zero false))) with 0. lia.
    + destruct (int_truediv_value frame_w frame_h ltac:(lia) ltac:(lia))
        as (g & Eg & Ng & Lg & Ug).
      pose proof (inject_Z_pos frame_w ltac:(lia)) as Qfw.
      pose proof (normal_pos_to_Q _ _ _ Ng) as Pg.
      apply (ratio_bounds_mul _ _ _ _ Qfh) in Lg, Ug.
      pose proof (ltb_normal _ _ _ _ g a Ng Na) as Cmp.
      destruct (Float.ltb g a) eqn:Eltb.
      * (* the width is limiting *)
        destruct (int_div_value frame_w a ltac:(lia) Na) as (y & Ey & Ny & Ly & Uy).
        pose proof (normal_pos_to_Q _ _ _ Ny) as Py.
        apply (ratio_bounds_mul _ _ _ _ Pa) in Ly, Uy.
        destruct (width_limited_bounds (Float.to_Q y) (Float.to_Q a) (Float.to_Q g)
                    (inject_Z frame_w) (inject_Z w) (inject_Z h) (inject_Z frame_h)
                    Py Pa Pg Qfw Qw Qh Qfh (inject_Z_le_2_31 frame_h ltac:(lia))
                    Ly Uy La Ua Lg Ug Cmp) as (T1 & T2 & T3).
        exists a, g, y. split; [exact Ea|]. split; [exact Eg|]. rewrite Eltb.
        split; [exact Ey|]. split.
        -- unfold fit_size. rewrite Ea. cbn [bind]. rewrite Eg. cbn [bind].
           rewrite Eltb, Ey. cbn [bind]. rewrite (to_int_floor _ _ _ Ny). reflexivity.
        -- split.
           ++ unfold Float.near. split.
              ** apply (ratio_bounds_div _ _ _ _ Qw). exact T1.
              ** apply (ratio_bounds_div _ _ _ _ Qw). exact T2.
           ++ apply Qfloor_bounds; [apply Qlt_le_weak, Py | exact T3].
      * (* the height is limiting *)
        destruct (int_mul_value frame_h a ltac:(lia) Na) as (y & Ey & Ny & Ly & Uy).
        pose proof (normal_pos_to_Q _ _ _ Ny) as Py.
        destruct (height_limited_bounds (Float.to_Q y) (Float.to_Q a) (Float.to_Q g)
                    (inject_Z frame_w) (inject_Z w) (inject_Z h) (inject_Z frame_h)
                    Py Pa Pg Qfw Qw Qh Qfh (inject_Z_le_2_31 frame_w ltac:(lia))
                    Ly Uy La Ua Lg Ug Cmp) as (T1 & T2 & T3).
        exists a, g, y. split; [exact Ea|]. split; [exact Eg|]. rewrite Eltb.
        split; [exact Ey|]. split.
        -- unfold fit_size. rewrite Ea. cbn [bind]. rewrite Eg. cbn [bind].
           rewrite Eltb, Ey. cbn [bind]. rewrite (to_int_floor _ _ _ Ny). reflexivity.
        -- split.
           ++ unfold Float.near. split.
              ** apply (ratio_bounds_div _ _ _ _ Qh). exact T1.
              ** apply (ratio_bounds_div _ _ _ _ Qh). exact T2.
           ++ apply Qfloor_bounds; [apply Qlt_le_weak, Py | exact T3].
Qed.



(** The example of the specification: a 1000×500 image in a 512×512 frame
    is resized to 512×256. *)
Example fit_size_1000x500 : fit_size 1000 500 (512, 512) = Ok (512, 256).
Proof. vm_compute. reflexivity. Qed.

(** Float rounding is visible in the result: for a 2×98 image and a 1×49
    frame the width is [int(49 * (2 / 98)) = int(0.9999999999999999) = 0],
    whereas [49 * 2 / 98 = 1] exactly. *)
Example fit_size_2x98 : fit_size 2 98 (1, 49) = Ok (0, 49).
Proof. vm_compute. reflexivity. Qed.

(** ** Slices of lists and arrays *)

Lemma slice_index_le (n : nat) (i : Z) : (slice_index n i <= n)%nat.
Proof. unfold slice_index. destruct (i <? 0) eqn:E; lia. Qed.

Lemma slice_index_nonneg (n : nat) (i : Z) :
  0 <= i -> slice_index n i = Z.to_nat (Z.min i (Z.of_nat n)).
Proof.
  intros H. unfold slice_index.
  destruct (i <? 0) eqn:E; [apply Z.ltb_lt in E; lia | reflexivity].
Qed.

Lemma length_list_slice {A : Type} (l : list A) (lo hi : nat) :
  (hi <= length l)%nat -> length (list_slice l lo hi) = (hi - lo)%nat.
Proof.
  intros H. unfold list_slice. rewrite length_take, length_drop. lia.
Qed.

Lemma lookup_list_slice {A : Type} (l : list A) (lo hi k : nat) :
  (k < hi - lo)%nat -> list_slice l lo hi !! k = l !! (lo + k)%nat.
Proof.
  intros H. unfold list_slice.
  rewrite lookup_take_lt by exact H. apply lookup_drop.
Qed.

Lemma nrows_getslice (a : ndarray) (y0 y1 x0 x1 : Z) :
  nrows (getslice a y0 y1 x0 x1)
  = (slice_index (nrows a) y1 - slice_index (nrows a) y0)%nat.
Proof.
  unfold getslice, nrows at 1. cbn [rows].
  rewrite length_map. apply length_list_slice, slice_index_le.
Qed.

Lemma pixel_at_getslice (a : ndarray) (y0 y1 x0 x1 : Z) (r c : nat) :
  (r < slice_index (nrows a) y1 - slice_index (nrows a) y0)%nat ->
  (c < slice_index (ncols a) x1 - slice_index (ncols a) x0)%nat ->
  pixel_at (getslice a y0 y1 x0 x1) r c
  = pixel_at a (slice_index (nrows a) y0 + r) (slice_index (ncols a) x0 + c).
Proof.
  intros Hr Hc. unfold pixel_at, getslice. cbn [rows].
  rewrite list_lookup_fmap, (lookup_list_slice _ _ _ _ Hr).
  destruct (rows a !! _) as [row|]; [|reflexivity]. cbn.
  apply lookup_list_slice, Hc.
Qed.

Lemma pixel_at_Some_lt (a : ndarray) (r c : nat) (p : pixel) :
  rectangular a -> pixel_at a r c = Some p -> (r < nrows a)%nat /\ (c < ncols a)%nat.
Proof.
  unfold rectangular, pixel_at, nrows. intros R H.
  destruct (rows a !! r) as [row|] eqn:E; [|discriminate]. cbn in H.
  split; [eapply lookup_lt_Some, E|].
  rewrite <- (proj1 (Forall_lookup _ _) R r row E). eapply lookup_lt_Some, H.
Qed.

Lemma pixel_at_zeros_like (a : ndarray) (r c : nat) :
  pixel_at (np_zeros_like a) r c = (fun _ => zero_pixel) <$> pixel_at a r c.
Proof.
  unfold pixel_at, np_zeros_like. cbn [rows].
  rewrite list_lookup_fmap. destruct (rows a !! r) as [row|]; [|reflexivity].
  cbn. apply list_lookup_fmap.
Qed.

Lemma rectangular_zeros_like (a : ndarray) :
  rectangular a -> rectangular (np_zeros_like a).
Proof.
  unfold rectangular, np_zeros_like. cbn. intros R.
  apply Forall_fmap. eapply Forall_impl; [exact R|].
  intros row H. cbn. rewrite length_map. exact H.
Qed.

Lemma setslice_Ok (dst src out : ndarray) (y0 y1 x0 x1 : Z) :
  setslice dst y0 y1 x0 x1 src = Ok out ->
  nrows out = nrows dst /\ ncols out = ncols dst /\
  (rectangular dst -> rectangular out) /\
  forall r c : nat,
    pixel_at out r c = assigned dst src y0 y1 x0 x1 r c <$> pixel_at dst r c.
Proof.
  unfold setslice. destruct (_ && _); [|discriminate]. intros [= <-].
  split; [unfold nrows; cbn; apply length_imap|]. split; [reflexivity|]. split.
  - unfold rectangular. cbn [rows ncols]. intros R.
    apply Forall_lookup. intros i row' Hi.
    apply list_lookup_imap_Some in Hi as (row & Hrow & ->).
    pose proof (proj1 (Forall_lookup _ _) R i row Hrow) as L.
    destruct (_ && _); [rewrite length_imap|]; exact L.
  - intros r c. unfold pixel_at, assigned. cbn [rows].
    rewrite list_lookup_imap.
    set (br := Nat.leb (slice_index (nrows dst) y0) r
               && Nat.ltb r (slice_index (nrows dst) y1)).
    set (bc := Nat.leb (slice_index (ncols dst) x0) c
               && Nat.ltb c (slice_index (ncols dst) x1)).
    destruct (rows dst !! r) as [row|]; [|reflexivity].
    cbn [fmap option_fmap option_map mbind option_bind].
    destruct br; cbn [andb]; [|destruct (row !! c); reflexivity].
    rewrite list_lookup_imap. fold bc. destruct (row !! c); reflexivity.
Qed.

Lemma in_slice_iff (n : nat) (i len : Z) (k : nat) :
  0 <= i -> 0 <= len -> (k < n)%nat ->
  Nat.leb (slice_index n i) k && Nat.ltb k (slice_index n (i + len))
  = (i <=? Z.of_nat k) && (Z.of_nat k <? i + len).
Proof.
  intros Hi Hlen Hk. rewrite !slice_index_nonneg by lia.
  destruct (Nat.leb_spec (Z.to_nat (Z.min i (Z.of_nat n))) k),
    (Nat.ltb_spec k (Z.to_nat (Z.min (i + len) (Z.of_nat n)))),
    (Z.leb_spec i (Z.of_nat k)), (Z.ltb_spec (Z.of_nat k) (i + len));
    cbn; try reflexivity; lia.
Qed.

Lemma broadcast_index_same (n k : nat) : broadcast_index n n k = k.
Proof. unfold broadcast_index. rewrite Nat.eqb_refl. reflexivity. Qed.

Lemma broadcastable_same (n : nat) : broadcastable n n = true.
Proof. unfold broadcastable. rewrite Nat.eqb_refl. reflexivity. Qed.

(** ** blacken_outside_bounding_box *)

(** Given the four keys, masking never raises: both sides of the
    assignment are cut by the same bounds. *)
Lemma blacken_outside_bounding_box_returns (frame : ndarray)
    (bb_dict : gmap string Z) (x y w h : Z) :
  bb_dict !! "bb_x" = Some x -> bb_dict !! "bb_y" = Some y ->
  bb_dict !! "bb_w" = Some w -> bb_dict !! "bb_h" = Some h ->
  exists mask : ndarray, blacken_outside_bounding_box frame bb_dict = Ok mask.
Proof.
  intros Hx Hy Hw Hh. unfold blacken_outside_bounding_box.
  read_box Hx Hy Hw Hh. unfold setslice.
  assert (nrows (np_zeros_like frame) = nrows frame) as ->
    by (unfold nrows, np_zeros_like; cbn; apply length_map).
  rewrite nrows_getslice. cbn [getslice ncols np_zeros_like].
  rewrite !broadcastable_same. eexists. reflexivity.
Qed.

(** C8, as amended: for a box whose [x], [y], [w], [h] are non-negative the
    mask has the dimensions of the frame, is zero outside
    [[x, x+w) × [y, y+h)] and equals the frame inside. *)
Theorem blacken_outside_bounding_box_spec (frame : ndarray)
    (bb_dict : gmap string Z) (x y w h : Z) :
  rectangular frame ->
  bb_dict !! "bb_x" = Some x -> bb_dict !! "bb_y" = Some y ->
  bb_dict !! "bb_w" = Some w -> bb_dict !! "bb_h" = Some h ->
  0 <= x -> 0 <= y -> 0 <= w -> 0 <= h ->
  exists mask : ndarray,
    blacken_outside_bounding_box frame bb_dict = Ok mask
    /\ shape mask = shape frame /\ rectangular mask
    /\ forall (r c : nat) (p : pixel),
         pixel_at frame r c = Some p ->
         pixel_at mask r c = Some (if in_box x y w h r c then p else zero_pixel).
Proof.
  intros R Hx Hy Hw Hh Nx Ny Nw Nh. unfold blacken_outside_bounding_box.
  read_box Hx Hy Hw Hh.
  assert (nrows (np_zeros_like frame) = nrows frame) as Zr
    by (unfold nrows, np_zeros_like; cbn; apply length_map).
  assert (ncols (np_zeros_like frame) = ncols frame) as Zc by reflexivity.
  destruct (setslice _ y (y + h) x (x + w) _) as [mask|e] eqn:E.
  - exists mask. split; [reflexivity|].
    apply setslice_Ok in E as (Hn & Hc & Hrect & Hpix).
    split; [unfold shape; congruence|].
    split; [apply Hrect, rectangular_zeros_like, R|].
    intros r c p Hp. rewrite Hpix, pixel_at_zeros_like, Hp. cbn. f_equal.
    destruct (pixel_at_Some_lt _ _ _ _ R Hp) as [Lr Lc].
    unfold assigned. rewrite Zr, Zc, nrows_getslice.
    cbn [getslice ncols]. rewrite !broadcast_index_same.
    pose proof (in_slice_iff (nrows frame) y h r Ny Nh Lr) as Sr.
    pose proof (in_slice_iff (ncols frame) x w c Nx Nw Lc) as Sc.
    unfold in_box. rewrite <- Sc, <- Sr.
    destruct (Nat.leb_spec (slice_index (nrows frame) y) r); cbn [andb];
      [|rewrite andb_false_r; reflexivity].
    destruct (Nat.ltb_spec r (slice_index (nrows frame) (y + h))); cbn [andb];
      [|rewrite andb_false_r; reflexivity].
    destruct (Nat.leb_spec (slice_index (ncols frame) x) c); cbn [andb];
      [|reflexivity].
    destruct (Nat.ltb_spec c (slice_index (ncols frame) (x + w))); cbn [andb];
      [|reflexivity].
    rewrite pixel_at_getslice by lia.
    replace (slice_index (nrows frame) y + (r - slice_index (nrows frame) y))%nat
      with r by lia.
    replace (slice_index (ncols frame) x + (c - slice_index (ncols frame) x))%nat
      with c by lia.
    rewrite Hp. reflexivity.
  - exfalso. unfold setslice in E.
    rewrite Zr, Zc, nrows_getslice in E. cbn [getslice ncols] in E.
    rewrite !broadcastable_same in E. discriminate.
Qed.

Lemma blacken_outside_bounding_box_spec_witness :
  exists mask : ndarray,
    blacken_outside_bounding_box frame_2x3 (bounding_box 1 0 1 2) = Ok mask
    /\ shape mask = shape frame_2x3 /\ rectangular mask
    /\ forall (r c : nat) (p : pixel),
         pixel_at frame_2x3 r c = Some p ->
         pixel_at mask r c = Some (if in_box 1 0 1 2 r c then p else zero_pixel).
Proof.
  apply (blacken_outside_bounding_box_spec frame_2x3 (bounding_box 1 0 1 2) 1 0 1 2);
    solve [repeat constructor | vm_compute; reflexivity | lia].
Defined.

(** C8 as stated fails on a box with a negative [x]: the column bounds
    [-1:1] of a frame of width 2 select nothing, so the pixel at row 0,
    column 0, which lies inside [[-1, 1) × [0, 1)], is blackened. *)
Lemma blacken_outside_bounding_box_counterexample :
  blacken_outside_bounding_box frame_1x2 (bounding_box (-1) 0 2 1)
  = Ok {| ncols := 2; rows := [[zero_pixel; zero_pixel]] |}
  /\ in_box (-1) 0 2 1 0 0 = true
  /\ pixel_at frame_1x2 0 0 = Some (1, 1, 1)
  /\ pixel_at {| ncols := 2; rows := [[zero_pixel; zero_pixel]] |} 0 0
     <> pixel_at frame_1x2 0 0.
Proof.
  repeat split; try (vm_compute; reflexivity). vm_compute. discriminate.
Qed.

(** ** np.full *)

(** The cast to [np.uint8] leaves an 8-bit colour as it is. *)
Lemma as_uint8_id (p : pixel) : is_uint8 p -> as_uint8 p = p.
Proof.
  destruct p as [[r g] b]. cbn [is_uint8 as_uint8]. intros (Hr & Hg & Hb).
  unfold uint8. rewrite !Z.mod_small by lia. reflexivity.
Qed.

(** A colour outside the 8-bit range is stored modulo 256. *)
Example np_full_wraps :
  np_full 1 2 (256, -1, 511)
  = Ok {| ncols := 2; rows := [[(0, 255, 255); (0, 255, 255)]] |}.
Proof. reflexivity. Qed.

Lemma np_full_Ok (h w : Z) (color : pixel) :
  0 <= h -> 0 <= w ->
  exists a : ndarray,
    np_full h w color = Ok a
    /\ nrows a = Z.to_nat h /\ ncols a = Z.to_nat w /\ rectangular a
    /\ forall r c : nat, (r < Z.to_nat h)%nat -> (c < Z.to_nat w)%nat ->
         pixel_at a r c = Some (as_uint8 color).
Proof.
  intros Hh Hw. unfold np_full.
  destruct (Z.ltb_spec h 0), (Z.ltb_spec w 0); try lia. cbn [orb].
  eexists. split; [reflexivity|]. unfold nrows, rectangular, pixel_at. cbn.
  split; [apply length_replicate|]. split; [reflexivity|]. split.
  - apply Forall_replicate, length_replicate.
  - intros r c Hr Hc. rewrite (lookup_replicate_2 _ _ _ Hr). cbn.
    apply lookup_replicate_2, Hc.
Qed.

Lemma np_full_shape (h w : Z) (color : pixel) (a : ndarray) :
  np_full h w color = Ok a -> shape a = (Z.to_nat h, Z.to_nat w).
Proof.
  unfold np_full. destruct (_ || _); [discriminate|]. intros [= <-].
  unfold shape, nrows. cbn. rewrite length_replicate. reflexivity.
Qed.

(** ** center_in_frame *)

Lemma slice_index_inside (n : nat) (i : Z) :
  0 <= i <= Z.of_nat n -> slice_index n i = Z.to_nat i.
Proof. intros H. rewrite slice_index_nonneg by lia. f_equal. lia. Qed.

(** Whatever it returns has the shape of the canvas,
    [(frame_size[1], frame_size[0])]. *)
Lemma center_in_frame_shape (cv2_resize : ndarray -> Z -> Z -> result ndarray)
    (img : ndarray) (frame_size : Z * Z) (bg : pixel) (out : ndarray) :
  center_in_frame cv2_resize img frame_size bg = Ok out ->
  shape out = (Z.to_nat (snd frame_size), Z.to_nat (fst frame_size)).
Proof.
  unfold center_in_frame. cbn [shape].
  destruct (if _ || _ then _ else _) as [img'|]; [|discriminate]. cbn [bind].
  destruct (np_full _ _ bg) as [canvas|] eqn:F; [|discriminate]. cbn [bind].
  intros E. apply setslice_Ok in E as (Hn & Hc & _).
  apply np_full_shape in F. unfold shape in *. congruence.
Qed.

(** C7: an image that fits in the frame is not resized; the canvas has
    exactly the size of the frame, carries the image unchanged at the
    offsets [(frame_w - w) // 2], [(frame_h - h) // 2], and the background
    colour everywhere else.  The canvas is an array of [np.uint8]: the
    background colour is one of 8-bit components. *)
Theorem center_in_frame_fits (img : ndarray) (frame_w frame_h : Z) (bg : pixel) :
  rectangular img ->
  Z.of_nat (ncols img) <= frame_w -> Z.of_nat (nrows img) <= frame_h ->
  is_uint8 bg ->
  exists (canvas : ndarray) (x_offset y_offset : nat),
    (forall cv2_resize : ndarray -> Z -> Z -> result ndarray,
       center_in_frame cv2_resize img (frame_w, frame_h) bg = Ok canvas)
    /\ Z.of_nat x_offset = (frame_w - Z.of_nat (ncols img)) `div` 2
    /\ Z.of_nat y_offset = (frame_h - Z.of_nat (nrows img)) `div` 2
    /\ shape canvas = (Z.to_nat frame_h, Z.to_nat frame_w)
    /\ rectangular canvas
    /\ (forall (r c : nat) (p : pixel),
          pixel_at img r c = Some p ->
          pixel_at canvas (y_offset + r) (x_offset + c) = Some p)
    /\ (forall r c : nat,
          (r < Z.to_nat frame_h)%nat -> (c < Z.to_nat frame_w)%nat ->
          ~ ((y_offset <= r < y_offset + nrows img)%nat
             /\ (x_offset <= c < x_offset + ncols img)%nat) ->
          pixel_at canvas r c = Some bg).
Proof.
  intros R Hw Hh Hbg.
  set (xo := (frame_w - Z.of_nat (ncols img)) `div` 2).
  set (yo := (frame_h - Z.of_nat (nrows img)) `div` 2).
  assert (0 <= xo /\ xo + Z.of_nat (ncols img) <= frame_w) as [X0 X1].
  { unfold xo. split; [apply Z.div_pos; lia|].
    pose proof (Z.mul_div_le (frame_w - Z.of_nat (ncols img)) 2). lia. }
  assert (0 <= yo /\ yo + Z.of_nat (nrows img) <= frame_h) as [Y0 Y1].
  { unfold yo. split; [apply Z.div_pos; lia|].
    pose proof (Z.mul_div_le (frame_h - Z.of_nat (nrows img)) 2). lia. }
  destruct (np_full_Ok frame_h frame_w bg) as (canvas0 & F & Fr & Fc & Frect & Fpix);
    [lia..|].
  rewrite (as_uint8_id bg Hbg) in Fpix.
  assert (slice_index (nrows canvas0) yo = Z.to_nat yo) as Sy0
    by (apply slice_index_inside; lia).
  assert (slice_index (nrows canvas0) (yo + Z.of_nat (nrows img))
          = (Z.to_nat yo + nrows img)%nat) as Sy1
    by (rewrite slice_index_inside by lia; lia).
  assert (slice_index (ncols canvas0) xo = Z.to_nat xo) as Sx0
    by (apply slice_index_inside; lia).
  assert (slice_index (ncols canvas0) (xo + Z.of_nat (ncols img))
          = (Z.to_nat xo + ncols img)%nat) as Sx1
    by (rewrite slice_index_inside by lia; lia).
  destruct (setslice canvas0 yo (yo + Z.of_nat (nrows img))
              xo (xo + Z.of_nat (ncols img)) img) as [canvas|e] eqn:E.
  2:{ exfalso. unfold setslice in E. rewrite Sy0, Sy1, Sx0, Sx1 in E.
      replace (Z.to_nat yo + nrows img - Z.to_nat yo)%nat with (nrows img) in E by lia.
      replace (Z.to_nat xo + ncols img - Z.to_nat xo)%nat with (ncols img) in E by lia.
      rewrite !broadcastable_same in E. discriminate. }
  exists canvas, (Z.to_nat xo), (Z.to_nat yo).
  pose proof (setslice_Ok _ _ _ _ _ _ _ E) as (Hn & Hc & Hrect & Hpix).
  split.
  { intros cv2_resize. unfold center_in_frame. cbn [shape fst snd].
    destruct (Z.ltb_spec frame_w (Z.of_nat (ncols img))); [lia|].
    destruct (Z.ltb_spec frame_h (Z.of_nat (nrows img))); [lia|].
    cbn [orb bind shape]. rewrite F. cbn [bind]. exact E. }
  split; [lia|]. split; [lia|].
  split; [unfold shape; congruence|]. split; [apply Hrect, Frect|].
  assert (forall r c : nat,
            assigned canvas0 img yo (yo + Z.of_nat (nrows img))
              xo (xo + Z.of_nat (ncols img)) r c bg
            = if Nat.leb (Z.to_nat yo) r && Nat.ltb r (Z.to_nat yo + nrows img)
                 && (Nat.leb (Z.to_nat xo) c && Nat.ltb c (Z.to_nat xo + ncols img))
              then default bg (pixel_at img (r - Z.to_nat yo) (c - Z.to_nat xo))
              else bg) as A.
  { intros r c. unfold assigned. rewrite Sy0, Sy1, Sx0, Sx1.
    replace (Z.to_nat yo + nrows img - Z.to_nat yo)%nat with (nrows img) by lia.
    replace (Z.to_nat xo + ncols img - Z.to_nat xo)%nat with (ncols img) by lia.
    rewrite !broadcast_index_same. reflexivity. }
  split.
  - intros r c p Hp. destruct (pixel_at_Some_lt _ _ _ _ R Hp) as [Lr Lc].
    rewrite Hpix, Fpix by lia. cbn. rewrite A.
    destruct (Nat.leb_spec (Z.to_nat yo) (Z.to_nat yo + r)); [|lia].
    destruct (Nat.ltb_spec (Z.to_nat yo + r) (Z.to_nat yo + nrows img)); [|lia].
    destruct (Nat.leb_spec (Z.to_nat xo) (Z.to_nat xo + c)); [|lia].
    destruct (Nat.ltb_spec (Z.to_nat xo + c) (Z.to_nat xo + ncols img)); [|lia].
    cbn [andb].
    replace (Z.to_nat yo + r - Z.to_nat yo)%nat with r by lia.
    replace (Z.to_nat xo + c - Z.to_nat xo)%nat with c by lia.
    rewrite Hp. reflexivity.
  - intros r c Lr Lc Out. rewrite Hpix, Fpix by lia. cbn. rewrite A.
    destruct (Nat.leb_spec (Z.to_nat yo) r),
      (Nat.ltb_spec r (Z.to_nat yo + nrows img)),
      (Nat.leb_spec (Z.to_nat xo) c),
      (Nat.ltb_spec c (Z.to_nat xo + ncols img)); cbn [andb];
      try reflexivity.
    exfalso. apply Out. lia.
Qed.

Lemma center_in_frame_fits_witness :
  exists (canvas : ndarray) (x_offset y_offset : nat),
    (forall cv2_resize : ndarray -> Z -> Z -> result ndarray,
       center_in_frame cv2_resize frame_2x3 (5, 4) (9, 9, 9) = Ok canvas)
    /\ Z.of_nat x_offset = (5 - Z.of_nat (ncols frame_2x3)) `div` 2
    /\ Z.of_nat y_offset = (4 - Z.of_nat (nrows frame_2x3)) `div` 2
    /\ shape canvas = (Z.to_nat 4, Z.to_nat 5)
    /\ rectangular canvas
    /\ (forall (r c : nat) (p : pixel),
          pixel_at frame_2x3 r c = Some p ->
          pixel_at canvas (y_offset + r) (x_offset + c) = Some p)
    /\ (forall r c : nat,
          (r < Z.to_nat 4)%nat -> (c < Z.to_nat 5)%nat ->
          ~ ((y_offset <= r < y_offset + nrows frame_2x3)%nat
             /\ (x_offset <= c < x_offset + ncols frame_2x3)%nat) ->
          pixel_at canvas r c = Some (9, 9, 9)).
Proof.
  apply (center_in_frame_fits frame_2x3 5 4 (9, 9, 9));
    solve [repeat constructor | vm_compute; discriminate | cbn; lia].
Defined.

(** ** create_face_frame *)

Lemma dict_nonempty_size (d : gmap string Z) :
  d <> ∅ -> negb (Nat.eqb (base.size (dom d)) 0) = true.
Proof.
  intros H. rewrite size_dom.
  destruct (Nat.eqb_spec (base.size d) 0) as [E|]; [|reflexivity].
  apply map_size_empty_iff in E. contradiction.
Qed.

(** With [darken = False], a frame that has a detection comes out with the
    shape of the canvas. *)
Lemma create_face_frame_cropped_shape
    (cv2_resize : ndarray -> Z -> Z -> result ndarray)
    (frame_dict : gmap string Z) (frame : ndarray) (default_size : Z * Z)
    (keep : bool) (out : ndarray) :
  frame_dict <> ∅ ->
  create_face_frame cv2_resize frame_dict frame default_size keep false = Ok out ->
  shape out = (Z.to_nat (snd default_size), Z.to_nat (fst default_size)).
Proof.
  intros Hne. unfold create_face_frame. rewrite (dict_nonempty_size _ Hne).
  unfold create_cropped_frame, crop_with_padding_and_center.
  destruct (calculate_padding _ _) as [padded|]; [|discriminate]. cbn [bind].
  destruct (crop_img _ _) as [crop|]; [|discriminate]. cbn [bind].
  apply center_in_frame_shape.
Qed.

(** C10: with [keep_original_timing = True] and [darken = False], a frame
    without detection yields zeros of shape
    [(default_size[0], default_size[1], 3)], whereas [center_in_frame], and
    with it every cropped frame, has shape
    [(default_size[1], default_size[0], 3)]; the two differ as soon as
    [default_size] is not square. *)
Theorem placeholder_shape_transposed
    (cv2_resize : ndarray -> Z -> Z -> result ndarray)
    (frame : ndarray) (size0 size1 : Z) :
  0 <= size0 -> 0 <= size1 ->
  exists placeholder : ndarray,
    create_face_frame cv2_resize ∅ frame (size0, size1) true false = Ok placeholder
    /\ shape placeholder = (Z.to_nat size0, Z.to_nat size1)
    /\ (forall r c : nat, (r < Z.to_nat size0)%nat -> (c < Z.to_nat size1)%nat ->
          pixel_at placeholder r c = Some zero_pixel)
    /\ (forall (img : ndarray) (bg : pixel) (out : ndarray),
          center_in_frame cv2_resize img (size0, size1) bg = Ok out ->
          shape out = (Z.to_nat size1, Z.to_nat size0)
          /\ (size0 <> size1 -> shape out <> shape placeholder))
    /\ (forall (frame_dict : gmap string Z) (frame' : ndarray) (keep : bool)
               (out : ndarray),
          frame_dict <> ∅ ->
          create_face_frame cv2_resize frame_dict frame' (size0, size1) keep false
          = Ok out ->
          shape out = (Z.to_nat size1, Z.to_nat size0)
          /\ (size0 <> size1 -> shape out <> shape placeholder)).
Proof.
  intros H0 H1.
  destruct (np_full_Ok size0 size1 zero_pixel H0 H1)
    as (ph & F & Fr & Fc & _ & Fpix).
  exists ph.
  assert (shape ph = (Z.to_nat size0, Z.to_nat size1)) as Sph
    by (unfold shape; congruence).
  split; [exact F|]. split; [exact Sph|]. split; [exact Fpix|].
  assert (forall out : ndarray,
            shape out = (Z.to_nat size1, Z.to_nat size0) ->
            size0 <> size1 -> shape out <> shape ph) as D.
  { intros out So Hne. rewrite So, Sph. intros [= E _]. lia. }
  split.
  - intros img bg out E. apply center_in_frame_shape in E. cbn [fst snd] in E.
    split; [exact E | apply D, E].
  - intros d frame' keep out Hne E.
    apply create_face_frame_cropped_shape in E; [|exact Hne]. cbn [fst snd] in E.
    split; [exact E | apply D, E].
Qed.

Lemma placeholder_shape_transposed_witness :
  exists placeholder : ndarray,
    create_face_frame nearest_resize ∅ frame_1x2 (640, 480) true false = Ok placeholder
    /\ shape placeholder = (Z.to_nat 640, Z.to_nat 480)
    /\ (forall r c : nat, (r < Z.to_nat 640)%nat -> (c < Z.to_nat 480)%nat ->
          pixel_at placeholder r c = Some zero_pixel)
    /\ (forall (img : ndarray) (bg : pixel) (out : ndarray),
          center_in_frame nearest_resize img (640, 480) bg = Ok out ->
          shape out = (Z.to_nat 480, Z.to_nat 640)
          /\ (640 <> 480 -> shape out <> shape placeholder))
    /\ (forall (frame_dict : gmap string Z) (frame' : ndarray) (keep : bool)
               (out : ndarray),
          frame_dict <> ∅ ->
          create_face_frame nearest_resize frame_dict frame' (640, 480) keep false
          = Ok out ->
          shape out = (Z.to_nat 480, Z.to_nat 640)
          /\ (640 <> 480 -> shape out <> shape placeholder)).
Proof.
  apply (placeholder_shape_transposed nearest_resize frame_1x2 640 480); lia.
Defined.

(** ** create_cropped_video *)

Section Video.

Variable cv2_resize : ndarray -> Z -> Z -> result ndarray.
Variable detections : list (gmap string Z).
Variables darken keep : bool.
Variable default_size : Z * Z.

Local Abbreviation face := (processed cv2_resize detections darken keep default_size).

(** The loop, started at frame index [k] of a stream that is longer than
    the list of detections: either every frame up to the last detection is
    processed, and the frames that are not empty are appended in order, or
    the first frame whose processing raises ends the loop. *)
Lemma read_loop_spec (stream : list ndarray) :
  (length detections < length stream)%nat ->
  forall (n k : nat) (acc : list ndarray),
    (k + n = length detections)%nat ->
    (exists (out : list ndarray) (idxs : list nat),
       read_loop cv2_resize detections darken keep default_size (drop k stream) k acc
       = (Ok (acc ++ out), drop (S (length detections)) stream)
       /\ (length out <= n)%nat
       /\ StronglySorted lt idxs
       /\ Forall (fun i => (k <= i < length detections)%nat) idxs
       /\ Forall2 (fun i f => face stream i (Ok f) /\ size f <> 0%nat) idxs out
       /\ forall i : nat, (k <= i < length detections)%nat ->
            i ∈ idxs \/ exists f, face stream i (Ok f) /\ size f = 0%nat)
    \/ (exists (i : nat) (e : exn),
          (k <= i < length detections)%nat
          /\ face stream i (Raise e)
          /\ read_loop cv2_resize detections darken keep default_size
               (drop k stream) k acc
             = (Raise e, drop (S i) stream)
          /\ forall j : nat, (k <= j < i)%nat -> exists f, face stream j (Ok f)).
Proof.
  intros Hlen. induction n as [|n IH]; intros k acc Hk.
  - left. exists [], []. rewrite Nat.add_0_r in Hk. subst k.
    destruct (lookup_lt_is_Some_2 stream (length detections) Hlen) as [f Hf].
    rewrite (drop_S _ _ _ Hf). cbn [read_loop]. rewrite Nat.leb_refl.
    rewrite app_nil_r. split; [reflexivity|]. split; [cbn; lia|].
    split; [constructor|]. split; [constructor|]. split; [constructor|].
    intros i Hi. lia.
  - assert (k < length detections)%nat as Lk by lia.
    assert (k < length stream)%nat as Lk' by lia.
    destruct (lookup_lt_is_Some_2 stream k Lk') as [f Hf].
    destruct (lookup_lt_is_Some_2 detections k Lk) as [d Hd].
    rewrite (drop_S _ _ _ Hf). cbn [read_loop].
    destruct (Nat.leb_spec (length detections) k) as [|_]; [lia|].
    rewrite Hd.
    destruct (create_face_frame cv2_resize d f default_size keep darken)
      as [ff|e] eqn:E.
    + assert (face stream k (Ok ff)) as Fk by (exists d, f; auto).
      destruct (IH (S k) (if Nat.eqb (size ff) 0 then acc else acc ++ [ff])
                  ltac:(lia))
        as [(out & idxs & Hrun & Hout & Hsort & Hrange & Hall & Hcov)
           |(i & e & Hi & Hraise & Hrun & Hbefore)].
      * left. rewrite Hrun. destruct (Nat.eqb_spec (size ff) 0) as [Z0|NZ].
        -- exists out, idxs. split; [reflexivity|]. split; [lia|].
           split; [exact Hsort|].
           split; [eapply Forall_impl; [exact Hrange|]; cbn; intros; lia|].
           split; [exact Hall|].
           intros i Hi. destruct (decide (i = k)) as [->|Hne].
           ++ right. exists ff. auto.
           ++ apply Hcov. lia.
        -- exists (ff :: out), (k :: idxs). rewrite <- app_assoc.
           split; [reflexivity|]. split; [cbn; lia|].
           split; [constructor; [exact Hsort|];
                   eapply Forall_impl; [exact Hrange|]; cbn; intros; lia|].
           split; [constructor; [lia|];
                   eapply Forall_impl; [exact Hrange|]; cbn; intros; lia|].
           split; [constructor; [split; assumption | exact Hall]|].
           intros i Hi. destruct (decide (i = k)) as [->|Hne].
           ++ left. apply list_elem_of_here.
           ++ destruct (Hcov i ltac:(lia)) as [In|Dropped];
                [left; apply list_elem_of_further, In | right; exact Dropped].
      * right. exists i, e. split; [lia|]. split; [exact Hraise|].
        split; [exact Hrun|].
        intros j Hj. destruct (decide (j = k)) as [->|Hne].
        -- exists ff. exact Fk.
        -- apply Hbefore. lia.
    + right. exists k, e. split; [lia|].
      split; [exists d, f; auto|]. split; [reflexivity|].
      intros j Hj. lia.
Qed.

Variable cv2_VideoCapture : string -> VideoCapture.

(** C9, as amended: a call on an opened video of [N] frames with [M < N]
    detections has one of two outcomes.  Either it processes exactly the
    frames 0 to [M - 1] and returns at most [M] frames, each the non-empty
    face frame of a frame index below [M], in strictly increasing index
    order, the frames after index [M] being left unread; or the
    processing of some frame [i < M] raises: then the call raises that
    exception and returns nothing, the frames before [i] having been
    processed and the frames after [i] left unread. *)
Theorem create_cropped_video_outcome (video_path : string) :
  let cap := cv2_VideoCapture video_path in
  isOpened cap = true ->
  (length detections < length (pending cap))%nat ->
  (exists (out : list ndarray) (idxs : list nat),
     create_cropped_video cv2_resize cv2_VideoCapture video_path detections
       darken keep default_size
     = (Ok out, release cap (drop (S (length detections)) (pending cap)))
     /\ (length out <= length detections)%nat
     /\ StronglySorted lt idxs
     /\ Forall (fun i => (i < length detections)%nat) idxs
     /\ Forall2 (fun i f => face (pending cap) i (Ok f) /\ size f <> 0%nat) idxs out
     /\ forall i : nat, (i < length detections)%nat ->
          i ∈ idxs \/ exists f, face (pending cap) i (Ok f) /\ size f = 0%nat)
  \/ (exists (i : nat) (e : exn),
        (i < length detections)%nat
        /\ face (pending cap) i (Raise e)
        /\ create_cropped_video cv2_resize cv2_VideoCapture video_path detections
             darken keep default_size
           = (Raise e, advance cap (drop (S i) (pending cap)))
        /\ forall j : nat, (j < i)%nat -> exists f, face (pending cap) j (Ok f)).
Proof.
  intros cap Hopen Hlen. unfold create_cropped_video. fold cap.
  rewrite Hopen. cbn [negb].
  destruct (read_loop_spec (pending cap) Hlen (length detections) 0 [] eq_refl)
    as [(out & idxs & Hrun & Hout & Hsort & Hrange & Hall & Hcov)
       |(i & e & Hi & Hraise & Hrun & Hbefore)];
    rewrite drop_0 in Hrun; rewrite Hrun.
  - left. exists out, idxs. split; [reflexivity|]. split; [exact Hout|].
    split; [exact Hsort|].
    split; [eapply Forall_impl; [exact Hrange|]; cbn; intros; lia|].
    split; [exact Hall|].
    intros i Hi. apply Hcov. lia.
  - right. exists i, e. split; [lia|]. split; [exact Hraise|].
    split; [reflexivity|]. intros j Hj. apply Hbefore. lia.
Qed.

(** When no frame that has a detection makes the processing raise, only
    the first outcome remains. *)
Corollary create_cropped_video_truncates (video_path : string) :
  let cap := cv2_VideoCapture video_path in
  isOpened cap = true ->
  (length detections < length (pending cap))%nat ->
  frames_processable cv2_resize detections darken keep default_size (pending cap)
  = true ->
  exists (out : list ndarray) (idxs : list nat),
    create_cropped_video cv2_resize cv2_VideoCapture video_path detections
      darken keep default_size
    = (Ok out, release cap (drop (S (length detections)) (pending cap)))
    /\ (length out <= length detections)%nat
    /\ StronglySorted lt idxs
    /\ Forall (fun i => (i < length detections)%nat) idxs
    /\ Forall2 (fun i f => face (pending cap) i (Ok f) /\ size f <> 0%nat) idxs out
    /\ forall i : nat, (i < length detections)%nat ->
         i ∈ idxs \/ exists f, face (pending cap) i (Ok f) /\ size f = 0%nat.
Proof.
  intros cap Hopen Hlen Hall. unfold create_cropped_video. fold cap.
  rewrite Hopen. cbn [negb].
  destruct (read_loop_spec (pending cap) Hlen (length detections) 0 [] eq_refl)
    as [(out & idxs & Hrun & Hout & Hsort & Hrange & Hfaces & Hcov)
       |(i & e & Hi & (d & f & Hd & Hf & Hraise) & _)].
  - rewrite drop_0 in Hrun. rewrite Hrun.
    exists out, idxs. split; [reflexivity|]. split; [exact Hout|].
    split; [exact Hsort|].
    split; [eapply Forall_impl; [exact Hrange|]; cbn; intros; lia|].
    split; [exact Hfaces|].
    intros i Hi. apply Hcov. lia.
  - exfalso. unfold frames_processable in Hall.
    assert ((d, f) ∈ zip detections (pending cap)) as Hin.
    { apply (list_elem_of_lookup_2 _ i), lookup_zip_with_Some. eauto. }
    apply list_elem_of_In in Hin.
    pose proof (proj1 (forallb_forall _ _) Hall _ Hin) as Hok.
    cbn [fst snd] in Hok. rewrite Hraise in Hok. discriminate.
Qed.

(** C2, as amended: when the source cannot be opened the call raises
    [ValueError]; no frame is read, nothing is produced and the source is
    left as it was. *)
Theorem create_cropped_video_unopened (video_path : string) :
  isOpened (cv2_VideoCapture video_path) = false ->
  create_cropped_video cv2_resize cv2_VideoCapture video_path detections
    darken keep default_size
  = (Raise ValueError, cv2_VideoCapture video_path).
Proof.
  intros H. unfold create_cropped_video. rewrite H. reflexivity.
Qed.

(** C1 fails on the code: the value returned is the list of frames alone.
    Changing the frame rate of the source changes nothing in it. *)
Theorem create_cropped_video_ignores_fps (video_path : string) (rate : float) :
  fst (create_cropped_video cv2_resize
         (fun path => with_fps (cv2_VideoCapture path) rate)
         video_path detections darken keep default_size)
  = fst (create_cropped_video cv2_resize cv2_VideoCapture
           video_path detections darken keep default_size).
Proof.
  unfold create_cropped_video. cbn [with_fps isOpened pending].
  destruct (isOpened (cv2_VideoCapture video_path)); cbn [negb]; [|reflexivity].
  destruct (read_loop _ _ _ _ _ _ _ _) as [[out|e] rest]; reflexivity.
Qed.

End Video.

(** With [darken = True] and detections that are either empty or carry the
    four keys of a box, no frame can fail: the call returns. *)
Lemma create_face_frame_darken_returns
    (cv2_resize : ndarray -> Z -> Z -> result ndarray)
    (frame_dict : gmap string Z) (frame : ndarray) (default_size : Z * Z)
    (keep : bool) :
  frame_dict = ∅
  \/ (exists x y w h : Z,
        frame_dict !! "bb_x" = Some x /\ frame_dict !! "bb_y" = Some y /\
        frame_dict !! "bb_w" = Some w /\ frame_dict !! "bb_h" = Some h) ->
  exists f : ndarray,
    create_face_frame cv2_resize frame_dict frame default_size keep true = Ok f.
Proof.
  intros [->|(x & y & w & h & Hx & Hy & Hw & Hh)].
  - destruct keep; eexists; reflexivity.
  - unfold create_face_frame, create_cropped_frame.
    destruct (negb _).
    + exact (blacken_outside_bounding_box_returns frame frame_dict x y w h
               Hx Hy Hw Hh).
    + destruct keep; eexists; reflexivity.
Qed.

Corollary create_cropped_video_darken_returns
    (cv2_resize : ndarray -> Z -> Z -> result ndarray)
    (cv2_VideoCapture : string -> VideoCapture) (video_path : string)
    (detections : list (gmap string Z)) (keep : bool) (default_size : Z * Z) :
  isOpened (cv2_VideoCapture video_path) = true ->
  (length detections < length (pending (cv2_VideoCapture video_path)))%nat ->
  Forall (fun d : gmap string Z =>
            d = ∅
            \/ (exists x y w h : Z,
                  d !! "bb_x" = Some x /\ d !! "bb_y" = Some y /\
                  d !! "bb_w" = Some w /\ d !! "bb_h" = Some h)) detections ->
  exists out : list ndarray,
    fst (create_cropped_video cv2_resize cv2_VideoCapture video_path detections
           true keep default_size) = Ok out
    /\ (length out <= length detections)%nat.
Proof.
  intros Hopen Hlen Hwf. unfold create_cropped_video. rewrite Hopen. cbn [negb].
  destruct (read_loop_spec cv2_resize detections true keep default_size
              (pending (cv2_VideoCapture video_path)) Hlen
              (length detections) 0 [] eq_refl)
    as [(out & idxs & Hrun & Hout & _)|(i & e & Hi & Hraise & _)].
  - rewrite drop_0 in Hrun. rewrite Hrun. exists out. split; [reflexivity | exact Hout].
  - exfalso. destruct Hraise as (d & f & Hd & _ & E).
    pose proof (proj1 (Forall_lookup _ _) Hwf i d Hd) as Wd.
    destruct (create_face_frame_darken_returns cv2_resize d f default_size keep Wd)
      as (ff & Eff).
    congruence.
Qed.

Lemma create_cropped_video_truncates_witness :
  let cap := three_frames in
  exists (out : list ndarray) (idxs : list nat),
    create_cropped_video nearest_resize (fun _ => three_frames) "video.mp4"
      [bounding_box 0 0 1 1; ∅] true false (512, 512)
    = (Ok out, release cap (drop 3 (pending cap)))
    /\ (length out <= 2)%nat
    /\ StronglySorted lt idxs
    /\ Forall (fun i => (i < 2)%nat) idxs
    /\ Forall2 (fun i f =>
                  processed nearest_resize [bounding_box 0 0 1 1; ∅] true false
                    (512, 512) (pending cap) i (Ok f)
                  /\ size f <> 0%nat) idxs out
    /\ forall i : nat, (i < 2)%nat ->
         i ∈ idxs
         \/ exists f,
              processed nearest_resize [bounding_box 0 0 1 1; ∅] true false
                (512, 512) (pending cap) i (Ok f)
              /\ size f = 0%nat.
Proof.
  apply (create_cropped_video_truncates nearest_resize
           [bounding_box 0 0 1 1; ∅] true false (512, 512)
           (fun _ => three_frames) "video.mp4");
    [reflexivity | cbn; lia | vm_compute; reflexivity].
Defined.

Example create_cropped_video_three_frames :
  create_cropped_video nearest_resize (fun _ => three_frames) "video.mp4"
    [bounding_box 0 0 1 1; ∅] true false (512, 512)
  = (Ok [{| ncols := 2; rows := [[(1, 1, 1); zero_pixel]] |}],
     release three_frames []).
Proof. vm_compute. reflexivity. Qed.

Lemma create_cropped_video_outcome_witness :
  let cap := three_frames in
  (exists (out : list ndarray) (idxs : list nat),
     create_cropped_video nearest_resize (fun _ => three_frames) "video.mp4"
       [bounding_box 0 0 1 1; ∅] true false (512, 512)
     = (Ok out, release cap (drop 3 (pending cap)))
     /\ (length out <= 2)%nat
     /\ StronglySorted lt idxs
     /\ Forall (fun i => (i < 2)%nat) idxs
     /\ Forall2 (fun i f =>
                   processed nearest_resize [bounding_box 0 0 1 1; ∅] true false
                     (512, 512) (pending cap) i (Ok f)
                   /\ size f <> 0%nat) idxs out
     /\ forall i : nat, (i < 2)%nat ->
          i ∈ idxs
          \/ exists f,
               processed nearest_resize [bounding_box 0 0 1 1; ∅] true false
                 (512, 512) (pending cap) i (Ok f)
               /\ size f = 0%nat)
  \/ (exists (i : nat) (e : exn),
        (i < 2)%nat
        /\ processed nearest_resize [bounding_box 0 0 1 1; ∅] true false
             (512, 512) (pending cap) i (Raise e)
        /\ create_cropped_video nearest_resize (fun _ => three_frames) "video.mp4"
             [bounding_box 0 0 1 1; ∅] true false (512, 512)
           = (Raise e, advance cap (drop (S i) (pending cap)))
        /\ forall j : nat, (j < i)%nat ->
             exists f,
               processed nearest_resize [bounding_box 0 0 1 1; ∅] true false
                 (512, 512) (pending cap) j (Ok f)).
Proof.
  apply (create_cropped_video_outcome nearest_resize
           [bounding_box 0 0 1 1; ∅] true false (512, 512)
           (fun _ => three_frames) "video.mp4");
    [reflexivity | cbn; lia].
Defined.

(** C9 as stated fails: a video of 3 frames with 2 detections, [M < N],
    need not have its frames 0 and 1 processed.  With [darken = False] a
    box of height 0 that is wider than the canvas makes [resize_to_fit]
    divide by zero at frame 0: the call raises there, returns no list, and
    frame 1 is never read. *)
Example create_cropped_video_zero_height :
  create_cropped_video nearest_resize (fun _ => three_frames) "video.mp4"
    [bounding_box 0 0 2 0; ∅] false false (1, 1)
  = (Raise ZeroDivisionError, advance three_frames [frame_2x3; frame_1x2]).
Proof. vm_compute. reflexivity. Qed.

Lemma create_cropped_video_unopened_witness :
  create_cropped_video nearest_resize (fun _ => closed_source) "missing.mp4"
    [∅] true true (512, 512)
  = (Raise ValueError, closed_source).
Proof.
  apply (create_cropped_video_unopened nearest_resize [∅] true true (512, 512)
           (fun _ => closed_source) "missing.mp4").
  reflexivity.
Defined.

(** C2 as stated fails: the exception raised is not [IOError]. *)
Lemma create_cropped_video_unopened_counterexample :
  fst (create_cropped_video nearest_resize (fun _ => closed_source) "missing.mp4"
         [∅] true true (512, 512))
  <> Raise IOError.
Proof. vm_compute. discriminate. Qed.

(** * Further properties of the module *)

(** ** blacken_outside_bounding_box on any box *)

(** The mask of any box that has its four keys: the pixel at [(r, c)] is
    the pixel of the frame when both slices select the position, and zero
    otherwise. *)
Lemma blacken_mask (frame : ndarray) (bb_dict : gmap string Z) (x y w h : Z) :
  bb_dict !! "bb_x" = Some x -> bb_dict !! "bb_y" = Some y ->
  bb_dict !! "bb_w" = Some w -> bb_dict !! "bb_h" = Some h ->
  exists mask : ndarray,
    blacken_outside_bounding_box frame bb_dict = Ok mask
    /\ shape mask = shape frame
    /\ (rectangular frame -> rectangular mask)
    /\ forall r c : nat,
         pixel_at mask r c
         = (fun p => if in_slice (nrows frame) y (y + h) r
                        && in_slice (ncols frame) x (x + w) c
                     then p else zero_pixel) <$> pixel_at frame r c.
Proof.
  intros Hx Hy Hw Hh.
  destruct (blacken_outside_bounding_box_returns frame bb_dict x y w h Hx Hy Hw Hh)
    as (mask & E).
  exists mask. split; [exact E|].
  unfold blacken_outside_bounding_box in E. revert E. read_box Hx Hy Hw Hh.
  intros E.
  assert (nrows (np_zeros_like frame) = nrows frame) as Zr
    by (unfold nrows, np_zeros_like; cbn; apply length_map).
  assert (ncols (np_zeros_like frame) = ncols frame) as Zc by reflexivity.
  apply setslice_Ok in E as (Hn & Hc & Hrect & Hpix).
  split; [unfold shape; congruence|].
  split; [intros R; apply Hrect, rectangular_zeros_like, R|].
  intros r c. rewrite Hpix, pixel_at_zeros_like.
  destruct (pixel_at frame r c) as [p|] eqn:Hp; [|reflexivity].
  cbn. f_equal. unfold assigned, in_slice. rewrite Zr, Zc, nrows_getslice.
  cbn [getslice ncols]. rewrite !broadcast_index_same.
  destruct (Nat.leb_spec (slice_index (nrows frame) y) r); cbn [andb];
    [|reflexivity].
  destruct (Nat.ltb_spec r (slice_index (nrows frame) (y + h))); cbn [andb];
    [|reflexivity].
  destruct (Nat.leb_spec (slice_index (ncols frame) x) c); cbn [andb];
    [|reflexivity].
  destruct (Nat.ltb_spec c (slice_index (ncols frame) (x + w))); cbn [andb];
    [|reflexivity].
  rewrite pixel_at_getslice by lia.
  replace (slice_index (nrows frame) y + (r - slice_index (nrows frame) y))%nat
    with r by lia.
  replace (slice_index (ncols frame) x + (c - slice_index (ncols frame) x))%nat
    with c by lia.
  rewrite Hp. reflexivity.
Qed.

(** Two rectangular arrays of the same shape that agree on every pixel
    are equal. *)
Lemma ndarray_ext (a b : ndarray) :
  rectangular a -> rectangular b -> shape a = shape b ->
  (forall r c : nat, pixel_at a r c = pixel_at b r c) -> a = b.
Proof.
  destruct a as [ca ra], b as [cb rb].
  unfold rectangular, shape, nrows, pixel_at. cbn [ncols rows].
  intros Ra Rb [= Hn Hc] Hpix. subst cb. f_equal.
  apply list_eq. intros r.
  destruct (ra !! r) as [rowa|] eqn:Ea, (rb !! r) as [rowb|] eqn:Eb.
  - f_equal. apply list_eq. intros c.
    specialize (Hpix r c). rewrite Ea, Eb in Hpix. exact Hpix.
  - apply lookup_lt_Some in Ea. apply lookup_ge_None in Eb. lia.
  - apply lookup_lt_Some in Eb. apply lookup_ge_None in Ea. lia.
  - reflexivity.
Qed.

(** Whatever the box, positive, negative or outside the frame, masking
    keeps the shape of the frame and never moves a pixel: each pixel of the
    mask is the pixel of the frame at the same place, when the row slice
    [y:y+h] and the column slice [x:x+w] select it, or black. *)
Theorem blacken_outside_bounding_box_any_box (frame : ndarray)
    (bb_dict : gmap string Z) (x y w h : Z) :
  bb_dict !! "bb_x" = Some x -> bb_dict !! "bb_y" = Some y ->
  bb_dict !! "bb_w" = Some w -> bb_dict !! "bb_h" = Some h ->
  exists mask : ndarray,
    blacken_outside_bounding_box frame bb_dict = Ok mask
    /\ shape mask = shape frame
    /\ (rectangular frame -> rectangular mask)
    /\ forall (r c : nat) (p : pixel),
         pixel_at frame r c = Some p ->
         pixel_at mask r c
         = Some (if in_slice (nrows frame) y (y + h) r
                    && in_slice (ncols frame) x (x + w) c
                 then p else zero_pixel).
Proof.
  intros Hx Hy Hw Hh.
  destruct (blacken_mask frame bb_dict x y w h Hx Hy Hw Hh)
    as (mask & E & Hs & Hr & Hpix).
  exists mask. repeat split; try assumption.
  intros r c p Hp. rewrite Hpix, Hp. reflexivity.
Qed.

Lemma blacken_outside_bounding_box_any_box_witness :
  exists mask : ndarray,
    blacken_outside_bounding_box frame_2x3 (bounding_box (-2) (-1) 5 7) = Ok mask
    /\ shape mask = shape frame_2x3
    /\ (rectangular frame_2x3 -> rectangular mask)
    /\ forall (r c : nat) (p : pixel),
         pixel_at frame_2x3 r c = Some p ->
         pixel_at mask r c
         = Some (if in_slice (nrows frame_2x3) (-1) (-1 + 7) r
                    && in_slice (ncols frame_2x3) (-2) (-2 + 5) c
                 then p else zero_pixel).
Proof.
  apply (blacken_outside_bounding_box_any_box frame_2x3
           (bounding_box (-2) (-1) 5 7) (-2) (-1) 5 7); reflexivity.
Defined.

(** Masking twice with the same box changes nothing more. *)
Theorem blacken_outside_bounding_box_idempotent (frame mask : ndarray)
    (bb_dict : gmap string Z) :
  rectangular frame ->
  blacken_outside_bounding_box frame bb_dict = Ok mask ->
  blacken_outside_bounding_box mask bb_dict = Ok mask.
Proof.
  intros R E.
  assert (exists x y w h : Z,
            bb_dict !! "bb_x" = Some x /\ bb_dict !! "bb_y" = Some y /\
            bb_dict !! "bb_w" = Some w /\ bb_dict !! "bb_h" = Some h)
    as (x & y & w & h & Hx & Hy & Hw & Hh).
  { unfold blacken_outside_bounding_box, getitem_dict in E.
    destruct (bb_dict !! "bb_x") as [x|]; [|discriminate].
    destruct (bb_dict !! "bb_y") as [y|]; [|discriminate].
    destruct (bb_dict !! "bb_w") as [w|]; [|discriminate].
    destruct (bb_dict !! "bb_h") as [h|]; [|discriminate].
    exists x, y, w, h. auto. }
  destruct (blacken_mask frame bb_dict x y w h Hx Hy Hw Hh)
    as (m1 & E1 & S1 & R1 & P1).
  rewrite E in E1. injection E1 as <-.
  destruct (blacken_mask mask bb_dict x y w h Hx Hy Hw Hh)
    as (m2 & E2 & S2 & R2 & P2).
  rewrite E2. f_equal.
  apply ndarray_ext; [apply R2, R1, R | apply R1, R | exact S2 |].
  intros r c. rewrite P2, P1.
  injection S1 as -> ->.
  destruct (pixel_at frame r c) as [p|]; [|reflexivity]. cbn.
  destruct (in_slice _ _ _ r && in_slice _ _ _ c); reflexivity.
Qed.

Lemma blacken_outside_bounding_box_idempotent_witness :
  blacken_outside_bounding_box
    {| ncols := 3; rows := [[zero_pixel; (2, 2, 2); zero_pixel];
                            [zero_pixel; (5, 5, 5); zero_pixel]] |}
    (bounding_box 1 0 1 2)
  = Ok {| ncols := 3; rows := [[zero_pixel; (2, 2, 2); zero_pixel];
                               [zero_pixel; (5, 5, 5); zero_pixel]] |}.
Proof.
  apply (blacken_outside_bounding_box_idempotent frame_2x3);
    [repeat constructor | vm_compute; reflexivity].
Defined.

Lemma in_slice_empty (n : nat) (lo : Z) (k : nat) : in_slice n lo (lo + 0) k = false.
Proof.
  unfold in_slice. rewrite Z.add_0_r.
  destruct (Nat.leb_spec (slice_index n lo) k), (Nat.ltb_spec k (slice_index n lo));
    cbn; try reflexivity; lia.
Qed.

Lemma in_slice_whole (n : nat) (len : Z) (k : nat) :
  Z.of_nat n <= len -> (k < n)%nat -> in_slice n 0 (0 + len) k = true.
Proof.
  intros Hlen Hk. unfold in_slice. rewrite !slice_index_nonneg by lia.
  destruct (Nat.leb_spec (Z.to_nat (Z.min 0 (Z.of_nat n))) k),
    (Nat.ltb_spec k (Z.to_nat (Z.min (0 + len) (Z.of_nat n))));
    cbn; try reflexivity; lia.
Qed.

(** A box at the origin that is at least as large as the frame keeps the
    whole frame. *)
Theorem blacken_outside_bounding_box_whole_frame (frame : ndarray)
    (bb_dict : gmap string Z) (w h : Z) :
  rectangular frame ->
  bb_dict !! "bb_x" = Some 0 -> bb_dict !! "bb_y" = Some 0 ->
  bb_dict !! "bb_w" = Some w -> bb_dict !! "bb_h" = Some h ->
  Z.of_nat (ncols frame) <= w -> Z.of_nat (nrows frame) <= h ->
  blacken_outside_bounding_box frame bb_dict = Ok frame.
Proof.
  intros R Hx Hy Hw Hh Lw Lh.
  destruct (blacken_mask frame bb_dict 0 0 w h Hx Hy Hw Hh)
    as (mask & E & Hs & Hr & Hpix).
  rewrite E. f_equal. apply ndarray_ext; [apply Hr, R | exact R | exact Hs |].
  intros r c. rewrite Hpix.
  destruct (pixel_at frame r c) as [p|] eqn:Hp; [|reflexivity].
  destruct (pixel_at_Some_lt _ _ _ _ R Hp) as [Lr Lc]. cbn.
  rewrite (in_slice_whole _ _ _ Lh Lr), (in_slice_whole _ _ _ Lw Lc). reflexivity.
Qed.

Lemma blacken_outside_bounding_box_whole_frame_witness :
  blacken_outside_bounding_box frame_2x3 (bounding_box 0 0 640 480) = Ok frame_2x3.
Proof.
  apply (blacken_outside_bounding_box_whole_frame frame_2x3
           (bounding_box 0 0 640 480) 640 480);
    solve [repeat constructor | reflexivity | vm_compute; discriminate].
Defined.

(** A box of width 0 or of height 0, wherever it lies, blackens the whole
    frame. *)
Theorem blacken_outside_bounding_box_empty_box (frame : ndarray)
    (bb_dict : gmap string Z) (x y w h : Z) :
  rectangular frame ->
  bb_dict !! "bb_x" = Some x -> bb_dict !! "bb_y" = Some y ->
  bb_dict !! "bb_w" = Some w -> bb_dict !! "bb_h" = Some h ->
  w = 0 \/ h = 0 ->
  blacken_outside_bounding_box frame bb_dict = Ok (np_zeros_like frame).
Proof.
  intros R Hx Hy Hw Hh Hempty.
  destruct (blacken_mask frame bb_dict x y w h Hx Hy Hw Hh)
    as (mask & E & Hs & Hr & Hpix).
  rewrite E. f_equal.
  apply ndarray_ext; [apply Hr, R | apply rectangular_zeros_like, R | |].
  - rewrite Hs. unfold shape, nrows, np_zeros_like. cbn. rewrite length_map.
    reflexivity.
  - intros r c. rewrite Hpix, pixel_at_zeros_like.
    destruct (pixel_at frame r c) as [p|]; [|reflexivity]. cbn.
    destruct Hempty as [-> | ->]; rewrite in_slice_empty;
      [rewrite andb_false_r|]; reflexivity.
Qed.

Lemma blacken_outside_bounding_box_empty_box_witness :
  blacken_outside_bounding_box frame_2x3 (bounding_box (-1) 1 0 2)
  = Ok (np_zeros_like frame_2x3).
Proof.
  apply (blacken_outside_bounding_box_empty_box frame_2x3
           (bounding_box (-1) 1 0 2) (-1) 1 0 2);
    solve [repeat constructor | reflexivity | left; reflexivity].
Defined.

(** ** crop_img *)

Lemma rectangular_getslice (a : ndarray) (y0 y1 x0 x1 : Z) :
  rectangular a -> rectangular (getslice a y0 y1 x0 x1).
Proof.
  unfold rectangular, getslice. cbn [rows ncols]. intros R.
  apply Forall_fmap. unfold list_slice at 2.
  apply Forall_take, Forall_drop. eapply Forall_impl; [exact R|].
  intros row L. cbn. apply length_list_slice. rewrite L. apply slice_index_le.
Qed.

(** The slice [img[y:y+h, x:x+w]] for non-negative [x], [y], [w], [h]. *)
Lemma getslice_nonneg (img : ndarray) (x y w h : Z) :
  0 <= x -> 0 <= y -> 0 <= w -> 0 <= h ->
  let roi := getslice img y (y + h) x (x + w) in
  Z.of_nat (nrows roi) = Z.max 0 (Z.min h (Z.of_nat (nrows img) - y))
  /\ Z.of_nat (ncols roi) = Z.max 0 (Z.min w (Z.of_nat (ncols img) - x))
  /\ forall r c : nat,
       (r < nrows roi)%nat -> (c < ncols roi)%nat ->
       pixel_at roi r c = pixel_at img (Z.to_nat y + r) (Z.to_nat x + c).
Proof.
  intros Nx Ny Nw Nh roi.
  assert (nrows roi
          = (slice_index (nrows img) (y + h) - slice_index (nrows img) y)%nat) as Er
    by apply nrows_getslice.
  assert (ncols roi
          = (slice_index (ncols img) (x + w) - slice_index (ncols img) x)%nat) as Ec
    by reflexivity.
  rewrite Er, Ec. rewrite !slice_index_nonneg by lia.
  split; [lia|]. split; [lia|].
  intros r c Lr Lc. unfold roi.
  rewrite pixel_at_getslice by (rewrite !slice_index_nonneg by lia; lia).
  rewrite !slice_index_nonneg by lia. f_equal; lia.
Qed.

(** For a box with non-negative coordinates and sizes the crop is the part
    of the box that lies in the image: it has [min(h, H - y)] rows and
    [min(w, W - x)] columns (none when the box starts outside the image),
    and its pixel [(r, c)] is the pixel [(y + r, x + c)] of the image.  A
    box that sticks out of the image is cut, not an error. *)
Theorem crop_img_spec (img : ndarray) (bb_dict : gmap string Z) (x y w h : Z) :
  bb_dict !! "bb_x" = Some x -> bb_dict !! "bb_y" = Some y ->
  bb_dict !! "bb_w" = Some w -> bb_dict !! "bb_h" = Some h ->
  0 <= x -> 0 <= y -> 0 <= w -> 0 <= h ->
  exists roi : ndarray,
    crop_img img bb_dict = Ok roi
    /\ Z.of_nat (nrows roi) = Z.max 0 (Z.min h (Z.of_nat (nrows img) - y))
    /\ Z.of_nat (ncols roi) = Z.max 0 (Z.min w (Z.of_nat (ncols img) - x))
    /\ (rectangular img -> rectangular roi)
    /\ forall r c : nat,
         (r < nrows roi)%nat -> (c < ncols roi)%nat ->
         pixel_at roi r c = pixel_at img (Z.to_nat y + r) (Z.to_nat x + c).
Proof.
  intros Hx Hy Hw Hh Nx Ny Nw Nh. unfold crop_img. read_box Hx Hy Hw Hh.
  destruct (getslice_nonneg img x y w h Nx Ny Nw Nh) as (Er & Ec & Hpix).
  eexists. split; [reflexivity|]. split; [exact Er|]. split; [exact Ec|].
  split; [apply rectangular_getslice | exact Hpix].
Qed.

Lemma crop_img_spec_witness :
  exists roi : ndarray,
    crop_img frame_2x3 (bounding_box 1 1 5 5) = Ok roi
    /\ Z.of_nat (nrows roi) = Z.max 0 (Z.min 5 (Z.of_nat (nrows frame_2x3) - 1))
    /\ Z.of_nat (ncols roi) = Z.max 0 (Z.min 5 (Z.of_nat (ncols frame_2x3) - 1))
    /\ (rectangular frame_2x3 -> rectangular roi)
    /\ forall r c : nat,
         (r < nrows roi)%nat -> (c < ncols roi)%nat ->
         pixel_at roi r c = pixel_at frame_2x3 (Z.to_nat 1 + r) (Z.to_nat 1 + c).
Proof.
  apply (crop_img_spec frame_2x3 (bounding_box 1 1 5 5) 1 1 5 5);
    solve [reflexivity | lia].
Defined.

(** A box that hangs over the left or the upper edge of the image is not
    cut at that edge: its negative coordinate counts from the far edge, as
    every negative slice bound does, and when the box is no larger than the
    image in that direction the crop is empty. *)
Theorem crop_img_negative_origin (img : ndarray) (bb_dict : gmap string Z)
    (x y w h : Z) :
  bb_dict !! "bb_x" = Some x -> bb_dict !! "bb_y" = Some y ->
  bb_dict !! "bb_w" = Some w -> bb_dict !! "bb_h" = Some h ->
  (x < 0 <= x + w /\ w <= Z.of_nat (ncols img))
  \/ (y < 0 <= y + h /\ h <= Z.of_nat (nrows img)) ->
  exists roi : ndarray, crop_img img bb_dict = Ok roi /\ size roi = 0%nat.
Proof.
  intros Hx Hy Hw Hh Hneg. unfold crop_img. read_box Hx Hy Hw Hh.
  eexists. split; [reflexivity|]. unfold size. rewrite nrows_getslice.
  cbn [getslice ncols]. unfold slice_index.
  destruct Hneg as [[[Lx Ux] Bw]|[[Ly Uy] Bh]].
  - destruct (Z.ltb_spec x 0); [|lia]. destruct (Z.ltb_spec (x + w) 0); [lia|].
    replace (Z.to_nat (Z.min (x + w) (Z.of_nat (ncols img)))
             - Z.to_nat (Z.max (x + Z.of_nat (ncols img)) 0))%nat with 0%nat by lia.
    lia.
  - destruct (Z.ltb_spec y 0); [|lia]. destruct (Z.ltb_spec (y + h) 0); [lia|].
    replace (Z.to_nat (Z.min (y + h) (Z.of_nat (nrows img)))
             - Z.to_nat (Z.max (y + Z.of_nat (nrows img)) 0))%nat with 0%nat by lia.
    lia.
Qed.

Lemma crop_img_negative_origin_witness :
  exists roi : ndarray,
    crop_img frame_2x3 (bounding_box (-1) 0 2 2) = Ok roi /\ size roi = 0%nat.
Proof.
  apply (crop_img_negative_origin frame_2x3 (bounding_box (-1) 0 2 2) (-1) 0 2 2);
    solve [reflexivity | left; cbn; lia].
Defined.

(** ** calculate_padding with the padding of 10% *)

(** Rounding a product never goes below an integer that the exact
    product reaches, as long as the integers are floats of the result's
    exponent. *)
Lemma mul_ge_int (m1 m2 : positive) (e1 e2 K : Z) :
  2 ^ (Float.prec - 1) <= Z.pos m1 < 2 ^ Float.prec ->
  2 ^ (Float.prec - 1) <= Z.pos m2 < 2 ^ Float.prec ->
  - 400 <= e1 <= 400 -> - 400 <= e2 <= 400 -> e1 + e2 + 53 <= 0 ->
  (inject_Z K <= Float.to_Q (S754_finite false m1 e1)
                 * Float.to_Q (S754_finite false m2 e2))%Q ->
  (inject_Z K
   <= Float.to_Q (Float.mul (S754_finite false m1 e1) (S754_finite false m2 e2)))%Q.
Proof.
  intros H1 H2 He1 He2 Hgrid HK.
  assert (Float.prec = 53) as Eprec by reflexivity.
  assert (emin Float.prec Float.emax = - 1074) as Eemin by reflexivity.
  assert (Float.emax = 1024) as Eemax by reflexivity.
  change (2 ^ (Float.prec - 1)) with 4503599627370496 in H1, H2.
  change (2 ^ Float.prec) with 9007199254740992 in H1, H2.
  set (M := (m1 * m2)%positive).
  set (e := e1 + e2).
  set (n := Zdigits2 (Z.pos M) - Float.prec).
  assert (52 <= n <= 53) as Hn.
  { unfold n, M. rewrite Pos2Z.inj_mul.
    destruct (Z_lt_le_dec (Z.pos m1 * Z.pos m2) (2 ^ 105)) as [L|G].
    - rewrite <- Pos2Z.inj_mul. rewrite (Zdigits2_unique (m1 * m2) 105); [lia|].
      rewrite Pos2Z.inj_mul. change (2 ^ (105 - 1)) with (4503599627370496 * 4503599627370496).
      split; [nia | exact L].
    - rewrite <- Pos2Z.inj_mul. rewrite (Zdigits2_unique (m1 * m2) 106); [lia|].
      rewrite Pos2Z.inj_mul. change (2 ^ (106 - 1)) with (2 ^ 105).
      change (2 ^ 106) with (9007199254740992 * 9007199254740992).
      split; [exact G | nia]. }
  destruct (binary_round_aux_normal false M e loc_Exact)
    as (m' & e' & k & Hf & Hm' & Hk & _ & Hcase); [fold n; lia..|].
  fold n in Hk, Hcase.
  change (Float.mul (S754_finite false m1 e1) (S754_finite false m2 e2))
    with (binary_round_aux Float.prec Float.emax false (Z.pos M) e loc_Exact).
  rewrite Hf.
  assert (Float.to_Q (S754_finite false m' e') == inject_Z k * Qpower 2 (e + n))%Q
    as ->.
  { unfold Float.to_Q. cbn [cond_Zopp].
    destruct Hcase as [[-> ->]|(Ek & Em & ->)]; [reflexivity|].
    rewrite Em, Ek. rewrite (Qpower_2_add (e + n) 1).
    change (inject_Z (2 ^ (Float.prec - 1))) with (4503599627370496 # 1)%Q.
    change (inject_Z (2 ^ Float.prec)) with (9007199254740992 # 1)%Q.
    change (Qpower 2 1) with 2%Q. ring. }
  (* the integers involved *)
  set (g := - (e + n)).
  assert (0 <= g) as Hg by (unfold g, e; lia).
  assert (0 < 2 ^ n) as Pn by (apply Z.pow_pos_nonneg; lia).
  assert (0 < 2 ^ g) as Pg by (apply Z.pow_pos_nonneg; lia).
  assert (K * 2 ^ (- e) <= Z.pos M) as HZ.
  { unfold Float.to_Q in HK. cbn [cond_Zopp] in HK.
    assert (inject_Z (Z.pos m1) * Qpower 2 e1 * (inject_Z (Z.pos m2) * Qpower 2 e2)
            == inject_Z (Z.pos M) * Qpower 2 e)%Q as Ey.
    { unfold M, e. rewrite Pos2Z.inj_mul, inject_Z_mult, Qpower_2_add. ring. }
    rewrite Ey in HK.
    apply (scale_le _ _ (Qpower 2 (- e)) (Qpower_2_pos _)) in HK.
    rewrite <- Qmult_assoc, <- Qpower_2_add in HK.
    replace (e + - e) with 0 in HK by lia.
    change (Qpower 2 0) with 1%Q in HK. rewrite Qmult_1_r in HK.
    rewrite <- inject_Z_pow2 in HK by (unfold e; lia).
    rewrite <- inject_Z_mult in HK. rewrite <- Zle_Qle in HK. exact HK. }
  assert (K * 2 ^ g <= k) as Hkk.
  { apply Z.le_trans with (Z.pos M / 2 ^ n); [|lia].
    apply Z.div_le_lower_bound; [exact Pn|].
    replace (- e) with (n + g) in HZ by (unfold g; lia).
    rewrite Z.pow_add_r in HZ by lia. lia. }
  rewrite (Zle_Qle (K * 2 ^ g) k) in Hkk.
  rewrite inject_Z_mult, inject_Z_pow2 in Hkk by exact Hg.
  apply (scale_le _ _ (Qpower 2 (e + n)) (Qpower_2_pos _)) in Hkk.
  rewrite <- Qmult_assoc, <- Qpower_2_add in Hkk.
  replace (g + (e + n)) with 0 in Hkk by (unfold g; lia).
  change (Qpower 2 0) with 1%Q in Hkk. rewrite Qmult_1_r in Hkk. exact Hkk.
Qed.

Lemma Qfloor_unique (q : Q) (k : Z) :
  (inject_Z k <= q)%Q -> (q < inject_Z k + 1)%Q -> Qfloor q = k.
Proof.
  intros Hlo Hhi. apply Z.le_antisymm.
  - pose proof (Qfloor_le q) as L.
    assert (inject_Z (Qfloor q) < inject_Z (k + 1))%Q as H
      by (rewrite inject_Z_plus; eapply Qle_lt_trans; eassumption).
    rewrite <- Zlt_Qlt in H. lia.
  - rewrite <- (Qfloor_Z k). apply Qfloor_resp_le, Hlo.
Qed.

(** [int(n * 0.1)] is [n // 10] for every [0 <= n < 2^31], although [0.1]
    is not a float: the nearest float lies above one tenth by less than
    the rounding can carry to the next integer. *)
Lemma int_mul_tenth (n : Z) :
  0 <= n < 2 ^ 31 ->
  exists p : float,
    Float.int_mul n Float.lit_0_1 = Ok p /\ Float.is_finite p = true
    /\ Qfloor (Float.to_Q p) = n / 10.
Proof.
  intros Hn. destruct (Z.eq_dec n 0) as [->|Nn].
  - exists (S754_zero false). repeat split; reflexivity.
  - assert (2 ^ 31 = 2147483648) as P31 by reflexivity.
    assert (2 ^ 31 < 2 ^ Float.prec) as P by reflexivity.
    destruct (of_int_exact n ltac:(lia)) as (nf & En & Nn' & Vn).
    destruct (normal_pos_inv _ _ _ Nn') as (mn & en & -> & _ & Cn & Rn).
    assert (2 ^ (Float.prec - 1) <= 7205759403792794 < 2 ^ Float.prec) as C01
      by (split; [vm_compute; discriminate | reflexivity]).
    destruct (mul_value mn 7205759403792794 en (-56) Cn C01 ltac:(lia) ltac:(lia))
      as (Np & _ & Up).
    change (S754_finite false 7205759403792794 (-56)) with Float.lit_0_1 in Np, Up.
    assert (Float.to_Q Float.lit_0_1 == 7205759403792794 # 72057594037927936)%Q
      as V01 by reflexivity.
    pose proof (Z.div_mod n 10 ltac:(lia)) as Hdm.
    pose proof (Z.mod_pos_bound n 10 ltac:(lia)) as Hmod.
    set (K := n / 10) in *.
    assert (inject_Z n == 10 * inject_Z K + inject_Z (n mod 10))%Q as EnQ.
    { rewrite Hdm at 1. rewrite inject_Z_plus, inject_Z_mult. reflexivity. }
    assert (0 <= inject_Z (n mod 10) <= 9)%Q as [M0 M9].
    { split.
      - change 0%Q with (inject_Z 0). rewrite <- Zle_Qle. lia.
      - change 9%Q with (inject_Z 9). rewrite <- Zle_Qle. lia. }
    assert (0 <= inject_Z K <= 214748364)%Q as [K0 K1].
    { split.
      - change 0%Q with (inject_Z 0). rewrite <- Zle_Qle. lia.
      - change 214748364%Q with (inject_Z 214748364). rewrite <- Zle_Qle. lia. }
    pose proof (mul_ge_int mn 7205759403792794 en (-56) K Cn C01
                  ltac:(lia) ltac:(lia) ltac:(lia)) as Lp.
    change (S754_finite false 7205759403792794 (-56)) with Float.lit_0_1 in Lp.
    exists (Float.mul (S754_finite false mn en) Float.lit_0_1).
    split; [unfold Float.int_mul; rewrite En; reflexivity|].
    split.
    { destruct (Float.mul _ _) as [| | |[] mp ep]; try contradiction. reflexivity. }
    apply Qfloor_unique.
    + apply Lp. rewrite Vn, V01, EnQ. lra.
    + eapply Qle_lt_trans; [exact Up|]. rewrite Vn, V01, EnQ. unfold Float.u. lra.
Qed.

(** With the padding of 10% that the module passes, the padding on each
    side is exactly a tenth of the size, rounded down: the padded box is
    [(max(0, x - w // 10), max(0, y - h // 10), w + 2 * (w // 10),
    h + 2 * (h // 10))], for every box with sizes below [2^31] and any
    position. *)
Theorem calculate_padding_ten_percent (bb_dict : gmap string Z) (x y w h : Z) :
  bb_dict !! "bb_x" = Some x -> bb_dict !! "bb_y" = Some y ->
  bb_dict !! "bb_w" = Some w -> bb_dict !! "bb_h" = Some h ->
  0 <= w < 2 ^ 31 -> 0 <= h < 2 ^ 31 ->
  calculate_padding bb_dict Float.lit_0_1
  = Ok (bounding_box (Z.max 0 (x - w / 10)) (Z.max 0 (y - h / 10))
                     (w + 2 * (w / 10)) (h + 2 * (h / 10))).
Proof.
  intros Hx Hy Hw Hh Nw Nh.
  destruct (int_mul_tenth w Nw) as (wp & Ewp & Fwp & Vwp).
  destruct (int_mul_tenth h Nh) as (hp & Ehp & Fhp & Vhp).
  rewrite (calculate_padding_trunc _ _ _ _ _ _ _ _ Hx Hy Hw Hh Ewp Fwp Ehp Fhp).
  rewrite (trunc_int_mul_floor w Float.lit_0_1 wp ltac:(lia) eq_refl Ewp Fwp).
  rewrite (trunc_int_mul_floor h Float.lit_0_1 hp ltac:(lia) eq_refl Ehp Fhp).
  rewrite Vwp, Vhp. reflexivity.
Qed.

Lemma calculate_padding_ten_percent_witness :
  calculate_padding (bounding_box 3 7 1919 1080) Float.lit_0_1
  = Ok (bounding_box (Z.max 0 (3 - 1919 / 10)) (Z.max 0 (7 - 1080 / 10))
                     (1919 + 2 * (1919 / 10)) (1080 + 2 * (1080 / 10))).
Proof.
  apply (calculate_padding_ten_percent (bounding_box 3 7 1919 1080) 3 7 1919 1080);
    solve [reflexivity | split; [vm_compute; discriminate | reflexivity]].
Defined.

(** ** calculate_padding: containment and errors *)

Lemma int_mul_floor_nonneg (n : Z) (x p : float) :
  0 <= n -> Float.leb Float.zero x = true ->
  Float.int_mul n x = Ok p -> Float.is_finite p = true ->
  0 <= Qfloor (Float.to_Q p).
Proof.
  intros Hn Hx Hp Hfin.
  change 0 with (Qfloor 0). apply Qfloor_resp_le, leb_zero_to_Q.
  unfold Float.int_mul in Hp.
  destruct (Float.of_int n) as [nf|] eqn:E; [|discriminate].
  injection Hp as <-.
  apply mul_nonneg; [eapply of_int_nonneg; eassumption | exact Hx | exact Hfin].
Qed.

(** The padded box contains the box it was computed from: for a box inside
    the first quadrant and a padding percentage [p >= 0], the padded origin
    is not beyond the original one, the padded far edges are not before
    the original ones, and no size shrinks. *)
Theorem calculate_padding_contains (bb_dict : gmap string Z) (p : float)
    (x y w h : Z) (wp hp : float) :
  bb_dict !! "bb_x" = Some x -> bb_dict !! "bb_y" = Some y ->
  bb_dict !! "bb_w" = Some w -> bb_dict !! "bb_h" = Some h ->
  0 <= x -> 0 <= y -> 0 <= w -> 0 <= h ->
  Float.leb Float.zero p = true ->
  Float.int_mul w p = Ok wp -> Float.is_finite wp = true ->
  Float.int_mul h p = Ok hp -> Float.is_finite hp = true ->
  exists x' y' w' h' : Z,
    calculate_padding bb_dict p = Ok (bounding_box x' y' w' h')
    /\ 0 <= x' <= x /\ 0 <= y' <= y
    /\ x + w <= x' + w' /\ y + h <= y' + h'
    /\ w <= w' /\ h <= h'.
Proof.
  intros Hx Hy Hw Hh Nx Ny Nw Nh Np Hwp Fwp Hhp Fhp.
  rewrite (calculate_padding_trunc _ _ _ _ _ _ _ _ Hx Hy Hw Hh Hwp Fwp Hhp Fhp).
  rewrite (trunc_int_mul_floor w p wp Nw Np Hwp Fwp).
  rewrite (trunc_int_mul_floor h p hp Nh Np Hhp Fhp).
  pose proof (int_mul_floor_nonneg w p wp Nw Np Hwp Fwp) as Pw.
  pose proof (int_mul_floor_nonneg h p hp Nh Np Hhp Fhp) as Ph.
  eexists _, _, _, _. split; [reflexivity|]. lia.
Qed.

Lemma calculate_padding_contains_witness :
  exists x' y' w' h' : Z,
    calculate_padding (bounding_box 1 40 10 10) Float.lit_0_19
    = Ok (bounding_box x' y' w' h')
    /\ 0 <= x' <= 1 /\ 0 <= y' <= 40
    /\ 1 + 10 <= x' + w' /\ 40 + 10 <= y' + h'
    /\ 10 <= w' /\ 10 <= h'.
Proof.
  apply (calculate_padding_contains (bounding_box 1 40 10 10) Float.lit_0_19
           1 40 10 10 (S754_finite false 8556839292003942 (-52))
           (S754_finite false 8556839292003942 (-52)));
    solve [reflexivity | lia | vm_compute; reflexivity].
Defined.

Lemma mul_non_finite (a p : float) :
  Float.is_finite p = false -> Float.is_finite (Float.mul a p) = false.
Proof. destruct a as [| | |[] ? ?], p as [| | |[] ? ?]; try discriminate; reflexivity. Qed.

(** A padding percentage that is not a finite float (an infinity or NaN)
    never yields a box: the conversion of the product to an int raises
    [ValueError] (on NaN) or [OverflowError] (on an infinity, or earlier,
    on a size too large for a float). *)
Theorem calculate_padding_non_finite (bb_dict : gmap string Z) (p : float)
    (x y w h : Z) :
  bb_dict !! "bb_x" = Some x -> bb_dict !! "bb_y" = Some y ->
  bb_dict !! "bb_w" = Some w -> bb_dict !! "bb_h" = Some h ->
  Float.is_finite p = false ->
  calculate_padding bb_dict p = Raise ValueError
  \/ calculate_padding bb_dict p = Raise OverflowError.
Proof.
  intros Hx Hy Hw Hh Hp. unfold calculate_padding. read_box Hx Hy Hw Hh.
  unfold Float.int_mul.
  destruct (Float.of_int w) as [wf|e] eqn:E; cbn [bind].
  - pose proof (mul_non_finite wf p Hp) as N.
    destruct (Float.mul wf p); try discriminate; cbn [Float.to_int bind]; auto.
  - right. unfold Float.of_int in E.
    destruct (binary_normalize _ _ _ _ _); try discriminate.
    injection E as <-. reflexivity.
Qed.

Lemma calculate_padding_non_finite_witness :
  calculate_padding (bounding_box 10 10 100 50) S754_nan = Raise ValueError
  \/ calculate_padding (bounding_box 10 10 100 50) S754_nan = Raise OverflowError.
Proof.
  apply (calculate_padding_non_finite (bounding_box 10 10 100 50) S754_nan
           10 10 100 50); reflexivity.
Defined.

(** ** center_in_frame and the cropping pipeline *)

(** Pasting an image that fits at the centre of a fresh canvas: the two
    last steps of [center_in_frame]. *)
Lemma paste_centered (img : ndarray) (frame_w frame_h : Z) (bg : pixel) :
  rectangular img ->
  Z.of_nat (ncols img) <= frame_w -> Z.of_nat (nrows img) <= frame_h ->
  let xo := (frame_w - Z.of_nat (ncols img)) `div` 2 in
  let yo := (frame_h - Z.of_nat (nrows img)) `div` 2 in
  exists canvas0 canvas : ndarray,
    np_full frame_h frame_w bg = Ok canvas0
    /\ setslice canvas0 yo (yo + Z.of_nat (nrows img))
         xo (xo + Z.of_nat (ncols img)) img = Ok canvas
    /\ shape canvas = (Z.to_nat frame_h, Z.to_nat frame_w)
    /\ rectangular canvas
    /\ (forall (r c : nat) (p : pixel),
          pixel_at img r c = Some p ->
          pixel_at canvas (Z.to_nat yo + r) (Z.to_nat xo + c) = Some p)
    /\ (forall r c : nat,
          (r < Z.to_nat frame_h)%nat -> (c < Z.to_nat frame_w)%nat ->
          ~ ((Z.to_nat yo <= r < Z.to_nat yo + nrows img)%nat
             /\ (Z.to_nat xo <= c < Z.to_nat xo + ncols img)%nat) ->
          pixel_at canvas r c = Some (as_uint8 bg)).
Proof.
  intros R Hw Hh xo yo.
  assert (0 <= xo /\ xo + Z.of_nat (ncols img) <= frame_w) as [X0 X1].
  { unfold xo. split; [apply Z.div_pos; lia|].
    pose proof (Z.mul_div_le (frame_w - Z.of_nat (ncols img)) 2). lia. }
  assert (0 <= yo /\ yo + Z.of_nat (nrows img) <= frame_h) as [Y0 Y1].
  { unfold yo. split; [apply Z.div_pos; lia|].
    pose proof (Z.mul_div_le (frame_h - Z.of_nat (nrows img)) 2). lia. }
  clearbody xo yo.
  destruct (np_full_Ok frame_h frame_w bg) as (canvas0 & F & Fr & Fc & Frect & Fpix);
    [lia..|].
  assert (slice_index (nrows canvas0) yo = Z.to_nat yo) as Sy0
    by (apply slice_index_inside; lia).
  assert (slice_index (nrows canvas0) (yo + Z.of_nat (nrows img))
          = (Z.to_nat yo + nrows img)%nat) as Sy1
    by (rewrite slice_index_inside by lia; lia).
  assert (slice_index (ncols canvas0) xo = Z.to_nat xo) as Sx0
    by (apply slice_index_inside; lia).
  assert (slice_index (ncols canvas0) (xo + Z.of_nat (ncols img))
          = (Z.to_nat xo + ncols img)%nat) as Sx1
    by (rewrite slice_index_inside by lia; lia).
  destruct (setslice canvas0 yo (yo + Z.of_nat (nrows img))
              xo (xo + Z.of_nat (ncols img)) img) as [canvas|e] eqn:E.
  2:{ exfalso. unfold setslice in E. rewrite Sy0, Sy1, Sx0, Sx1 in E.
      replace (Z.to_nat yo + nrows img - Z.to_nat yo)%nat with (nrows img) in E by lia.
      replace (Z.to_nat xo + ncols img - Z.to_nat xo)%nat with (ncols img) in E by lia.
      rewrite !broadcastable_same in E. discriminate. }
  exists canvas0, canvas. split; [exact F|]. split; [exact E|].
  pose proof (setslice_Ok _ _ _ _ _ _ _ E) as (Hn & Hc & Hrect & Hpix).
  split; [unfold shape; congruence|]. split; [apply Hrect, Frect|].
  assert (forall r c : nat,
            assigned canvas0 img yo (yo + Z.of_nat (nrows img))
              xo (xo + Z.of_nat (ncols img)) r c (as_uint8 bg)
            = if Nat.leb (Z.to_nat yo) r && Nat.ltb r (Z.to_nat yo + nrows img)
                 && (Nat.leb (Z.to_nat xo) c && Nat.ltb c (Z.to_nat xo + ncols img))
              then default (as_uint8 bg)
                     (pixel_at img (r - Z.to_nat yo) (c - Z.to_nat xo))
              else as_uint8 bg) as A.
  { intros r c. unfold assigned. rewrite Sy0, Sy1, Sx0, Sx1.
    replace (Z.to_nat yo + nrows img - Z.to_nat yo)%nat with (nrows img) by lia.
    replace (Z.to_nat xo + ncols img - Z.to_nat xo)%nat with (ncols img) by lia.
    rewrite !broadcast_index_same. reflexivity. }
  split.
  - intros r c p Hp. destruct (pixel_at_Some_lt _ _ _ _ R Hp) as [Lr Lc].
    rewrite Hpix, Fpix by lia. cbn. rewrite A.
    destruct (Nat.leb_spec (Z.to_nat yo) (Z.to_nat yo + r)); [|lia].
    destruct (Nat.ltb_spec (Z.to_nat yo + r) (Z.to_nat yo + nrows img)); [|lia].
    destruct (Nat.leb_spec (Z.to_nat xo) (Z.to_nat xo + c)); [|lia].
    destruct (Nat.ltb_spec (Z.to_nat xo + c) (Z.to_nat xo + ncols img)); [|lia].
    cbn [andb].
    replace (Z.to_nat yo + r - Z.to_nat yo)%nat with r by lia.
    replace (Z.to_nat xo + c - Z.to_nat xo)%nat with c by lia.
    rewrite Hp. reflexivity.
  - intros r c Lr Lc Out. rewrite Hpix, Fpix by lia. cbn. rewrite A.
    destruct (Nat.leb_spec (Z.to_nat yo) r),
      (Nat.ltb_spec r (Z.to_nat yo + nrows img)),
      (Nat.leb_spec (Z.to_nat xo) c),
      (Nat.ltb_spec c (Z.to_nat xo + ncols img)); cbn [andb];
      try reflexivity.
    exfalso. apply Out. lia.
Qed.

(** The stand-in for [cv2.resize] has its shape contract. *)
Lemma nearest_resize_shape (img : ndarray) (new_w new_h : Z) (out : ndarray) :
  nearest_resize img new_w new_h = Ok out ->
  shape out = (Z.to_nat new_h, Z.to_nat new_w) /\ rectangular out.
Proof.
  unfold nearest_resize. destruct (_ || _); [discriminate|]. intros [= <-].
  unfold shape, nrows, rectangular. cbn [rows ncols]. split.
  - rewrite length_map, length_seq. reflexivity.
  - apply Forall_fmap, Forall_forall. intros r _. cbn.
    rewrite length_map, length_seq. reflexivity.
Qed.

(** An image larger than the frame, with dimensions below [2^31]: the
    size asked of [cv2.resize] never exceeds the frame, so that, as long
    as [cv2.resize] returns an array of the size it is asked for, the
    paste that follows cannot fail.  The call raises only what
    [cv2.resize] raises; otherwise the canvas has the size of the frame and
    carries the resized image at its centre, on the background colour, a
    colour of 8-bit components. *)
Theorem center_in_frame_oversized
    (cv2_resize : ndarray -> Z -> Z -> result ndarray)
    (img : ndarray) (frame_w frame_h : Z) (bg : pixel) :
  let w := Z.of_nat (ncols img) in
  let h := Z.of_nat (nrows img) in
  0 < h -> w < 2 ^ 31 -> h < 2 ^ 31 ->
  0 <= frame_w < 2 ^ 31 -> 0 < frame_h < 2 ^ 31 ->
  frame_w < w \/ frame_h < h ->
  is_uint8 bg ->
  (forall (new_w new_h : Z) (out : ndarray),
     cv2_resize img new_w new_h = Ok out ->
     shape out = (Z.to_nat new_h, Z.to_nat new_w) /\ rectangular out) ->
  exists new_w new_h : Z,
    fit_size w h (frame_w, frame_h) = Ok (new_w, new_h)
    /\ 0 <= new_w <= frame_w /\ 0 <= new_h <= frame_h
    /\ match cv2_resize img new_w new_h with
       | Raise e => center_in_frame cv2_resize img (frame_w, frame_h) bg = Raise e
       | Ok resized =>
           exists canvas : ndarray,
             center_in_frame cv2_resize img (frame_w, frame_h) bg = Ok canvas
             /\ shape canvas = (Z.to_nat frame_h, Z.to_nat frame_w)
             /\ rectangular canvas
             /\ (forall (r c : nat) (p : pixel),
                   pixel_at resized r c = Some p ->
                   pixel_at canvas (Z.to_nat ((frame_h - new_h) `div` 2) + r)
                                   (Z.to_nat ((frame_w - new_w) `div` 2) + c)
                   = Some p)
             /\ (forall r c : nat,
                   (r < Z.to_nat frame_h)%nat -> (c < Z.to_nat frame_w)%nat ->
                   ~ ((Z.to_nat ((frame_h - new_h) `div` 2) <= r
                       < Z.to_nat ((frame_h - new_h) `div` 2) + Z.to_nat new_h)%nat
                      /\ (Z.to_nat ((frame_w - new_w) `div` 2) <= c
                          < Z.to_nat ((frame_w - new_w) `div` 2) + Z.to_nat new_w)%nat) ->
                   pixel_at canvas r c = Some bg)
       end.
Proof.
  intros w h Hh Hw Hh' Hfw Hfh Hover Hbg Hcontract.
  destruct (fit_size_spec w h frame_w frame_h ltac:(unfold w; lia) ltac:(lia) Hfw Hfh)
    as (a & g & q & _ & _ & Hsel).
  assert (exists new_w new_h : Z,
            fit_size w h (frame_w, frame_h) = Ok (new_w, new_h)
            /\ 0 <= new_w <= frame_w /\ 0 <= new_h <= frame_h)
    as (new_w & new_h & Efit & Bw & Bh).
  { destruct (Float.ltb g a); destruct Hsel as (_ & Efit & _ & Hb);
      eexists _, _; (split; [exact Efit|]); lia. }
  exists new_w, new_h. split; [exact Efit|]. split; [exact Bw|]. split; [exact Bh|].
  assert (center_in_frame cv2_resize img (frame_w, frame_h) bg
          = (resized <- cv2_resize img new_w new_h ;;
             frame <- np_full frame_h frame_w bg ;;
             let x_offset := (frame_w - Z.of_nat (ncols resized)) `div` 2 in
             let y_offset := (frame_h - Z.of_nat (nrows resized)) `div` 2 in
             setslice frame y_offset (y_offset + Z.of_nat (nrows resized))
               x_offset (x_offset + Z.of_nat (ncols resized)) resized)) as ->.
  { unfold center_in_frame, resize_to_fit. cbn [shape fst snd]. fold w h.
    assert ((frame_w <? w) || (frame_h <? h) = true) as ->.
    { destruct Hover as [L|L]; [apply Z.ltb_lt in L | apply Z.ltb_lt in L];
        rewrite L; [reflexivity | apply orb_true_r]. }
    rewrite Efit. cbn [bind fst snd].
    destruct (cv2_resize img new_w new_h) as [resized|e]; reflexivity. }
  destruct (cv2_resize img new_w new_h) as [resized|e] eqn:Er; [|reflexivity].
  cbn [bind]. destruct (Hcontract _ _ _ Er) as [Hs Rr].
  injection Hs as Hnr Hnc.
  destruct (paste_centered resized frame_w frame_h bg Rr ltac:(lia) ltac:(lia))
    as (canvas0 & canvas & F & E & Hshape & Hrect & Hin & Hout).
  rewrite (as_uint8_id bg Hbg) in Hout.
  exists canvas. rewrite F. cbn [bind]. split; [exact E|].
  split; [exact Hshape|]. split; [exact Hrect|].
  replace (Z.of_nat (ncols resized)) with new_w in Hin, Hout by lia.
  replace (Z.of_nat (nrows resized)) with new_h in Hin, Hout by lia.
  rewrite Hnr, Hnc in Hout. split; [exact Hin | exact Hout].
Qed.

Lemma center_in_frame_oversized_witness :
  let w := Z.of_nat (ncols frame_2x3) in
  let h := Z.of_nat (nrows frame_2x3) in
  exists new_w new_h : Z,
    fit_size w h (2, 2) = Ok (new_w, new_h)
    /\ 0 <= new_w <= 2 /\ 0 <= new_h <= 2
    /\ match nearest_resize frame_2x3 new_w new_h with
       | Raise e => center_in_frame nearest_resize frame_2x3 (2, 2) (9, 9, 9) = Raise e
       | Ok resized =>
           exists canvas : ndarray,
             center_in_frame nearest_resize frame_2x3 (2, 2) (9, 9, 9) = Ok canvas
             /\ shape canvas = (Z.to_nat 2, Z.to_nat 2)
             /\ rectangular canvas
             /\ (forall (r c : nat) (p : pixel),
                   pixel_at resized r c = Some p ->
                   pixel_at canvas (Z.to_nat ((2 - new_h) `div` 2) + r)
                                   (Z.to_nat ((2 - new_w) `div` 2) + c)
                   = Some p)
             /\ (forall r c : nat,
                   (r < Z.to_nat 2)%nat -> (c < Z.to_nat 2)%nat ->
                   ~ ((Z.to_nat ((2 - new_h) `div` 2) <= r
                       < Z.to_nat ((2 - new_h) `div` 2) + Z.to_nat new_h)%nat
                      /\ (Z.to_nat ((2 - new_w) `div` 2) <= c
                          < Z.to_nat ((2 - new_w) `div` 2) + Z.to_nat new_w)%nat) ->
                   pixel_at canvas r c = Some (9, 9, 9))
       end.
Proof.
  apply (center_in_frame_oversized nearest_resize frame_2x3 2 2 (9, 9, 9));
    try solve [reflexivity | repeat split; solve [reflexivity | vm_compute; discriminate]].
  - left. reflexivity.
  - apply nearest_resize_shape.
Defined.

(** An image without rows that is wider than the frame cannot be resized:
    its aspect ratio divides by zero. *)
Theorem center_in_frame_no_rows (cv2_resize : ndarray -> Z -> Z -> result ndarray)
    (img : ndarray) (frame_size : Z * Z) (bg : pixel) :
  nrows img = 0%nat -> fst frame_size < Z.of_nat (ncols img) ->
  center_in_frame cv2_resize img frame_size bg = Raise ZeroDivisionError.
Proof.
  intros Hr Hc. unfold center_in_frame, resize_to_fit. cbn [shape].
  apply Z.ltb_lt in Hc. rewrite Hc, Hr. cbn [orb].
  destruct frame_size as [frame_w frame_h]. unfold fit_size.
  destruct (ncols img); reflexivity.
Qed.

Lemma center_in_frame_no_rows_witness :
  center_in_frame nearest_resize {| ncols := 2; rows := [] |} (1, 1) zero_pixel
  = Raise ZeroDivisionError.
Proof.
  apply (center_in_frame_no_rows nearest_resize {| ncols := 2; rows := [] |}
           (1, 1) zero_pixel); reflexivity.
Defined.

Lemma pixel_at_is_Some (a : ndarray) (r c : nat) :
  rectangular a -> (r < nrows a)%nat -> (c < ncols a)%nat ->
  exists p : pixel, pixel_at a r c = Some p.
Proof.
  unfold rectangular, nrows, pixel_at. intros R Hr Hc.
  destruct (lookup_lt_is_Some_2 (rows a) r Hr) as [row Hrow].
  rewrite Hrow. cbn.
  pose proof (proj1 (Forall_lookup _ _) R r row Hrow) as L.
  apply lookup_lt_is_Some_2. cbn beta in L. rewrite L. exact Hc.
Qed.

(** The cropping pipeline, [darken = False], on a box whose padded size
    does not exceed the canvas: the box is padded by a tenth of its size
    on each side, cut to the frame, and copied pixel for pixel, without any
    resizing, to the centre of a black canvas of the default size. *)
Theorem create_cropped_frame_copies (frame : ndarray) (frame_dict : gmap string Z)
    (x y w h : Z) (default_size : Z * Z) :
  let x' := Z.max 0 (x - w / 10) in
  let y' := Z.max 0 (y - h / 10) in
  let crop_w := Z.max 0 (Z.min (w + 2 * (w / 10)) (Z.of_nat (ncols frame) - x')) in
  let crop_h := Z.max 0 (Z.min (h + 2 * (h / 10)) (Z.of_nat (nrows frame) - y')) in
  let x_offset := Z.to_nat ((fst default_size - crop_w) `div` 2) in
  let y_offset := Z.to_nat ((snd default_size - crop_h) `div` 2) in
  rectangular frame ->
  frame_dict !! "bb_x" = Some x -> frame_dict !! "bb_y" = Some y ->
  frame_dict !! "bb_w" = Some w -> frame_dict !! "bb_h" = Some h ->
  0 <= w < 2 ^ 31 -> 0 <= h < 2 ^ 31 ->
  w + 2 * (w / 10) <= fst default_size -> h + 2 * (h / 10) <= snd default_size ->
  exists canvas : ndarray,
    (forall cv2_resize : ndarray -> Z -> Z -> result ndarray,
       create_cropped_frame cv2_resize frame frame_dict false default_size
       = Ok canvas)
    /\ shape canvas = (Z.to_nat (snd default_size), Z.to_nat (fst default_size))
    /\ rectangular canvas
    /\ (forall r c : nat,
          Z.of_nat r < crop_h -> Z.of_nat c < crop_w ->
          is_Some (pixel_at frame (Z.to_nat y' + r) (Z.to_nat x' + c))
          /\ pixel_at canvas (y_offset + r) (x_offset + c)
             = pixel_at frame (Z.to_nat y' + r) (Z.to_nat x' + c))
    /\ (forall r c : nat,
          (r < Z.to_nat (snd default_size))%nat ->
          (c < Z.to_nat (fst default_size))%nat ->
          ~ ((y_offset <= r < y_offset + Z.to_nat crop_h)%nat
             /\ (x_offset <= c < x_offset + Z.to_nat crop_w)%nat) ->
          pixel_at canvas r c = Some zero_pixel).
Proof.
  intros x' y' crop_w crop_h x_offset y_offset R Hx Hy Hw Hh Nw Nh Fw Fh.
  destruct default_size as [frame_w frame_h]. cbn [fst snd] in *.
  (* the padded box *)
  assert (calculate_padding frame_dict Float.lit_0_1
          = Ok (bounding_box x' y' (w + 2 * (w / 10)) (h + 2 * (h / 10)))) as Epad.
  { destruct (int_mul_tenth w Nw) as (wp & Ewp & Fwp & Vwp).
    destruct (int_mul_tenth h Nh) as (hp & Ehp & Fhp & Vhp).
    rewrite (calculate_padding_trunc _ _ _ _ _ _ _ _ Hx Hy Hw Hh Ewp Fwp Ehp Fhp).
    rewrite (trunc_int_mul_floor w Float.lit_0_1 wp ltac:(lia) eq_refl Ewp Fwp).
    rewrite (trunc_int_mul_floor h Float.lit_0_1 hp ltac:(lia) eq_refl Ehp Fhp).
    rewrite Vwp, Vhp. reflexivity. }
  pose proof (Z.div_pos w 10 ltac:(lia) ltac:(lia)) as Pw.
  pose proof (Z.div_pos h 10 ltac:(lia) ltac:(lia)) as Ph.
  (* the crop *)
  set (w' := w + 2 * (w / 10)) in *. set (h' := h + 2 * (h / 10)) in *.
  set (roi := getslice frame y' (y' + h') x' (x' + w')).
  assert (crop_img frame (bounding_box x' y' w' h') = Ok roi) as Ecrop.
  { destruct (bounding_box_lookup x' y' w' h') as (Lx & Ly & Lw & Lh).
    unfold crop_img. read_box Lx Ly Lw Lh. reflexivity. }
  destruct (getslice_nonneg frame x' y' w' h' ltac:(lia) ltac:(lia) ltac:(lia)
              ltac:(lia)) as (Er & Ec & Hroi).
  fold roi in Er, Ec, Hroi. fold crop_w in Ec. fold crop_h in Er.
  assert (rectangular roi) as Rroi by apply rectangular_getslice, R.
  (* the canvas *)
  destruct (paste_centered roi frame_w frame_h zero_pixel Rroi ltac:(lia) ltac:(lia))
    as (canvas0 & canvas & F & E & Hshape & Hrect & Hin & Hout).
  rewrite Er, Ec in Hin, Hout. fold x_offset y_offset in Hin, Hout.
  exists canvas. split.
  { intros cv2_resize.
    unfold create_cropped_frame, crop_with_padding_and_center.
    rewrite Epad. cbn [bind]. rewrite Ecrop. cbn [bind].
    unfold center_in_frame. cbn [shape fst snd].
    destruct (Z.ltb_spec frame_w (Z.of_nat (ncols roi))); [lia|].
    destruct (Z.ltb_spec frame_h (Z.of_nat (nrows roi))); [lia|].
    cbn [orb bind shape]. rewrite F. cbn [bind]. exact E. }
  split; [exact Hshape|]. split; [exact Hrect|]. split.
  - intros r c Lr Lc.
    assert (r < nrows roi)%nat as Lr' by lia.
    assert (c < ncols roi)%nat as Lc' by lia.
    destruct (pixel_at_is_Some roi r c Rroi Lr' Lc') as (p & Hp).
    rewrite <- (Hroi r c Lr' Lc'), Hp. split; [eauto | apply Hin, Hp].
  - intros r c Lr Lc Out. apply Hout; [exact Lr | exact Lc |].
    intros [I1 I2]. apply Out. lia.
Qed.

Lemma create_cropped_frame_copies_witness :
  let x' := Z.max 0 (1 - 1 / 10) in
  let y' := Z.max 0 (0 - 2 / 10) in
  let crop_w := Z.max 0 (Z.min (1 + 2 * (1 / 10)) (Z.of_nat (ncols frame_2x3) - x')) in
  let crop_h := Z.max 0 (Z.min (2 + 2 * (2 / 10)) (Z.of_nat (nrows frame_2x3) - y')) in
  let x_offset := Z.to_nat ((4 - crop_w) `div` 2) in
  let y_offset := Z.to_nat ((4 - crop_h) `div` 2) in
  exists canvas : ndarray,
    (forall cv2_resize : ndarray -> Z -> Z -> result ndarray,
       create_cropped_frame cv2_resize frame_2x3 (bounding_box 1 0 1 2) false (4, 4)
       = Ok canvas)
    /\ shape canvas = (Z.to_nat 4, Z.to_nat 4)
    /\ rectangular canvas
    /\ (forall r c : nat,
          Z.of_nat r < crop_h -> Z.of_nat c < crop_w ->
          is_Some (pixel_at frame_2x3 (Z.to_nat y' + r) (Z.to_nat x' + c))
          /\ pixel_at canvas (y_offset + r) (x_offset + c)
             = pixel_at frame_2x3 (Z.to_nat y' + r) (Z.to_nat x' + c))
    /\ (forall r c : nat,
          (r < Z.to_nat 4)%nat ->
          (c < Z.to_nat 4)%nat ->
          ~ ((y_offset <= r < y_offset + Z.to_nat crop_h)%nat
             /\ (x_offset <= c < x_offset + Z.to_nat crop_w)%nat) ->
          pixel_at canvas r c = Some zero_pixel).
Proof.
  apply (create_cropped_frame_copies frame_2x3 (bounding_box 1 0 1 2) 1 0 1 2 (4, 4));
    solve [repeat constructor | reflexivity
          | split; [vm_compute; discriminate | reflexivity]
          | vm_compute; discriminate].
Defined.

(** ** create_face_frame *)

(** A detection that is not empty and lacks one of the four keys makes
    [create_face_frame] raise [KeyError] for the first key that is missing,
    in the order [bb_x], [bb_y], [bb_w], [bb_h], in both modes. *)
Theorem create_face_frame_missing_key
    (cv2_resize : ndarray -> Z -> Z -> result ndarray)
    (frame_dict : gmap string Z) (frame : ndarray) (default_size : Z * Z)
    (keep darken : bool) (k : string) :
  frame_dict <> ∅ ->
  List.find (fun k => bool_decide (frame_dict !! k = None))
    ["bb_x"; "bb_y"; "bb_w"; "bb_h"] = Some k ->
  create_face_frame cv2_resize frame_dict frame default_size keep darken
  = Raise (KeyError k).
Proof.
  intros Hne Hfind. unfold create_face_frame. rewrite (dict_nonempty_size _ Hne).
  unfold create_cropped_frame, crop_with_padding_and_center, calculate_padding,
    blacken_outside_bounding_box, getitem_dict.
  cbn [List.find] in Hfind.
  destruct (frame_dict !! "bb_x") as [x|];
    [rewrite bool_decide_eq_false_2 in Hfind by discriminate
    |injection Hfind as <-; destruct darken; reflexivity].
  destruct (frame_dict !! "bb_y") as [y|];
    [rewrite bool_decide_eq_false_2 in Hfind by discriminate
    |injection Hfind as <-; destruct darken; reflexivity].
  destruct (frame_dict !! "bb_w") as [w|];
    [rewrite bool_decide_eq_false_2 in Hfind by discriminate
    |injection Hfind as <-; destruct darken; reflexivity].
  destruct (frame_dict !! "bb_h") as [h|];
    [rewrite bool_decide_eq_false_2 in Hfind by discriminate
    |injection Hfind as <-; destruct darken; reflexivity].
  discriminate.
Qed.

Lemma create_face_frame_missing_key_witness :
  create_face_frame nearest_resize (<["bb_x" := 1]> (<["bb_w" := 2]> ∅))
    frame_2x3 (512, 512) true false
  = Raise (KeyError "bb_y").
Proof.
  apply (create_face_frame_missing_key nearest_resize
           (<["bb_x" := 1]> (<["bb_w" := 2]> ∅)) frame_2x3 (512, 512) true false
           "bb_y").
  - intros E. apply (f_equal (fun m : gmap string Z => m !! "bb_x")) in E.
    vm_compute in E. discriminate.
  - vm_compute. reflexivity.
Defined.

Lemma shape_size (a b : ndarray) : shape a = shape b -> size a = size b.
Proof. unfold shape, size. intros [= -> ->]. reflexivity. Qed.

(** With [darken = True] and [keep_original_timing = True] the face frame
    of a detection that is empty or has its four keys has the shape of the
    frame. *)
Lemma create_face_frame_same_shape
    (cv2_resize : ndarray -> Z -> Z -> result ndarray)
    (frame_dict : gmap string Z) (frame : ndarray) (default_size : Z * Z) :
  frame_dict = ∅
  \/ (exists x y w h : Z,
        frame_dict !! "bb_x" = Some x /\ frame_dict !! "bb_y" = Some y /\
        frame_dict !! "bb_w" = Some w /\ frame_dict !! "bb_h" = Some h) ->
  exists ff : ndarray,
    create_face_frame cv2_resize frame_dict frame default_size true true = Ok ff
    /\ shape ff = shape frame.
Proof.
  assert (shape (np_zeros_like frame) = shape frame) as Z0.
  { unfold shape, nrows, np_zeros_like. cbn. rewrite length_map. reflexivity. }
  intros [->|(x & y & w & h & Hx & Hy & Hw & Hh)].
  - eexists. split; [reflexivity | exact Z0].
  - unfold create_face_frame, create_cropped_frame.
    destruct (negb _).
    + destruct (blacken_mask frame frame_dict x y w h Hx Hy Hw Hh)
        as (mask & E & Hs & _).
      exists mask. split; assumption.
    + eexists. split; [reflexivity | exact Z0].
Qed.

(** ** create_cropped_video, for any number of frames and detections *)

Section Loop.

Variable cv2_resize : ndarray -> Z -> Z -> result ndarray.
Variable detections : list (gmap string Z).
Variables darken keep : bool.
Variable default_size : Z * Z.

(** [ff] is the face frame of the pair [df] of a detection and a frame. *)
Local Abbreviation face_of := (fun (df : gmap string Z * ndarray) (ff : ndarray) =>
  create_face_frame cv2_resize (fst df) (snd df) default_size keep darken = Ok ff).

Local Abbreviation face := (processed cv2_resize detections darken keep default_size).

(** When every frame that meets a detection is processed without
    exception, the loop appends the non-empty face frames, in order, and
    stops one frame after the last detection or at the end of the stream. *)
Lemma read_loop_filter (stream : list ndarray) :
  forall (k : nat) (acc faces : list ndarray),
    (k <= length detections)%nat ->
    Forall2 face_of (zip (drop k detections) stream) faces ->
    read_loop cv2_resize detections darken keep default_size stream k acc
    = (Ok (acc ++ filter (fun ff => size ff <> 0%nat) faces),
       drop (S (length detections - k)) stream).
Proof.
  induction stream as [|frame rest IH]; intros k acc faces Hk Hf.
  - rewrite zip_with_nil_r in Hf. apply Forall2_nil_inv_l in Hf as ->.
    cbn. rewrite app_nil_r. reflexivity.
  - cbn [read_loop]. destruct (Nat.leb_spec (length detections) k) as [Hge|Hlt].
    + rewrite drop_ge in Hf by exact Hge. cbn in Hf.
      apply Forall2_nil_inv_l in Hf as ->.
      replace (length detections - k)%nat with 0%nat by lia.
      cbn. rewrite app_nil_r. reflexivity.
    + destruct (lookup_lt_is_Some_2 detections k Hlt) as [d Hd].
      rewrite (drop_S _ _ _ Hd) in Hf. cbn [zip_with] in Hf.
      apply Forall2_cons_inv_l in Hf as (ff & faces' & Hff & Hrest & ->).
      cbn [fst snd] in Hff. rewrite Hd, Hff.
      rewrite (IH (S k) _ faces' ltac:(lia) Hrest).
      replace (length detections - k)%nat with (S (length detections - S k)) by lia.
      cbn [drop]. f_equal. f_equal. rewrite filter_cons.
      destruct (Nat.eqb_spec (size ff) 0) as [E|N].
      * destruct (decide (size ff <> 0%nat)); [contradiction | reflexivity].
      * destruct (decide (size ff <> 0%nat)); [|contradiction].
        rewrite <- app_assoc. reflexivity.
Qed.

(** A loop that ends without exception has processed every frame that
    meets a detection. *)
Lemma read_loop_Ok_inv (stream : list ndarray) :
  forall (k : nat) (acc out rest : list ndarray),
    (k <= length detections)%nat ->
    read_loop cv2_resize detections darken keep default_size stream k acc
    = (Ok out, rest) ->
    exists faces : list ndarray,
      Forall2 face_of (zip (drop k detections) stream) faces.
Proof.
  induction stream as [|frame rest' IH]; intros k acc out rest Hk Hrun.
  - exists []. rewrite zip_with_nil_r. constructor.
  - cbn [read_loop] in Hrun.
    destruct (Nat.leb_spec (length detections) k) as [Hge|Hlt].
    + exists []. rewrite drop_ge by exact Hge. constructor.
    + destruct (lookup_lt_is_Some_2 detections k Hlt) as [d Hd].
      rewrite Hd in Hrun. rewrite (drop_S _ _ _ Hd). cbn [zip_with].
      destruct (create_face_frame cv2_resize d frame default_size keep darken)
        as [ff|e] eqn:E; [|discriminate].
      destruct (IH (S k) _ out rest ltac:(lia) Hrun) as (faces & Hf).
      exists (ff :: faces). constructor; [exact E | exact Hf].
Qed.

(** The first frame whose processing raises ends the loop with that
    exception. *)
Lemma read_loop_raise (stream : list ndarray) (i : nat) (e : exn) :
  face stream i (Raise e) ->
  (forall j : nat, (j < i)%nat -> exists f, face stream j (Ok f)) ->
  forall (n k : nat) (acc : list ndarray),
    (k + n = i)%nat ->
    read_loop cv2_resize detections darken keep default_size (drop k stream) k acc
    = (Raise e, drop (S i) stream).
Proof.
  intros (d & frame & Hd & Hf & Hraise) Hbefore.
  induction n as [|n IH]; intros k acc Hk.
  - rewrite Nat.add_0_r in Hk. subst k.
    rewrite (drop_S _ _ _ Hf). cbn [read_loop].
    pose proof (lookup_lt_Some _ _ _ Hd) as Lt.
    destruct (Nat.leb_spec (length detections) i) as [|_]; [lia|].
    rewrite Hd, Hraise. reflexivity.
  - destruct (Hbefore k ltac:(lia)) as (f & dk & fk & Hdk & Hfk & Ek).
    rewrite (drop_S _ _ _ Hfk). cbn [read_loop].
    pose proof (lookup_lt_Some _ _ _ Hdk) as Lt.
    destruct (Nat.leb_spec (length detections) k) as [|_]; [lia|].
    rewrite Hdk, Ek. apply IH. lia.
Qed.

Variable cv2_VideoCapture : string -> VideoCapture.

(** Whatever the numbers of frames and of detections: when each frame that
    meets a detection is processed without exception, the call returns the
    face frames that are not empty, in the order of the frames, and the
    source is released after it was read up to one frame past the last
    detection. *)
Theorem create_cropped_video_filter (video_path : string) (faces : list ndarray) :
  let cap := cv2_VideoCapture video_path in
  isOpened cap = true ->
  Forall2 face_of (zip detections (pending cap)) faces ->
  create_cropped_video cv2_resize cv2_VideoCapture video_path detections
    darken keep default_size
  = (Ok (filter (fun ff => size ff <> 0%nat) faces),
     release cap (drop (S (length detections)) (pending cap))).
Proof.
  intros cap Hopen Hf. unfold create_cropped_video. fold cap.
  rewrite Hopen. cbn [negb].
  rewrite (read_loop_filter (pending cap) 0 [] faces ltac:(lia) Hf).
  rewrite Nat.sub_0_r. reflexivity.
Qed.

(** Whenever the call returns, every frame that meets a detection was
    processed, and the frames returned are the face frames that are not
    empty, in order: never more than the number of frames nor than the
    number of detections. *)
Theorem create_cropped_video_returned (video_path : string) (out : list ndarray) :
  fst (create_cropped_video cv2_resize cv2_VideoCapture video_path detections
         darken keep default_size) = Ok out ->
  exists faces : list ndarray,
    Forall2 face_of (zip detections (pending (cv2_VideoCapture video_path))) faces
    /\ out = filter (fun ff => size ff <> 0%nat) faces
    /\ (length out <= length detections)%nat
    /\ (length out <= length (pending (cv2_VideoCapture video_path)))%nat.
Proof.
  unfold create_cropped_video.
  set (cap := cv2_VideoCapture video_path).
  destruct (isOpened cap); cbn [negb]; [|discriminate].
  destruct (read_loop _ _ _ _ _ (pending cap) 0 []) as [[out'|e] rest] eqn:Hrun;
    [|discriminate].
  cbn [fst]. intros [= ->].
  destruct (read_loop_Ok_inv (pending cap) 0 [] out rest ltac:(lia) Hrun)
    as (faces & Hf).
  exists faces. split; [exact Hf|].
  rewrite (read_loop_filter (pending cap) 0 [] faces ltac:(lia) Hf) in Hrun.
  injection Hrun as <- _. split; [reflexivity|].
  pose proof (Forall2_length _ _ _ Hf) as L.
  rewrite length_zip_with, drop_0 in L.
  pose proof (length_filter (fun ff => size ff <> 0%nat) faces) as Lf.
  cbn [app]. lia.
Qed.

(** Whatever the numbers of frames and of detections: the first frame
    whose processing raises makes the call raise the same exception; the
    frames after it are not read and the source is not released. *)
Theorem create_cropped_video_raises (video_path : string) (i : nat) (e : exn) :
  let cap := cv2_VideoCapture video_path in
  isOpened cap = true ->
  face (pending cap) i (Raise e) ->
  (forall j : nat, (j < i)%nat -> exists f, face (pending cap) j (Ok f)) ->
  create_cropped_video cv2_resize cv2_VideoCapture video_path detections
    darken keep default_size
  = (Raise e, advance cap (drop (S i) (pending cap)))
  /\ released (advance cap (drop (S i) (pending cap))) = released cap.
Proof.
  intros cap Hopen Hraise Hbefore. unfold create_cropped_video. fold cap.
  rewrite Hopen. cbn [negb].
  pose proof (read_loop_raise (pending cap) i e Hraise Hbefore i 0 [] eq_refl)
    as Hrun.
  rewrite drop_0 in Hrun. rewrite Hrun. split; reflexivity.
Qed.

(** The source is released exactly when the call returns: an exception,
    at opening or at any frame, leaves a source that was not released
    unreleased. *)
Theorem create_cropped_video_released_iff (video_path : string) :
  released (cv2_VideoCapture video_path) = false ->
  released (snd (create_cropped_video cv2_resize cv2_VideoCapture video_path
                   detections darken keep default_size)) = true
  <-> exists out : list ndarray,
        fst (create_cropped_video cv2_resize cv2_VideoCapture video_path
               detections darken keep default_size) = Ok out.
Proof.
  intros Hrel. unfold create_cropped_video.
  set (cap := cv2_VideoCapture video_path) in *.
  destruct (isOpened cap); cbn [negb].
  - destruct (read_loop _ _ _ _ _ (pending cap) 0 []) as [[out|e] rest];
      cbn [fst snd release advance released].
    + split; [eauto | reflexivity].
    + rewrite Hrel. split; [discriminate | intros (out & [=])].
  - cbn [fst snd]. rewrite Hrel. split; [discriminate | intros (out & [=])].
Qed.

(** Nothing to process: without detections, or on a video without frames,
    the call returns the empty list; without detections it still reads,
    and drops, the first frame. *)
Theorem create_cropped_video_nothing_to_do (video_path : string) :
  let cap := cv2_VideoCapture video_path in
  isOpened cap = true ->
  detections = [] \/ pending cap = [] ->
  create_cropped_video cv2_resize cv2_VideoCapture video_path detections
    darken keep default_size
  = (Ok [], release cap (drop 1 (pending cap))).
Proof.
  intros cap Hopen Hempty. unfold create_cropped_video. fold cap.
  rewrite Hopen. cbn [negb].
  destruct Hempty as [E|E]; rewrite E.
  - destruct (pending cap); reflexivity.
  - reflexivity.
Qed.

End Loop.

Lemma create_cropped_video_filter_witness :
  let cap := three_frames in
  create_cropped_video nearest_resize (fun _ => three_frames) "video.mp4"
    [bounding_box 0 0 1 1; ∅] true false (512, 512)
  = (Ok (filter (fun ff => size ff <> 0%nat)
           [{| ncols := 2; rows := [[(1, 1, 1); zero_pixel]] |}; np_array_empty]),
     release cap (drop 3 (pending cap))).
Proof.
  apply (create_cropped_video_filter nearest_resize [bounding_box 0 0 1 1; ∅]
           true false (512, 512) (fun _ => three_frames) "video.mp4"
           [{| ncols := 2; rows := [[(1, 1, 1); zero_pixel]] |}; np_array_empty]).
  - reflexivity.
  - repeat constructor.
Defined.

Lemma create_cropped_video_returned_witness :
  exists faces : list ndarray,
    Forall2 (fun (df : gmap string Z * ndarray) (ff : ndarray) =>
               create_face_frame nearest_resize (fst df) (snd df) (512, 512)
                 false true = Ok ff)
      (zip [bounding_box 0 0 1 1; ∅] (pending three_frames)) faces
    /\ [{| ncols := 2; rows := [[(1, 1, 1); zero_pixel]] |}]
       = filter (fun ff => size ff <> 0%nat) faces
    /\ (1 <= 2)%nat /\ (1 <= 3)%nat.
Proof.
  apply (create_cropped_video_returned nearest_resize [bounding_box 0 0 1 1; ∅]
           true false (512, 512) (fun _ => three_frames) "video.mp4"
           [{| ncols := 2; rows := [[(1, 1, 1); zero_pixel]] |}]).
  vm_compute. reflexivity.
Defined.

Lemma create_cropped_video_raises_witness :
  let cap := three_frames in
  create_cropped_video nearest_resize (fun _ => three_frames) "video.mp4"
    [bounding_box 0 0 1 1; <["bb_x" := 1]> ∅; ∅] true true (512, 512)
  = (Raise (KeyError "bb_y"), advance cap (drop 2 (pending cap)))
  /\ released (advance cap (drop 2 (pending cap))) = released cap.
Proof.
  apply (create_cropped_video_raises nearest_resize
           [bounding_box 0 0 1 1; <["bb_x" := 1]> ∅; ∅] true true (512, 512)
           (fun _ => three_frames) "video.mp4" 1 (KeyError "bb_y")).
  - reflexivity.
  - exists (<["bb_x" := 1]> ∅), frame_2x3.
    split; [reflexivity|]. split; [reflexivity|]. vm_compute. reflexivity.
  - intros j Hj. assert (j = 0%nat) as -> by lia.
    exists {| ncols := 2; rows := [[(1, 1, 1); zero_pixel]] |},
      (bounding_box 0 0 1 1), frame_1x2.
    split; [reflexivity|]. split; [reflexivity|]. vm_compute. reflexivity.
Defined.

Lemma create_cropped_video_released_iff_witness :
  released (snd (create_cropped_video nearest_resize (fun _ => three_frames)
                   "video.mp4" [bounding_box 0 0 2 0; ∅] false false (1, 1)))
  = true
  <-> exists out : list ndarray,
        fst (create_cropped_video nearest_resize (fun _ => three_frames)
               "video.mp4" [bounding_box 0 0 2 0; ∅] false false (1, 1)) = Ok out.
Proof.
  apply (create_cropped_video_released_iff nearest_resize
           [bounding_box 0 0 2 0; ∅] false false (1, 1)
           (fun _ => three_frames) "video.mp4").
  reflexivity.
Defined.

Lemma create_cropped_video_nothing_to_do_witness :
  let cap := three_frames in
  create_cropped_video nearest_resize (fun _ => three_frames) "video.mp4"
    [] true true (512, 512)
  = (Ok [], release cap (drop 1 (pending cap))).
Proof.
  apply (create_cropped_video_nothing_to_do nearest_resize [] true true (512, 512)
           (fun _ => three_frames) "video.mp4").
  - reflexivity.
  - left. reflexivity.
Defined.

Lemma filter_all {A : Type} (P : A -> Prop) `{forall x, Decision (P x)}
    (l : list A) :
  Forall P l -> filter P l = l.
Proof.
  induction 1 as [|x l Hx _ IH]; [reflexivity|].
  rewrite filter_cons. destruct (decide (P x)); [|contradiction].
  f_equal. exact IH.
Qed.

(** A detection that is empty or carries the four keys of a box. *)
Local Abbreviation well_formed := (fun d : gmap string Z =>
  d = ∅
  \/ (exists x y w h : Z,
        d !! "bb_x" = Some x /\ d !! "bb_y" = Some y /\
        d !! "bb_w" = Some w /\ d !! "bb_h" = Some h)).

Lemma faces_same_shape (cv2_resize : ndarray -> Z -> Z -> result ndarray)
    (default_size : Z * Z) (detections : list (gmap string Z)) :
  Forall well_formed detections ->
  forall stream : list ndarray,
    exists faces : list ndarray,
      Forall2 (fun (df : gmap string Z * ndarray) (ff : ndarray) =>
                 create_face_frame cv2_resize (fst df) (snd df) default_size
                   true true = Ok ff)
        (zip detections stream) faces
      /\ Forall2 (fun ff frame => shape ff = shape frame) faces
           (take (length detections) stream).
Proof.
  induction 1 as [|d detections Hd _ IH]; intros stream.
  - exists []. split; constructor.
  - destruct stream as [|frame rest].
    + exists []. split; constructor.
    + destruct (create_face_frame_same_shape cv2_resize d frame default_size Hd)
        as (ff & Eff & Hs).
      destruct (IH rest) as (faces & Hf & Hshape).
      exists (ff :: faces). split; constructor; assumption.
Qed.

Lemma same_shape_nonempty (faces frames : list ndarray) :
  Forall2 (fun ff frame => shape ff = shape frame) faces frames ->
  Forall (fun frame => size frame <> 0%nat) frames ->
  Forall (fun ff => size ff <> 0%nat) faces.
Proof.
  induction 1 as [|ff frame faces frames Hs _ IH]; intros Hframes;
    [constructor|].
  apply Forall_cons in Hframes as [Hframe Hframes].
  constructor; [rewrite (shape_size _ _ Hs); exact Hframe | exact (IH Hframes)].
Qed.

(** With [darken = True] and [keep_original_timing = True] the output is
    aligned with the input: on detections that are empty or carry the four
    keys and frames that are not empty, the call returns one frame for each
    frame that has a detection ([min(M, N)] frames), the [i]-th of them
    having the shape of the [i]-th frame of the video. *)
Theorem create_cropped_video_aligned
    (cv2_resize : ndarray -> Z -> Z -> result ndarray)
    (cv2_VideoCapture : string -> VideoCapture) (video_path : string)
    (detections : list (gmap string Z)) (default_size : Z * Z) :
  let cap := cv2_VideoCapture video_path in
  isOpened cap = true ->
  Forall well_formed detections ->
  Forall (fun frame => size frame <> 0%nat) (pending cap) ->
  exists out : list ndarray,
    create_cropped_video cv2_resize cv2_VideoCapture video_path detections
      true true default_size
    = (Ok out, release cap (drop (S (length detections)) (pending cap)))
    /\ length out = Nat.min (length detections) (length (pending cap))
    /\ Forall2 (fun ff frame => shape ff = shape frame) out
         (take (length detections) (pending cap)).
Proof.
  intros cap Hopen Hwf Hframes.
  destruct (faces_same_shape cv2_resize default_size detections Hwf (pending cap))
    as (faces & Hf & Hshape).
  assert (filter (fun ff => size ff <> 0%nat) faces = faces) as Efilter.
  { apply filter_all.
    apply (same_shape_nonempty faces (take (length detections) (pending cap)));
      [exact Hshape | apply Forall_take, Hframes]. }
  exists faces. unfold create_cropped_video. fold cap. rewrite Hopen. cbn [negb].
  rewrite (read_loop_filter cv2_resize detections true true default_size
             (pending cap) 0 [] faces ltac:(lia) Hf).
  rewrite Efilter, Nat.sub_0_r. split; [reflexivity|].
  split; [|exact Hshape].
  rewrite (Forall2_length _ _ _ Hshape), length_take. reflexivity.
Qed.

Lemma create_cropped_video_aligned_witness :
  let cap := three_frames in
  exists out : list ndarray,
    create_cropped_video nearest_resize (fun _ => three_frames) "video.mp4"
      [bounding_box 0 0 1 1; ∅] true true (512, 512)
    = (Ok out, release cap (drop 3 (pending cap)))
    /\ length out = Nat.min 2 (length (pending cap))
    /\ Forall2 (fun ff frame => shape ff = shape frame) out
         (take 2 (pending cap)).
Proof.
  apply (create_cropped_video_aligned nearest_resize (fun _ => three_frames)
           "video.mp4" [bounding_box 0 0 1 1; ∅] (512, 512)).
  - reflexivity.
  - constructor; [right; exists 0, 0, 1, 1; repeat split; reflexivity|].
    constructor; [left; reflexivity | constructor].
  - repeat constructor; vm_compute; discriminate.
Defined.

Lemma faces_of_detections (cv2_resize : ndarray -> Z -> Z -> result ndarray)
    (darken : bool) (default_size : Z * Z) (detections : list (gmap string Z)) :
  forall (stream faces : list ndarray),
    Forall2 (fun (df : gmap string Z * ndarray) (ff : ndarray) =>
               create_face_frame cv2_resize (fst df) (snd df) default_size
                 false darken = Ok ff)
      (zip detections stream) faces ->
    (length (filter (fun ff => size ff <> 0%nat) faces)
     <= length (filter (fun d : gmap string Z => d <> ∅) detections))%nat.
Proof.
  induction detections as [|d detections IH]; intros stream faces Hf.
  - apply Forall2_nil_inv_l in Hf as ->. cbn. lia.
  - destruct stream as [|frame rest].
    + apply Forall2_nil_inv_l in Hf as ->. cbn. lia.
    + cbn [zip_with] in Hf.
      apply Forall2_cons_inv_l in Hf as (ff & faces' & Hff & Hrest & ->).
      specialize (IH rest faces' Hrest). cbn [fst snd] in Hff.
      rewrite !filter_cons.
      destruct (decide (d <> ∅)) as [Hne|He].
      * destruct (decide (size ff <> 0%nat)); cbn [length]; lia.
      * assert (d = ∅) as -> by (destruct (decide (d = ∅)); [assumption | contradiction]).
        injection Hff as <-.
        destruct (decide (size np_array_empty <> 0%nat)) as [N|_]; [|exact IH].
        exfalso. apply N. reflexivity.
Qed.

(** With [keep_original_timing = False] a frame without detection leaves
    no trace: whenever the call returns, it returns no more frames than
    there are detections that are not empty. *)
Theorem create_cropped_video_skips_undetected
    (cv2_resize : ndarray -> Z -> Z -> result ndarray)
    (cv2_VideoCapture : string -> VideoCapture) (video_path : string)
    (detections : list (gmap string Z)) (darken : bool) (default_size : Z * Z)
    (out : list ndarray) :
  fst (create_cropped_video cv2_resize cv2_VideoCapture video_path detections
         darken false default_size) = Ok out ->
  (length out
   <= length (filter (fun d : gmap string Z => d <> ∅) detections))%nat.
Proof.
  unfold create_cropped_video.
  set (cap := cv2_VideoCapture video_path).
  destruct (isOpened cap); cbn [negb]; [|discriminate].
  destruct (read_loop _ _ _ _ _ (pending cap) 0 []) as [[out'|e] rest] eqn:Hrun;
    [|discriminate].
  cbn [fst]. intros [= ->].
  destruct (read_loop_Ok_inv cv2_resize detections darken false default_size
              (pending cap) 0 [] out rest ltac:(lia) Hrun) as (faces & Hf).
  rewrite (read_loop_filter cv2_resize detections darken false default_size
             (pending cap) 0 [] faces ltac:(lia) Hf) in Hrun.
  injection Hrun as <- _. cbn [app].
  rewrite drop_0 in Hf.
  exact (faces_of_detections cv2_resize darken default_size detections
           (pending cap) faces Hf).
Qed.

Lemma create_cropped_video_skips_undetected_witness :
  (length [{| ncols := 2; rows := [[(1%Z, 1%Z, 1%Z); zero_pixel]] |}]
   <= length (filter (fun d : gmap string Z => d <> ∅)
                [bounding_box 0 0 1 1; ∅]))%nat.
Proof.
  apply (create_cropped_video_skips_undetected nearest_resize
           (fun _ => three_frames) "video.mp4" [bounding_box 0 0 1 1; ∅]
           true (512, 512)).
  vm_compute. reflexivity.
Defined.

Lemma faces_exist_darken (cv2_resize : ndarray -> Z -> Z -> result ndarray)
    (keep : bool) (default_size : Z * Z) (detections : list (gmap string Z)) :
  Forall well_formed detections ->
  forall stream : list ndarray,
    exists faces : list ndarray,
      Forall2 (fun (df : gmap string Z * ndarray) (ff : ndarray) =>
                 create_face_frame cv2_resize (fst df) (snd df) default_size
                   keep true = Ok ff)
        (zip detections stream) faces.
Proof.
  induction 1 as [|d detections Hd _ IH]; intros stream.
  - exists []. constructor.
  - destruct stream as [|frame rest].
    + exists []. constructor.
    + destruct (create_face_frame_darken_returns cv2_resize d frame default_size
                  keep Hd) as (ff & Eff).
      destruct (IH rest) as (faces & Hf).
      exists (ff :: faces). constructor; assumption.
Qed.

(** With [darken = True] no frame can fail, whatever the numbers of frames
    and of detections and whatever the boxes, inside the frame or not: on
    detections that are empty or carry the four keys the call returns, and
    releases the source. *)
Theorem create_cropped_video_darken_total
    (cv2_resize : ndarray -> Z -> Z -> result ndarray)
    (cv2_VideoCapture : string -> VideoCapture) (video_path : string)
    (detections : list (gmap string Z)) (keep : bool) (default_size : Z * Z) :
  let cap := cv2_VideoCapture video_path in
  isOpened cap = true ->
  Forall well_formed detections ->
  exists out : list ndarray,
    create_cropped_video cv2_resize cv2_VideoCapture video_path detections
      true keep default_size
    = (Ok out, release cap (drop (S (length detections)) (pending cap)))
    /\ (length out <= Nat.min (length detections) (length (pending cap)))%nat.
Proof.
  intros cap Hopen Hwf.
  destruct (faces_exist_darken cv2_resize keep default_size detections Hwf
              (pending cap)) as (faces & Hf).
  exists (filter (fun ff => size ff <> 0%nat) faces).
  unfold create_cropped_video. fold cap. rewrite Hopen. cbn [negb].
  rewrite (read_loop_filter cv2_resize detections true keep default_size
             (pending cap) 0 [] faces ltac:(lia) Hf).
  rewrite Nat.sub_0_r. split; [reflexivity|].
  pose proof (Forall2_length _ _ _ Hf) as L. rewrite length_zip_with in L.
  pose proof (length_filter (fun ff => size ff <> 0%nat) faces) as Lf.
  lia.
Qed.

Lemma create_cropped_video_darken_total_witness :
  let cap := three_frames in
  exists out : list ndarray,
    create_cropped_video nearest_resize (fun _ => three_frames) "video.mp4"
      [∅; bounding_box (-5) 7 100 (-3); ∅; ∅; bounding_box 0 0 1 1] true false
      (512, 512)
    = (Ok out, release cap (drop 6 (pending cap)))
    /\ (length out <= Nat.min 5 (length (pending cap)))%nat.
Proof.
  apply (create_cropped_video_darken_total nearest_resize (fun _ => three_frames)
           "video.mp4"
           [∅; bounding_box (-5) 7 100 (-3); ∅; ∅; bounding_box 0 0 1 1]
           false (512, 512)).
  - reflexivity.
  - constructor; [left; reflexivity|].
    constructor; [right; exists (-5), 7, 100, (-3); repeat split; reflexivity|].
    constructor; [left; reflexivity|].
    constructor; [left; reflexivity|].
    constructor; [right; exists 0, 0, 1, 1; repeat split; reflexivity|].
    constructor.
Defined.

(** ** resize_to_fit: no empty target *)

Lemma floor_near_ge_1 (q : float) (t : Q) :
  Float.near q t -> (2 <= t)%Q -> 1 <= Qfloor (Float.to_Q q).
Proof.
  intros [L _] Ht. change 1 with (Qfloor 1). apply Qfloor_resp_le.
  unfold Float.tol in L. lra.
Qed.

(** When the aspect ratio of the image is not extreme, in that the exact
    proportional width and height are both at least two pixels, neither
    dimension asked of [cv2.resize] is zero, in spite of the rounding of
    the float operations. *)
Theorem resize_to_fit_not_empty (cv2_resize : ndarray -> Z -> Z -> result ndarray)
    (img : ndarray) (frame_w frame_h : Z) :
  let w := Z.of_nat (ncols img) in
  let h := Z.of_nat (nrows img) in
  0 < w < 2 ^ 31 -> 0 < h < 2 ^ 31 ->
  0 < frame_w < 2 ^ 31 -> 0 < frame_h < 2 ^ 31 ->
  2 * w <= frame_w * h -> 2 * h <= frame_h * w ->
  exists new_w new_h : Z,
    resize_to_fit cv2_resize img (frame_w, frame_h) = cv2_resize img new_w new_h
    /\ 1 <= new_w <= frame_w /\ 1 <= new_h <= frame_h.
Proof.
  intros w h Hw Hh Hfw Hfh Rw Rh.
  destruct (fit_size_spec w h frame_w frame_h ltac:(lia) Hh ltac:(lia) Hfh)
    as (a & g & q & _ & _ & Hsel).
  pose proof (inject_Z_pos w ltac:(lia)) as Qw.
  pose proof (inject_Z_pos h ltac:(lia)) as Qh.
  assert (2 <= inject_Z frame_w * inject_Z h / inject_Z w)%Q as Tw.
  { apply Qle_shift_div_l; [exact Qw|].
    change 2%Q with (inject_Z 2). rewrite <- !inject_Z_mult, <- Zle_Qle. exact Rw. }
  assert (2 <= inject_Z frame_h * inject_Z w / inject_Z h)%Q as Th.
  { apply Qle_shift_div_l; [exact Qh|].
    change 2%Q with (inject_Z 2). rewrite <- !inject_Z_mult, <- Zle_Qle. exact Rh. }
  unfold resize_to_fit. cbn [shape]. fold w h.
  destruct (Float.ltb g a); destruct Hsel as (_ & Efit & Hnear & Hb); rewrite Efit.
  - exists frame_w, (Qfloor (Float.to_Q q)). split; [reflexivity|].
    pose proof (floor_near_ge_1 q _ Hnear Tw). lia.
  - exists (Qfloor (Float.to_Q q)), frame_h. split; [reflexivity|].
    pose proof (floor_near_ge_1 q _ Hnear Th). lia.
Qed.

Lemma resize_to_fit_not_empty_witness :
  let w := Z.of_nat (ncols frame_2x3) in
  let h := Z.of_nat (nrows frame_2x3) in
  exists new_w new_h : Z,
    resize_to_fit nearest_resize frame_2x3 (4, 4) = nearest_resize frame_2x3 new_w new_h
    /\ 1 <= new_w <= 4 /\ 1 <= new_h <= 4.
Proof.
  apply (resize_to_fit_not_empty nearest_resize frame_2x3 4 4);
    solve [split; reflexivity | vm_compute; discriminate].
Defined.

(** ** whisperx_util: get_transcribe_summary *)

Lemma append_empty_r (s : string) : String.append s EmptyString = s.
Proof.
  induction s as [|a s IH]; [reflexivity|].
  change (String a (String.append s EmptyString) = String a s). f_equal. exact IH.
Qed.

Lemma append_assoc (s t v : string) :
  String.append (String.append s t) v = String.append s (String.append t v).
Proof.
  induction s as [|a s IH]; [reflexivity|].
  change (String a (String.append (String.append s t) v)
          = String a (String.append s (String.append t v))).
  f_equal. exact IH.
Qed.

Lemma join_empty_cons (s : string) (l : list string) :
  join_empty (s :: l) = String.append s (join_empty l).
Proof. reflexivity. Qed.

Lemma join_empty_app (l1 l2 : list string) :
  join_empty (l1 ++ l2) = String.append (join_empty l1) (join_empty l2).
Proof.
  induction l1 as [|s l1 IH]; [reflexivity|].
  change ((s :: l1) ++ l2) with (s :: (l1 ++ l2)).
  rewrite !join_empty_cons, IH, append_assoc. reflexivity.
Qed.

(** The comprehension over the segments never raises: the filter keeps
    only segments that have a text. *)
Lemma texts_of_segments (segments : list segment) :
  exists parts : list string,
    comprehension (fun item => getitem_str item "text")
      (fun item => truthy (get_str item "text" EmptyString)) segments = Ok parts
    /\ join_empty parts
       = join_empty (map (fun item => get_str item "text" EmptyString) segments).
Proof.
  unfold segment in *. induction segments as [|item rest (parts & E & J)].
  - exists []. split; reflexivity.
  - cbn [comprehension map]. rewrite join_empty_cons.
    destruct (item !! "text") as [t|] eqn:Ht.
    + assert (get_str item "text" EmptyString = t) as ->
        by (unfold get_str; rewrite Ht; reflexivity).
      assert (getitem_str item "text" = Ok t) as ->
        by (unfold getitem_str; rewrite Ht; reflexivity).
      destruct t as [|a t]; cbn [truthy].
      * exists parts. split; [exact E | exact J].
      * rewrite E. cbn [bind]. eexists. split; [reflexivity|].
        rewrite join_empty_cons, J. reflexivity.
    + assert (get_str item "text" EmptyString = EmptyString) as ->
        by (unfold get_str; rewrite Ht; reflexivity).
      exists parts. split; [exact E | exact J].
Qed.

(** The summary is never an error: it is the concatenation, in order, of
    the [text] fields of the segments, a segment without [text] counting
    for nothing, and it is empty when the response has no [segments]. *)
Theorem get_transcribe_summary_concat (json_response : gmap string (list segment)) :
  get_transcribe_summary json_response
  = Ok (join_empty (map (fun item => get_str item "text" EmptyString)
                      (default [] (json_response !! "segments")))).
Proof.
  unfold get_transcribe_summary.
  destruct (json_response !! "segments") as [segments|]; [|reflexivity].
  destruct (texts_of_segments segments) as (parts & E & J).
  rewrite E. cbn [bind default]. rewrite J. reflexivity.
Qed.

(** The summary of a response whose segments are two lists in a row is
    the summary of the first followed by the summary of the second. *)
Theorem get_transcribe_summary_app (json_response : gmap string (list segment))
    (first second : list segment) (s1 s2 : string) :
  get_transcribe_summary (<["segments" := first]> json_response) = Ok s1 ->
  get_transcribe_summary (<["segments" := second]> json_response) = Ok s2 ->
  get_transcribe_summary (<["segments" := first ++ second]> json_response)
  = Ok (String.append s1 s2).
Proof.
  unfold get_transcribe_summary. rewrite !lookup_insert_eq.
  destruct (texts_of_segments first) as (p1 & -> & J1).
  destruct (texts_of_segments second) as (p2 & -> & J2).
  destruct (texts_of_segments (first ++ second)) as (p & -> & J).
  cbn [bind]. intros [= <-] [= <-]. f_equal.
  rewrite J, J1, J2, map_app. apply join_empty_app.
Qed.

Lemma get_transcribe_summary_app_witness :
  get_transcribe_summary
    (<["segments" := [{["text" := "Hello"]}; ∅] ++ [{["text" := " world"]}]]> ∅)
  = Ok (String.append "Hello" " world").
Proof.
  apply (get_transcribe_summary_app ∅ [{["text" := "Hello"]}; ∅]
           [{["text" := " world"]}] "Hello" " world");
    vm_compute; reflexivity.
Defined.

(** ** geolocation_processing *)

(** The float literals of the module are valid binary64 values. *)
Example gps_literals_valid :
  forallb (valid_binary Float.prec Float.emax)
    [geolocation_processing.lit_0_01; geolocation_processing.lit_0_05;
     geolocation_processing.lit_0_002; geolocation_processing.lit_0_3;
     geolocation_processing.lit_0_2; geolocation_processing.lit_0_5;
     geolocation_processing.float_90; geolocation_processing.float_180;
     geolocation_processing.float_minus_90; geolocation_processing.float_minus_180]
  = true.
Proof. reflexivity. Qed.

Lemma find_app_None {A : Type} (p : A -> bool) (l1 l2 : list A) :
  List.find p l1 = None -> List.find p (l1 ++ l2) = List.find p l2.
Proof.
  induction l1 as [|x l1 IH]; [reflexivity|]. cbn.
  destruct (p x); [discriminate | exact IH].
Qed.

Lemma find_app_Some {A : Type} (p : A -> bool) (l1 l2 : list A) (x : A) :
  List.find p l1 = Some x -> List.find p (l1 ++ l2) = Some x.
Proof.
  induction l1 as [|y l1 IH]; [discriminate|]. cbn.
  destruct (p y); [trivial | exact IH].
Qed.

(** Reading a list of keys: the first key that is missing raises
    [KeyError]; otherwise the values come in the order of the keys. *)
Lemma mapM_getitem_str (config : gmap string string) (keys : list string) :
  match List.find (fun k => bool_decide (config !! k = None)) keys with
  | Some k => mapM (getitem_str config) keys = Raise (KeyError k)
  | None =>
      mapM (getitem_str config) keys
      = Ok (map (fun k => default EmptyString (config !! k)) keys)
  end.
Proof.
  induction keys as [|k keys IH]; [reflexivity|].
  cbn [List.find mapM map].
  destruct (config !! k) as [v|] eqn:E.
  - assert (getitem_str config k = Ok v) as ->
      by (unfold getitem_str; rewrite E; reflexivity).
    rewrite bool_decide_eq_false_2 by discriminate. cbn [bind default].
    destruct (List.find _ keys); rewrite IH; reflexivity.
  - assert (getitem_str config k = Raise (KeyError k)) as ->
      by (unfold getitem_str; rewrite E; reflexivity).
    rewrite bool_decide_eq_true_2 by reflexivity. reflexivity.
Qed.

(** The frames that [create_empty_dataframes] returns have no rows, and 9,
    10 and 10 columns. *)
Lemma create_empty_dataframes_frames (config : gmap string string) :
  match geolocation_processing.create_empty_dataframes config with
  | Ok df_list =>
      exists hourly daily summary : geolocation_processing.DataFrame,
        df_list = [hourly; daily; summary]
        /\ geolocation_processing.records hourly = []
        /\ geolocation_processing.records daily = []
        /\ geolocation_processing.records summary = []
        /\ length (geolocation_processing.columns hourly) = 9%nat
        /\ length (geolocation_processing.columns daily) = 10%nat
        /\ length (geolocation_processing.columns summary) = 10%nat
  | Raise _ => True
  end.
Proof.
  unfold geolocation_processing.create_empty_dataframes.
  pose proof (mapM_getitem_str config geolocation_processing.hourly_keys) as Hh.
  pose proof (mapM_getitem_str config geolocation_processing.daily_keys) as Hd.
  pose proof (mapM_getitem_str config geolocation_processing.summary_keys) as Hs.
  destruct (List.find _ geolocation_processing.hourly_keys); rewrite Hh;
    [exact I|]. cbn [bind].
  destruct (List.find _ geolocation_processing.daily_keys); rewrite Hd;
    [exact I|]. cbn [bind].
  destruct (List.find _ geolocation_processing.summary_keys); rewrite Hs;
    [exact I|]. cbn [bind].
  eexists _, _, _. repeat split; reflexivity.
Qed.

(** [create_empty_dataframes] raises [KeyError] for the first key that
    the configuration lacks, in the order in which the columns of the
    hourly, daily and summary frames are read; on a configuration that has
    them all it returns three frames without rows, of 9, 10 and 10 columns,
    named by the configuration. *)
Theorem create_empty_dataframes_spec (config : gmap string string) :
  match List.find (fun k => bool_decide (config !! k = None))
          (geolocation_processing.hourly_keys ++ geolocation_processing.daily_keys
           ++ geolocation_processing.summary_keys) with
  | Some k =>
      geolocation_processing.create_empty_dataframes config = Raise (KeyError k)
  | None =>
      exists hourly daily summary : geolocation_processing.DataFrame,
        geolocation_processing.create_empty_dataframes config
        = Ok [hourly; daily; summary]
        /\ geolocation_processing.records hourly = []
        /\ geolocation_processing.records daily = []
        /\ geolocation_processing.records summary = []
        /\ geolocation_processing.columns hourly
           = map (fun k => default EmptyString (config !! k))
               geolocation_processing.hourly_keys
        /\ geolocation_processing.columns daily
           = map (fun k => default EmptyString (config !! k))
               geolocation_processing.daily_keys
        /\ geolocation_processing.columns summary
           = map (fun k => default EmptyString (config !! k))
               geolocation_processing.summary_keys
        /\ length (geolocation_processing.columns hourly) = 9%nat
        /\ length (geolocation_processing.columns daily) = 10%nat
        /\ length (geolocation_processing.columns summary) = 10%nat
  end.
Proof.
  unfold geolocation_processing.create_empty_dataframes.
  pose proof (mapM_getitem_str config geolocation_processing.hourly_keys) as Hh.
  pose proof (mapM_getitem_str config geolocation_processing.daily_keys) as Hd.
  pose proof (mapM_getitem_str config geolocation_processing.summary_keys) as Hs.
  set (missing := fun k => bool_decide (config !! k = None)) in *.
  destruct (List.find missing geolocation_processing.hourly_keys) as [k|] eqn:Fh.
  { rewrite (find_app_Some _ _ _ _ Fh), Hh. reflexivity. }
  rewrite (find_app_None _ _ _ Fh), Hh. cbn [bind].
  destruct (List.find missing geolocation_processing.daily_keys) as [k|] eqn:Fd.
  { rewrite (find_app_Some _ _ _ _ Fd), Hd. reflexivity. }
  rewrite (find_app_None _ _ _ Fd), Hd. cbn [bind].
  destruct (List.find missing geolocation_processing.summary_keys) as [k|] eqn:Fs.
  { rewrite Hs. reflexivity. }
  rewrite Hs. cbn [bind]. eexists _, _, _. split; [reflexivity|].
  repeat split; reflexivity.
Qed.

Section Analysis.

Import geolocation_processing.

Variables file data mobmat bv_dict bv_sets imp_table traj : Type.
Variable module_file : string.
Variable os_path_dirname : string -> string.
Variable os_path_join : string -> string -> string.
Variable os_path_abspath : string -> string.
Variable open_file : string -> outcome file.
Variable json_load : file -> outcome (gmap string string).
Variable pd_read_csv : string -> outcome data.
Variable data_shape : data -> Z * Z.
Variable gps_quality : data -> outcome unit.
Variable np_mean_accuracy : data -> outcome float.
Variable gps_to_mobmat : data -> Z -> Z -> Z -> float -> Z -> outcome mobmat.
Variable infer_mobmat : mobmat -> Z -> Z -> outcome mobmat.
Variable bv_select :
  mobmat -> float -> float -> Z -> list number -> option unit -> option unit ->
  outcome bv_dict.
Variable impute_gps :
  mobmat -> bv_sets -> string -> Z -> Z -> Z -> string -> list number ->
  outcome imp_table.
Variable imp_to_traj : imp_table -> mobmat -> float -> outcome traj.
Variable traj_shape0 : traj -> Z.
Variable np_max_column : traj -> Z -> float.
Variable np_min_column : traj -> Z -> float.
Variable trajectory_statistics :
  traj -> list DataFrame -> string -> outcome (list DataFrame).

Local Abbreviation body :=
  (try_body data mobmat bv_dict bv_sets imp_table traj pd_read_csv data_shape
     gps_quality np_mean_accuracy gps_to_mobmat infer_mobmat bv_select impute_gps
     imp_to_traj traj_shape0 np_max_column np_min_column trajectory_statistics).

Local Abbreviation analysis :=
  (gps_analysis file data mobmat bv_dict bv_sets imp_table traj module_file
     os_path_dirname os_path_join os_path_abspath open_file json_load
     pd_read_csv data_shape gps_quality np_mean_accuracy gps_to_mobmat
     infer_mobmat bv_select impute_gps imp_to_traj traj_shape0 np_max_column
     np_min_column trajectory_statistics).

(** The body of the [try] statement never completes: whatever the
    libraries return, it raises at the latest where [bv_set], a name that
    is bound nowhere, is used. *)
Lemma try_body_throws (filepath timezone : string) (df_list : list DataFrame) :
  exists e : exception, body filepath timezone df_list = Throw e.
Proof.
  unfold try_body.
  destruct (pd_read_csv filepath) as [d|e]; cbn [obind]; [|eauto].
  destruct (_ && _); [eauto|].
  destruct (gps_quality d) as [[]|e]; cbn [obind]; [|eauto].
  destruct (np_mean_accuracy d) as [acc|e]; cbn [obind]; [|eauto].
  destruct (gps_to_mobmat d 10 51 51 acc 51) as [m1|e]; cbn [obind]; [|eauto].
  destruct (infer_mobmat m1 10 51) as [m2|e]; cbn [obind]; [|eauto].
  destruct (bv_select m2 _ _ _ _ _ _) as [bv|e]; cbn [obind]; eauto.
Qed.

(** Whatever the file holds and whatever the libraries compute, a call
    that returns has logged one error for the file and returns three
    frames of one row each, labelled 0, with [pd.NA] in every column: the
    statistics of the trajectory are never computed. *)
Theorem gps_analysis_all_NA (filepath timezone : string)
    (hourly daily summary : DataFrame) (log : list (string * exception)) :
  analysis filepath timezone = (Return (hourly, daily, summary), log) ->
  (exists e : exception, log = [(filepath, e)])
  /\ records hourly = [(0, replicate 9 NA)]
  /\ records daily = [(0, replicate 10 NA)]
  /\ records summary = [(0, replicate 10 NA)].
Proof.
  unfold gps_analysis.
  destruct (get_config _ _ _ _ _ _ _ _) as [measures|e]; [|discriminate].
  pose proof (create_empty_dataframes_frames measures) as Hc.
  destruct (create_empty_dataframes measures) as [df_list|e]; [|discriminate].
  destruct Hc as (h0 & d0 & s0 & -> & Rh & Rd & Rs & Lh & Ld & Ls).
  cbn [lift].
  destruct (try_body_throws filepath timezone [h0; d0; s0]) as (e & ->).
  unfold finally_block, shape0. rewrite Rh, Rd, Rs. cbn [length Nat.eqb].
  intros [= <- <- <- <-]. split; [eauto|].
  unfold loc_set_NA. cbn [records columns]. rewrite Rh, Rd, Rs, Lh, Ld, Ls.
  repeat split; reflexivity.
Qed.

End Analysis.

Lemma gps_analysis_all_NA_witness :
  gps_analysis_stub "track.csv" "UTC"
  = (geolocation_processing.Return
       ({| geolocation_processing.columns := geolocation_processing.hourly_keys;
           geolocation_processing.records :=
             [(0, replicate 9 geolocation_processing.NA)] |},
        {| geolocation_processing.columns := geolocation_processing.daily_keys;
           geolocation_processing.records :=
             [(0, replicate 10 geolocation_processing.NA)] |},
        {| geolocation_processing.columns := geolocation_processing.summary_keys;
           geolocation_processing.records :=
             [(0, replicate 10 geolocation_processing.NA)] |}),
     [("track.csv", geolocation_processing.NameError "bv_set")])
  /\ (exists e : geolocation_processing.exception,
        [("track.csv", geolocation_processing.NameError "bv_set")]
        = [("track.csv", e)])
  /\ geolocation_processing.records
       {| geolocation_processing.columns := geolocation_processing.hourly_keys;
          geolocation_processing.records :=
            [(0, replicate 9 geolocation_processing.NA)] |}
     = [(0, replicate 9 geolocation_processing.NA)]
  /\ geolocation_processing.records
       {| geolocation_processing.columns := geolocation_processing.daily_keys;
          geolocation_processing.records :=
            [(0, replicate 10 geolocation_processing.NA)] |}
     = [(0, replicate 10 geolocation_processing.NA)]
  /\ geolocation_processing.records
       {| geolocation_processing.columns := geolocation_processing.summary_keys;
          geolocation_processing.records :=
            [(0, replicate 10 geolocation_processing.NA)] |}
     = [(0, replicate 10 geolocation_processing.NA)].
Proof.
  split; [vm_compute; reflexivity|].
  eapply gps_analysis_all_NA with (timezone := "UTC").
  exact (eq_refl (gps_analysis_stub "track.csv" "UTC")).
Defined.
